(** * Event planner: the authorization-scoped CRUD actions

    A shallow embedding of [src/db/tables.ts] (the three tables) and of
    [src/src/actions/index.ts] (the nine actions and their helpers), with
    the properties of the access layer proved over it.

    Conventions.
    - A JavaScript value that may be [undefined] (or a column that may be
      NULL) is an [option]; [None] is [undefined]/NULL.
    - A handler is a computation over the store that returns a value or
      throws; a throw keeps whatever the store is at that point, so that
      "the store is unchanged on failure" is a property to prove and not
      a by-product of the encoding.
    - [new Date()] and [crypto.randomUUID()] come from the runtime and are
      read from a [Runtime] record; each handler reads each at most once. *)

From Stdlib Require Import String List Bool ZArith Lia.
Import ListNotations.
Local Open Scope string_scope.
Local Open Scope list_scope.

(** ** Values *)

(** A [Date] is its time value (milliseconds since the epoch). *)
Definition Date := Z.

(** JavaScript truthiness of a string: only the empty string is falsy. *)
Definition truthy (s : string) : bool := negb (s =? "").

(** [a ?? b] *)
Definition nullish {A} (a b : option A) : option A :=
  match a with
  | Some x => Some x
  | None => b
  end.

(** A property of an object literal of type [Partial<Row>]: the key is
    not there, or it is there with the value [undefined], or it is there
    with a value. *)
Inductive Slot (A : Type) : Type :=
| Missing : Slot A
| Undef : Slot A
| Val : A -> Slot A.
Arguments Missing {A}.
Arguments Undef {A}.
Arguments Val {A} _.

(** The key written by [key: v] in a literal, for [v] possibly undefined. *)
Definition keyed {A} (v : option A) : Slot A :=
  match v with
  | Some x => Val x
  | None => Undef
  end.

(** [{ ...existing, ...updates }] at one optional property. *)
Definition spread {A} (u : Slot A) (old : option A) : option A :=
  match u with
  | Missing => old
  | Undef => None
  | Val x => Some x
  end.

(** The same at a property that [updates] holds with a value or not at
    all. *)
Definition spread_req {A} (u : option A) (old : A) : A :=
  match u with
  | Some x => x
  | None => old
  end.

(** ** Tables ([src/db/tables.ts]) *)

Module Events.
Record row : Type := {
  id : string;
  ownerUserId : string;
  title : string;
  description : option string;
  startDateTime : option Date;
  endDateTime : option Date;
  timeZone : option string;
  locationName : option string;
  locationAddress : option string;
  locationMapLink : option string;
  status : option string;
  createdAt : Date;
  updatedAt : Date
}.

(** [Partial<typeof Events.$inferSelect>] as [updateEvent] fills it. *)
Record partial : Type := {
  p_title : option string;
  p_description : Slot string;
  p_startDateTime : Slot Date;
  p_endDateTime : Slot Date;
  p_timeZone : Slot string;
  p_locationName : Slot string;
  p_locationAddress : Slot string;
  p_locationMapLink : Slot string;
  p_status : Slot string;
  p_updatedAt : option Date
}.
End Events.

Module EventTasks.
Record row : Type := {
  id : string;
  eventId : string;
  userId : option string;
  title : string;
  description : option string;
  dueDate : option Date;
  status : option string;
  priority : option string;
  createdAt : Date;
  updatedAt : Date
}.

Record partial : Type := {
  p_title : option string;
  p_description : Slot string;
  p_dueDate : Slot Date;
  p_status : Slot string;
  p_priority : Slot string;
  p_userId : Slot string;
  p_updatedAt : option Date
}.
End EventTasks.

Module EventGuests.
Record row : Type := {
  id : string;
  eventId : string;
  name : string;
  email : option string;
  phone : option string;
  rsvpStatus : option string;
  notes : option string;
  invitedAt : option Date;
  respondedAt : option Date;
  createdAt : Date
}.

Record partial : Type := {
  p_name : option string;
  p_email : Slot string;
  p_phone : Slot string;
  p_rsvpStatus : Slot string;
  p_notes : Slot string;
  p_invitedAt : Slot Date;
  p_respondedAt : Slot Date
}.
End EventGuests.

(** The store: the rows of the three tables, in insertion order. *)
Record Store : Type := {
  events : list Events.row;
  tasks : list EventTasks.row;
  guests : list EventGuests.row
}.

Definition emptyStore : Store := {| events := []; tasks := []; guests := [] |}.

(** ** Results and handlers *)

(** The codes of the [ActionError]s the handlers throw; [BAD_REQUEST] is
    the code of the error [defineAction] raises when the input does not
    pass the schema (the spec's ValidationError), and
    [INTERNAL_SERVER_ERROR] stands for an exception of the store. *)
Inductive ErrorCode : Type :=
| UNAUTHORIZED
| NOT_FOUND
| FORBIDDEN
| BAD_REQUEST
| INTERNAL_SERVER_ERROR.

Inductive Result (A : Type) : Type :=
| Ok : A -> Result A
| Throw : ErrorCode -> Result A.
Arguments Ok {A} _.
Arguments Throw {A} _.

Definition Handler (A : Type) : Type := Store -> Result A * Store.

Definition ret {A} (a : A) : Handler A := fun s => (Ok a, s).

Definition throw {A} (e : ErrorCode) : Handler A := fun s => (Throw e, s).

Definition bind {A B} (m : Handler A) (k : A -> Handler B) : Handler B :=
  fun s =>
    match m s with
    | (Ok a, s') => k a s'
    | (Throw e, s') => (Throw e, s')
    end.

Notation "x <- m ;; k" := (bind m (fun x => k))
  (at level 61, m at next level, right associativity).
Notation "m ;;; k" := (bind m (fun _ => k))
  (at level 61, right associativity).

(** ** The store's statements

    A table is a list of rows with a primary key and with the foreign
    keys that [src/db/tables.ts] declares: the [eventId] of a task and of
    a guest [references] the [id] of an event, with no action on delete.
    [db_select] is an equality-filtered query.  [db_insert] appends a row
    and refuses a primary key that is taken and a row whose parent is not
    there.  [db_update] rewrites the rows that match; no [set] of the
    handlers holds a key column.  [db_delete] removes the rows that
    match and refuses to when a row of another table points to one of
    them.  A statement that is refused throws and leaves the store as it
    was. *)

Record Table (A : Type) : Type := {
  rows : Store -> list A;
  with_rows : list A -> Store -> Store;
  pk : A -> string;
  (* whether the row that this row references is in the store *)
  references : option (A -> Store -> bool);
  (* whether a row of a table that references this one points to the row *)
  referenced : option (A -> Store -> bool)
}.
Arguments rows {A} _ _.
Arguments with_rows {A} _ _ _.
Arguments pk {A} _ _.
Arguments references {A} _.
Arguments referenced {A} _.

Definition EventsT : Table Events.row := {|
  rows := events;
  with_rows := fun l s => {| events := l; tasks := tasks s; guests := guests s |};
  pk := Events.id;
  references := None;
  referenced :=
    Some (fun e s =>
            existsb (fun t => EventTasks.eventId t =? Events.id e) (tasks s)
            || existsb (fun g => EventGuests.eventId g =? Events.id e) (guests s))
|}.

Definition EventTasksT : Table EventTasks.row := {|
  rows := tasks;
  with_rows := fun l s => {| events := events s; tasks := l; guests := guests s |};
  pk := EventTasks.id;
  references :=
    Some (fun t s => existsb (fun e => Events.id e =? EventTasks.eventId t) (events s));
  referenced := None
|}.

Definition EventGuestsT : Table EventGuests.row := {|
  rows := guests;
  with_rows := fun l s => {| events := events s; tasks := tasks s; guests := l |};
  pk := EventGuests.id;
  references :=
    Some (fun g s => existsb (fun e => Events.id e =? EventGuests.eventId g) (events s));
  referenced := None
|}.

(** The foreign-key checks of an insert and of a delete. *)
Definition parent_there {A} (T : Table A) (values : A) (s : Store) : bool :=
  match references T with
  | Some check => check values s
  | None => true
  end.

Definition still_referenced {A} (T : Table A) (where_ : A -> bool) (s : Store) : bool :=
  match referenced T with
  | Some check => existsb (fun r => where_ r && check r s) (rows T s)
  | None => false
  end.

Definition db_select {A} (T : Table A) (where_ : A -> bool) : Handler (list A) :=
  fun s => (Ok (filter where_ (rows T s)), s).

Definition db_insert {A} (T : Table A) (values : A) : Handler unit :=
  fun s =>
    if existsb (fun r => pk T r =? pk T values) (rows T s)
    then (Throw INTERNAL_SERVER_ERROR, s)
    else if parent_there T values s
         then (Ok tt, with_rows T (rows T s ++ [values]) s)
         else (Throw INTERNAL_SERVER_ERROR, s).

Definition db_update {A} (T : Table A) (set : A -> A) (where_ : A -> bool)
  : Handler unit :=
  fun s =>
    (Ok tt, with_rows T (map (fun r => if where_ r then set r else r) (rows T s)) s).

Definition db_delete {A} (T : Table A) (where_ : A -> bool) : Handler unit :=
  fun s =>
    if still_referenced T where_ s
    then (Throw INTERNAL_SERVER_ERROR, s)
    else (Ok tt, with_rows T (filter (fun r => negb (where_ r)) (rows T s)) s).

(** [(rows)[0]] *)
Definition first {A} (l : list A) : option A := hd_error l.

(** ** Request context and runtime *)

Module User.
Record t : Type := { id : string }.
End User.

Record Locals : Type := { user : option User.t }.

Record ActionAPIContext : Type := { locals : option Locals }.

(** The context of a request made by the signed-in user [uid]. *)
Definition signedIn (uid : string) : ActionAPIContext :=
  {| locals := Some {| user := Some {| User.id := uid |} |} |}.

Definition anonymous : ActionAPIContext := {| locals := Some {| user := None |} |}.

Record Runtime : Type := {
  now : Date;          (* new Date() *)
  randomUUID : string  (* crypto.randomUUID() *)
}.

(** ** Inputs

    The input of an action as it arrives: an object whose properties are
    strings; a key that is not listed is [undefined]. *)
Definition RawInput : Type := list (string * string).

Fixpoint prop (key : string) (o : RawInput) : option string :=
  match o with
  | [] => None
  | (k, v) :: rest => if k =? key then Some v else prop key rest
  end.

(** The inputs after the schema, typed as the handlers see them. *)
Module CreateEventInput.
Record t : Type := {
  title : string;
  description : option string;
  startDateTime : option string;
  endDateTime : option string;
  timeZone : option string;
  locationName : option string;
  locationAddress : option string;
  locationMapLink : option string;
  status : string
}.
End CreateEventInput.

Module UpdateEventInput.
Record t : Type := {
  id : string;
  title : option string;
  description : option string;
  startDateTime : option string;
  endDateTime : option string;
  timeZone : option string;
  locationName : option string;
  locationAddress : option string;
  locationMapLink : option string;
  status : option string
}.
End UpdateEventInput.

Module IdInput.
Record t : Type := { id : string }.
End IdInput.

Module ListMyEventsInput.
Record t : Type := { status : option string }.
End ListMyEventsInput.

Module UpsertEventTaskInput.
Record t : Type := {
  id : option string;
  eventId : string;
  title : string;
  description : option string;
  dueDate : option string;
  status : string;
  priority : option string;
  userId : option string
}.
End UpsertEventTaskInput.

Module UpsertEventGuestInput.
Record t : Type := {
  id : option string;
  eventId : string;
  name : string;
  email : option string;
  phone : option string;
  rsvpStatus : option string;
  notes : option string;
  invitedAt : option string;
  respondedAt : option string
}.
End UpsertEventGuestInput.

(** What the actions return in [data]. *)
Record EventDetails : Type := {
  d_event : Events.row;
  d_tasks : list EventTasks.row;
  d_guests : list EventGuests.row
}.

Record EventList : Type := {
  items : list Events.row;
  total : nat
}.

(** ** Schemas

    A schema reads one property and yields the parsed value, or [None]
    when the property does not pass. *)
Definition Schema (A : Type) : Type := option string -> option A.

(** [z.string()] with a check on the string. *)
Definition z_string_where (check : string -> bool) : Schema string :=
  fun v =>
    match v with
    | Some s => if check s then Some s else None
    | None => None
    end.

Definition z_string : Schema string := z_string_where (fun _ => true).

(** [z.string().min(1)] *)
Definition z_string_min1 : Schema string :=
  z_string_where (fun s => Nat.leb 1 (String.length s)).

(** [z.enum(values)] *)
Definition z_enum (values : list string) : Schema string :=
  z_string_where (fun s => existsb (String.eqb s) values).

(** [.optional()] *)
Definition optional {A} (p : Schema A) : Schema (option A) :=
  fun v =>
    match v with
    | None => Some None
    | Some _ => option_map Some (p v)
    end.

(** [.default(d)] *)
Definition default {A} (p : Schema A) (d : A) : Schema A :=
  fun v =>
    match v with
    | None => Some d
    | Some _ => p v
    end.

(** [.refine(check)] *)
Definition refine {A} (parsed : option A) (check : A -> bool) : option A :=
  match parsed with
  | Some a => if check a then Some a else None
  | None => None
  end.

Definition defined {A} (v : option A) : bool :=
  match v with
  | Some _ => true
  | None => false
  end.

Definition EVENT_STATUSES : list string := ["planning"; "confirmed"; "done"; "cancelled"].
Definition TASK_STATUSES : list string := ["todo"; "in-progress"; "done"].
Definition TASK_PRIORITIES : list string := ["low"; "medium"; "high"].
Definition RSVP_STATUSES : list string := ["invited"; "going"; "maybe"; "declined"].

(** [defineAction({ input, handler })]: the input is parsed first, and
    the handler runs on the parsed input only. *)
Definition defineAction {I O} (input : RawInput -> option I)
  (handler : I -> ActionAPIContext -> Handler O)
  : RawInput -> ActionAPIContext -> Handler O :=
  fun raw context =>
    match input raw with
    | Some i => handler i context
    | None => throw BAD_REQUEST
    end.

Definition requireUser (context : ActionAPIContext) : Handler User.t :=
  match locals context with
  | Some l =>
      match user l with
      | Some u => ret u
      | None => throw UNAUTHORIZED
      end
  | None => throw UNAUTHORIZED
  end.

Definition getEventForUser (userId eventId : string) : Handler Events.row :=
  found <- db_select EventsT (fun r => Events.id r =? eventId) ;;
  match first found with
  | None => throw NOT_FOUND
  | Some event =>
      if negb (Events.ownerUserId event =? userId)
      then throw FORBIDDEN
      else ret event
  end.

(** ** The actions ([src/src/actions/index.ts]) *)

Section Actions.

(** What the libraries decide and the repository does not contain: the
    string formats of the schema library, the time value of
    [new Date(value)], and what the query builder's [set] does with a key
    whose value is [undefined].  The query builder leaves such a column
    alone ([set_skips_undefined = true]); the other reading, that it
    writes NULL, is kept as the value [false], and what does not depend
    on the matter is proved for both. *)
Variable is_datetime : string -> bool.   (* z.string().datetime() *)
Variable is_url : string -> bool.        (* z.string().url() *)
Variable is_email : string -> bool.      (* z.string().email() *)
Variable Date_parse : string -> Date.    (* new Date(value) *)
Variable set_skips_undefined : bool.

Definition z_datetime : Schema string := z_string_where is_datetime.
Definition z_url : Schema string := z_string_where is_url.
Definition z_email : Schema string := z_string_where is_email.

Definition parseOptionalDate (value : option string) : option Date :=
  match value with
  | Some v => if truthy v then Some (Date_parse v) else None
  | None => None
  end.

(** [db.update(T).set(updates)] at one optional column. *)
Definition set_col {A} (u : Slot A) (old : option A) : option A :=
  match u with
  | Missing => old
  | Undef => if set_skips_undefined then old else None
  | Val x => Some x
  end.

Definition Events_set (u : Events.partial) (r : Events.row) : Events.row := {|
  Events.id := Events.id r;
  Events.ownerUserId := Events.ownerUserId r;
  Events.title := spread_req (Events.p_title u) (Events.title r);
  Events.description := set_col (Events.p_description u) (Events.description r);
  Events.startDateTime := set_col (Events.p_startDateTime u) (Events.startDateTime r);
  Events.endDateTime := set_col (Events.p_endDateTime u) (Events.endDateTime r);
  Events.timeZone := set_col (Events.p_timeZone u) (Events.timeZone r);
  Events.locationName := set_col (Events.p_locationName u) (Events.locationName r);
  Events.locationAddress := set_col (Events.p_locationAddress u) (Events.locationAddress r);
  Events.locationMapLink := set_col (Events.p_locationMapLink u) (Events.locationMapLink r);
  Events.status := set_col (Events.p_status u) (Events.status r);
  Events.createdAt := Events.createdAt r;
  Events.updatedAt := spread_req (Events.p_updatedAt u) (Events.updatedAt r)
|}.

(** [{ ...existing, ...updates }] *)
Definition Events_spread (r : Events.row) (u : Events.partial) : Events.row := {|
  Events.id := Events.id r;
  Events.ownerUserId := Events.ownerUserId r;
  Events.title := spread_req (Events.p_title u) (Events.title r);
  Events.description := spread (Events.p_description u) (Events.description r);
  Events.startDateTime := spread (Events.p_startDateTime u) (Events.startDateTime r);
  Events.endDateTime := spread (Events.p_endDateTime u) (Events.endDateTime r);
  Events.timeZone := spread (Events.p_timeZone u) (Events.timeZone r);
  Events.locationName := spread (Events.p_locationName u) (Events.locationName r);
  Events.locationAddress := spread (Events.p_locationAddress u) (Events.locationAddress r);
  Events.locationMapLink := spread (Events.p_locationMapLink u) (Events.locationMapLink r);
  Events.status := spread (Events.p_status u) (Events.status r);
  Events.createdAt := Events.createdAt r;
  Events.updatedAt := spread_req (Events.p_updatedAt u) (Events.updatedAt r)
|}.

Definition EventTasks_set (u : EventTasks.partial) (r : EventTasks.row)
  : EventTasks.row := {|
  EventTasks.id := EventTasks.id r;
  EventTasks.eventId := EventTasks.eventId r;
  EventTasks.userId := set_col (EventTasks.p_userId u) (EventTasks.userId r);
  EventTasks.title := spread_req (EventTasks.p_title u) (EventTasks.title r);
  EventTasks.description := set_col (EventTasks.p_description u) (EventTasks.description r);
  EventTasks.dueDate := set_col (EventTasks.p_dueDate u) (EventTasks.dueDate r);
  EventTasks.status := set_col (EventTasks.p_status u) (EventTasks.status r);
  EventTasks.priority := set_col (EventTasks.p_priority u) (EventTasks.priority r);
  EventTasks.createdAt := EventTasks.createdAt r;
  EventTasks.updatedAt := spread_req (EventTasks.p_updatedAt u) (EventTasks.updatedAt r)
|}.

Definition EventTasks_spread (r : EventTasks.row) (u : EventTasks.partial)
  : EventTasks.row := {|
  EventTasks.id := EventTasks.id r;
  EventTasks.eventId := EventTasks.eventId r;
  EventTasks.userId := spread (EventTasks.p_userId u) (EventTasks.userId r);
  EventTasks.title := spread_req (EventTasks.p_title u) (EventTasks.title r);
  EventTasks.description := spread (EventTasks.p_description u) (EventTasks.description r);
  EventTasks.dueDate := spread (EventTasks.p_dueDate u) (EventTasks.dueDate r);
  EventTasks.status := spread (EventTasks.p_status u) (EventTasks.status r);
  EventTasks.priority := spread (EventTasks.p_priority u) (EventTasks.priority r);
  EventTasks.createdAt := EventTasks.createdAt r;
  EventTasks.updatedAt := spread_req (EventTasks.p_updatedAt u) (EventTasks.updatedAt r)
|}.

Definition EventGuests_set (u : EventGuests.partial) (r : EventGuests.row)
  : EventGuests.row := {|
  EventGuests.id := EventGuests.id r;
  EventGuests.eventId := EventGuests.eventId r;
  EventGuests.name := spread_req (EventGuests.p_name u) (EventGuests.name r);
  EventGuests.email := set_col (EventGuests.p_email u) (EventGuests.email r);
  EventGuests.phone := set_col (EventGuests.p_phone u) (EventGuests.phone r);
  EventGuests.rsvpStatus := set_col (EventGuests.p_rsvpStatus u) (EventGuests.rsvpStatus r);
  EventGuests.notes := set_col (EventGuests.p_notes u) (EventGuests.notes r);
  EventGuests.invitedAt := set_col (EventGuests.p_invitedAt u) (EventGuests.invitedAt r);
  EventGuests.respondedAt := set_col (EventGuests.p_respondedAt u) (EventGuests.respondedAt r);
  EventGuests.createdAt := EventGuests.createdAt r
|}.

Definition EventGuests_spread (r : EventGuests.row) (u : EventGuests.partial)
  : EventGuests.row := {|
  EventGuests.id := EventGuests.id r;
  EventGuests.eventId := EventGuests.eventId r;
  EventGuests.name := spread_req (EventGuests.p_name u) (EventGuests.name r);
  EventGuests.email := spread (EventGuests.p_email u) (EventGuests.email r);
  EventGuests.phone := spread (EventGuests.p_phone u) (EventGuests.phone r);
  EventGuests.rsvpStatus := spread (EventGuests.p_rsvpStatus u) (EventGuests.rsvpStatus r);
  EventGuests.notes := spread (EventGuests.p_notes u) (EventGuests.notes r);
  EventGuests.invitedAt := spread (EventGuests.p_invitedAt u) (EventGuests.invitedAt r);
  EventGuests.respondedAt := spread (EventGuests.p_respondedAt u) (EventGuests.respondedAt r);
  EventGuests.createdAt := EventGuests.createdAt r
|}.

(** *** createEvent *)

Definition createEvent_input (raw : RawInput) : option CreateEventInput.t :=
  match z_string_min1 (prop "title" raw),
        optional z_string (prop "description" raw),
        optional z_datetime (prop "startDateTime" raw),
        optional z_datetime (prop "endDateTime" raw),
        optional z_string (prop "timeZone" raw),
        optional z_string (prop "locationName" raw),
        optional z_string (prop "locationAddress" raw),
        optional z_url (prop "locationMapLink" raw),
        default (z_enum EVENT_STATUSES) "planning" (prop "status" raw)
  with
  | Some title, Some description, Some startDateTime, Some endDateTime,
    Some timeZone, Some locationName, Some locationAddress,
    Some locationMapLink, Some status =>
      Some {| CreateEventInput.title := title;
              CreateEventInput.description := description;
              CreateEventInput.startDateTime := startDateTime;
              CreateEventInput.endDateTime := endDateTime;
              CreateEventInput.timeZone := timeZone;
              CreateEventInput.locationName := locationName;
              CreateEventInput.locationAddress := locationAddress;
              CreateEventInput.locationMapLink := locationMapLink;
              CreateEventInput.status := status |}
  | _, _, _, _, _, _, _, _, _ => None
  end.

(** The object literal [event] of the handler. *)
Definition createEvent_event (now : Date) (uuid : string) (user : User.t)
  (input : CreateEventInput.t) : Events.row := {|
  Events.id := uuid;
  Events.ownerUserId := User.id user;
  Events.title := CreateEventInput.title input;
  Events.description := CreateEventInput.description input;
  Events.startDateTime := parseOptionalDate (CreateEventInput.startDateTime input);
  Events.endDateTime := parseOptionalDate (CreateEventInput.endDateTime input);
  Events.timeZone := CreateEventInput.timeZone input;
  Events.locationName := CreateEventInput.locationName input;
  Events.locationAddress := CreateEventInput.locationAddress input;
  Events.locationMapLink := CreateEventInput.locationMapLink input;
  Events.status := nullish (Some (CreateEventInput.status input)) (Some "planning");
  Events.createdAt := now;
  Events.updatedAt := now
|}.

Definition createEvent_handler (rt : Runtime) (input : CreateEventInput.t)
  (context : ActionAPIContext) : Handler Events.row :=
  user <- requireUser context ;;
  let now := now rt in
  let event := createEvent_event now (randomUUID rt) user input in
  db_insert EventsT event ;;;
  ret event.

Definition createEvent (rt : Runtime) :=
  defineAction createEvent_input (createEvent_handler rt).

(** *** updateEvent *)

Definition updateEvent_refine (value : UpdateEventInput.t) : bool :=
  defined (UpdateEventInput.title value) ||
  defined (UpdateEventInput.description value) ||
  defined (UpdateEventInput.startDateTime value) ||
  defined (UpdateEventInput.endDateTime value) ||
  defined (UpdateEventInput.timeZone value) ||
  defined (UpdateEventInput.locationName value) ||
  defined (UpdateEventInput.locationAddress value) ||
  defined (UpdateEventInput.locationMapLink value) ||
  defined (UpdateEventInput.status value).

Definition updateEvent_object (raw : RawInput) : option UpdateEventInput.t :=
  match z_string (prop "id" raw),
        optional z_string_min1 (prop "title" raw),
        optional z_string (prop "description" raw),
        optional z_datetime (prop "startDateTime" raw),
        optional z_datetime (prop "endDateTime" raw),
        optional z_string (prop "timeZone" raw),
        optional z_string (prop "locationName" raw),
        optional z_string (prop "locationAddress" raw),
        optional z_url (prop "locationMapLink" raw),
        optional (z_enum EVENT_STATUSES) (prop "status" raw)
  with
  | Some id, Some title, Some description, Some startDateTime,
    Some endDateTime, Some timeZone, Some locationName,
    Some locationAddress, Some locationMapLink, Some status =>
      Some {| UpdateEventInput.id := id;
              UpdateEventInput.title := title;
              UpdateEventInput.description := description;
              UpdateEventInput.startDateTime := startDateTime;
              UpdateEventInput.endDateTime := endDateTime;
              UpdateEventInput.timeZone := timeZone;
              UpdateEventInput.locationName := locationName;
              UpdateEventInput.locationAddress := locationAddress;
              UpdateEventInput.locationMapLink := locationMapLink;
              UpdateEventInput.status := status |}
  | _, _, _, _, _, _, _, _, _, _ => None
  end.

Definition updateEvent_input (raw : RawInput) : option UpdateEventInput.t :=
  refine (updateEvent_object raw) updateEvent_refine.

(** [if (input.k !== undefined) updates.k = v] *)
Definition assigned {A B} (guard : option A) (v : A -> option B) : Slot B :=
  match guard with
  | Some a => keyed (v a)
  | None => Missing
  end.

Definition updateEvent_updates (now : Date) (input : UpdateEventInput.t)
  : Events.partial := {|
  Events.p_title := UpdateEventInput.title input;
  Events.p_description := assigned (UpdateEventInput.description input) Some;
  Events.p_startDateTime :=
    assigned (UpdateEventInput.startDateTime input) (fun v => parseOptionalDate (Some v));
  Events.p_endDateTime :=
    assigned (UpdateEventInput.endDateTime input) (fun v => parseOptionalDate (Some v));
  Events.p_timeZone := assigned (UpdateEventInput.timeZone input) Some;
  Events.p_locationName := assigned (UpdateEventInput.locationName input) Some;
  Events.p_locationAddress := assigned (UpdateEventInput.locationAddress input) Some;
  Events.p_locationMapLink := assigned (UpdateEventInput.locationMapLink input) Some;
  Events.p_status := assigned (UpdateEventInput.status input) Some;
  Events.p_updatedAt := Some now
|}.

Definition updateEvent_handler (rt : Runtime) (input : UpdateEventInput.t)
  (context : ActionAPIContext) : Handler Events.row :=
  user <- requireUser context ;;
  existing <- getEventForUser (User.id user) (UpdateEventInput.id input) ;;
  let now := now rt in
  let updates := updateEvent_updates now input in
  db_update EventsT (Events_set updates)
    (fun r => Events.id r =? UpdateEventInput.id input) ;;;
  ret (Events_spread existing updates).

Definition updateEvent (rt : Runtime) :=
  defineAction updateEvent_input (updateEvent_handler rt).

(** *** deleteEvent, listMyEvents, getEventWithDetails *)

Definition id_input (raw : RawInput) : option IdInput.t :=
  match z_string (prop "id" raw) with
  | Some id => Some {| IdInput.id := id |}
  | None => None
  end.

Definition deleteEvent_handler (input : IdInput.t) (context : ActionAPIContext)
  : Handler unit :=
  user <- requireUser context ;;
  getEventForUser (User.id user) (IdInput.id input) ;;;
  db_delete EventsT (fun r => Events.id r =? IdInput.id input) ;;;
  db_delete EventTasksT (fun r => EventTasks.eventId r =? IdInput.id input) ;;;
  db_delete EventGuestsT (fun r => EventGuests.eventId r =? IdInput.id input) ;;;
  ret tt.

Definition deleteEvent := defineAction id_input deleteEvent_handler.

(** The input object of [listMyEvents] is itself optional. *)
Definition listMyEvents_input (raw : option RawInput)
  : option (option ListMyEventsInput.t) :=
  match raw with
  | None => Some None
  | Some o =>
      match optional (z_enum EVENT_STATUSES) (prop "status" o) with
      | Some status => Some (Some {| ListMyEventsInput.status := status |})
      | None => None
      end
  end.

Definition listMyEvents_handler (input : option ListMyEventsInput.t)
  (context : ActionAPIContext) : Handler EventList :=
  user <- requireUser context ;;
  let status :=
    match input with
    | Some i => ListMyEventsInput.status i
    | None => None
    end in
  let statusFilter :=
    match status with
    | Some st =>
        if truthy st
        then fun r => (Events.ownerUserId r =? User.id user)
                      && match Events.status r with
                         | Some x => x =? st
                         | None => false
                         end
        else fun r => Events.ownerUserId r =? User.id user
    | None => fun r => Events.ownerUserId r =? User.id user
    end in
  found <- db_select EventsT statusFilter ;;
  ret {| items := found; total := List.length found |}.

Definition listMyEvents (raw : option RawInput) (context : ActionAPIContext)
  : Handler EventList :=
  match listMyEvents_input raw with
  | Some i => listMyEvents_handler i context
  | None => throw BAD_REQUEST
  end.

Definition getEventWithDetails_handler (input : IdInput.t)
  (context : ActionAPIContext) : Handler EventDetails :=
  user <- requireUser context ;;
  event <- getEventForUser (User.id user) (IdInput.id input) ;;
  ts <- db_select EventTasksT (fun r => EventTasks.eventId r =? IdInput.id input) ;;
  gs <- db_select EventGuestsT (fun r => EventGuests.eventId r =? IdInput.id input) ;;
  ret {| d_event := event; d_tasks := ts; d_guests := gs |}.

Definition getEventWithDetails := defineAction id_input getEventWithDetails_handler.

(** *** upsertEventTask, deleteEventTask *)

Definition upsertEventTask_input (raw : RawInput) : option UpsertEventTaskInput.t :=
  match optional z_string (prop "id" raw),
        z_string (prop "eventId" raw),
        z_string_min1 (prop "title" raw),
        optional z_string (prop "description" raw),
        optional z_datetime (prop "dueDate" raw),
        default (z_enum TASK_STATUSES) "todo" (prop "status" raw),
        optional (z_enum TASK_PRIORITIES) (prop "priority" raw),
        optional z_string (prop "userId" raw)
  with
  | Some id, Some eventId, Some title, Some description, Some dueDate,
    Some status, Some priority, Some userId =>
      Some {| UpsertEventTaskInput.id := id;
              UpsertEventTaskInput.eventId := eventId;
              UpsertEventTaskInput.title := title;
              UpsertEventTaskInput.description := description;
              UpsertEventTaskInput.dueDate := dueDate;
              UpsertEventTaskInput.status := status;
              UpsertEventTaskInput.priority := priority;
              UpsertEventTaskInput.userId := userId |}
  | _, _, _, _, _, _, _, _ => None
  end.

(** [if (input.id)]: the id when it is there and truthy. *)
Definition given (id : option string) : option string :=
  match id with
  | Some i => if truthy i then Some i else None
  | None => None
  end.

Definition upsertEventTask_updates (now : Date) (input : UpsertEventTaskInput.t)
  (existing : EventTasks.row) : EventTasks.partial := {|
  EventTasks.p_title := Some (UpsertEventTaskInput.title input);
  EventTasks.p_description := keyed (UpsertEventTaskInput.description input);
  EventTasks.p_dueDate := keyed (parseOptionalDate (UpsertEventTaskInput.dueDate input));
  EventTasks.p_status :=
    keyed (nullish (Some (UpsertEventTaskInput.status input)) (EventTasks.status existing));
  EventTasks.p_priority := keyed (UpsertEventTaskInput.priority input);
  EventTasks.p_userId := keyed (UpsertEventTaskInput.userId input);
  EventTasks.p_updatedAt := Some now
|}.

(** The object literal [task] of the create branch. *)
Definition upsertEventTask_task (now : Date) (uuid : string) (event : Events.row)
  (input : UpsertEventTaskInput.t) : EventTasks.row := {|
  EventTasks.id := uuid;
  EventTasks.eventId := Events.id event;
  EventTasks.userId := UpsertEventTaskInput.userId input;
  EventTasks.title := UpsertEventTaskInput.title input;
  EventTasks.description := UpsertEventTaskInput.description input;
  EventTasks.dueDate := parseOptionalDate (UpsertEventTaskInput.dueDate input);
  EventTasks.status := nullish (Some (UpsertEventTaskInput.status input)) (Some "todo");
  EventTasks.priority := UpsertEventTaskInput.priority input;
  EventTasks.createdAt := now;
  EventTasks.updatedAt := now
|}.

Definition upsertEventTask_handler (rt : Runtime) (input : UpsertEventTaskInput.t)
  (context : ActionAPIContext) : Handler EventTasks.row :=
  user <- requireUser context ;;
  event <- getEventForUser (User.id user) (UpsertEventTaskInput.eventId input) ;;
  let now := now rt in
  match given (UpsertEventTaskInput.id input) with
  | Some id =>
      found <- db_select EventTasksT (fun r => EventTasks.id r =? id) ;;
      match first found with
      | None => throw NOT_FOUND
      | Some existing =>
          if negb (EventTasks.eventId existing =? Events.id event)
          then throw FORBIDDEN
          else
            let updates := upsertEventTask_updates now input existing in
            db_update EventTasksT (EventTasks_set updates)
              (fun r => EventTasks.id r =? id) ;;;
            ret (EventTasks_spread existing updates)
      end
  | None =>
      let task := upsertEventTask_task now (randomUUID rt) event input in
      db_insert EventTasksT task ;;;
      ret task
  end.

Definition upsertEventTask (rt : Runtime) :=
  defineAction upsertEventTask_input (upsertEventTask_handler rt).

Definition deleteEventTask_handler (input : IdInput.t) (context : ActionAPIContext)
  : Handler unit :=
  user <- requireUser context ;;
  found <- db_select EventTasksT (fun r => EventTasks.id r =? IdInput.id input) ;;
  match first found with
  | None => throw NOT_FOUND
  | Some existing =>
      getEventForUser (User.id user) (EventTasks.eventId existing) ;;;
      db_delete EventTasksT (fun r => EventTasks.id r =? IdInput.id input) ;;;
      ret tt
  end.

Definition deleteEventTask := defineAction id_input deleteEventTask_handler.

(** *** upsertEventGuest, deleteEventGuest *)

Definition upsertEventGuest_input (raw : RawInput) : option UpsertEventGuestInput.t :=
  match optional z_string (prop "id" raw),
        z_string (prop "eventId" raw),
        z_string_min1 (prop "name" raw),
        optional z_email (prop "email" raw),
        optional z_string (prop "phone" raw),
        optional (z_enum RSVP_STATUSES) (prop "rsvpStatus" raw),
        optional z_string (prop "notes" raw),
        optional z_datetime (prop "invitedAt" raw),
        optional z_datetime (prop "respondedAt" raw)
  with
  | Some id, Some eventId, Some name, Some email, Some phone,
    Some rsvpStatus, Some notes, Some invitedAt, Some respondedAt =>
      Some {| UpsertEventGuestInput.id := id;
              UpsertEventGuestInput.eventId := eventId;
              UpsertEventGuestInput.name := name;
              UpsertEventGuestInput.email := email;
              UpsertEventGuestInput.phone := phone;
              UpsertEventGuestInput.rsvpStatus := rsvpStatus;
              UpsertEventGuestInput.notes := notes;
              UpsertEventGuestInput.invitedAt := invitedAt;
              UpsertEventGuestInput.respondedAt := respondedAt |}
  | _, _, _, _, _, _, _, _, _ => None
  end.

Definition upsertEventGuest_updates (input : UpsertEventGuestInput.t)
  : EventGuests.partial := {|
  EventGuests.p_name := Some (UpsertEventGuestInput.name input);
  EventGuests.p_email := keyed (UpsertEventGuestInput.email input);
  EventGuests.p_phone := keyed (UpsertEventGuestInput.phone input);
  EventGuests.p_rsvpStatus := keyed (UpsertEventGuestInput.rsvpStatus input);
  EventGuests.p_notes := keyed (UpsertEventGuestInput.notes input);
  EventGuests.p_invitedAt :=
    keyed (parseOptionalDate (UpsertEventGuestInput.invitedAt input));
  EventGuests.p_respondedAt :=
    keyed (parseOptionalDate (UpsertEventGuestInput.respondedAt input))
|}.

(** The object literal [guest] of the create branch. *)
Definition upsertEventGuest_guest (now : Date) (uuid : string) (event : Events.row)
  (input : UpsertEventGuestInput.t) : EventGuests.row := {|
  EventGuests.id := uuid;
  EventGuests.eventId := Events.id event;
  EventGuests.name := UpsertEventGuestInput.name input;
  EventGuests.email := UpsertEventGuestInput.email input;
  EventGuests.phone := UpsertEventGuestInput.phone input;
  EventGuests.rsvpStatus := UpsertEventGuestInput.rsvpStatus input;
  EventGuests.notes := UpsertEventGuestInput.notes input;
  EventGuests.invitedAt := parseOptionalDate (UpsertEventGuestInput.invitedAt input);
  EventGuests.respondedAt := parseOptionalDate (UpsertEventGuestInput.respondedAt input);
  EventGuests.createdAt := now
|}.

Definition upsertEventGuest_handler (rt : Runtime) (input : UpsertEventGuestInput.t)
  (context : ActionAPIContext) : Handler EventGuests.row :=
  user <- requireUser context ;;
  event <- getEventForUser (User.id user) (UpsertEventGuestInput.eventId input) ;;
  let now := now rt in
  match given (UpsertEventGuestInput.id input) with
  | Some id =>
      found <- db_select EventGuestsT (fun r => EventGuests.id r =? id) ;;
      match first found with
      | None => throw NOT_FOUND
      | Some existing =>
          if negb (EventGuests.eventId existing =? Events.id event)
          then throw FORBIDDEN
          else
            let updates := upsertEventGuest_updates input in
            db_update EventGuestsT (EventGuests_set updates)
              (fun r => EventGuests.id r =? id) ;;;
            ret (EventGuests_spread existing updates)
      end
  | None =>
      let guest := upsertEventGuest_guest now (randomUUID rt) event input in
      db_insert EventGuestsT guest ;;;
      ret guest
  end.

Definition upsertEventGuest (rt : Runtime) :=
  defineAction upsertEventGuest_input (upsertEventGuest_handler rt).

Definition deleteEventGuest_handler (input : IdInput.t) (context : ActionAPIContext)
  : Handler unit :=
  user <- requireUser context ;;
  found <- db_select EventGuestsT (fun r => EventGuests.id r =? IdInput.id input) ;;
  match first found with
  | None => throw NOT_FOUND
  | Some existing =>
      getEventForUser (User.id user) (EventGuests.eventId existing) ;;;
      db_delete EventGuestsT (fun r => EventGuests.id r =? IdInput.id input) ;;;
      ret tt
  end.

Definition deleteEventGuest := defineAction id_input deleteEventGuest_handler.

(** *** Looking rows up *)

Definition findEvent (s : Store) (id : string) : option Events.row :=
  first (filter (fun r => Events.id r =? id) (events s)).

Definition findTask (s : Store) (id : string) : option EventTasks.row :=
  first (filter (fun r => EventTasks.id r =? id) (tasks s)).

Definition findGuest (s : Store) (id : string) : option EventGuests.row :=
  first (filter (fun r => EventGuests.id r =? id) (guests s)).

(** The id of the user a request is made by, if it is made by one. *)
Definition actor (context : ActionAPIContext) : option string :=
  match locals context with
  | Some l => option_map User.id (user l)
  | None => None
  end.

(** The store after the three deletes of [deleteEvent]. *)
Definition without_event (eventId : string) (s : Store) : Store := {|
  events := filter (fun r => negb (Events.id r =? eventId)) (events s);
  tasks := filter (fun r => negb (EventTasks.eventId r =? eventId)) (tasks s);
  guests := filter (fun r => negb (EventGuests.eventId r =? eventId)) (guests s)
|}.

(** Whether a task or a guest of the store points to the event. *)
Definition has_children (s : Store) (eventId : string) : bool :=
  existsb (fun t => EventTasks.eventId t =? eventId) (tasks s)
  || existsb (fun g => EventGuests.eventId g =? eventId) (guests s).

(** A key that does not hold [undefined]. *)
Definition no_undef {A} (u : Slot A) : Prop := u <> Undef.

(** ** The exported [server] object

    The nine actions are the properties of one exported object; a call
    names one of them and carries its input.  What a caller learns of a
    call that throws is the error code, and of one that returns, that it
    returned. *)
Inductive Call : Type :=
| CreateEvent (raw : RawInput)
| UpdateEvent (raw : RawInput)
| DeleteEvent (raw : RawInput)
| ListMyEvents (raw : option RawInput)
| GetEventWithDetails (raw : RawInput)
| UpsertEventTask (raw : RawInput)
| DeleteEventTask (raw : RawInput)
| UpsertEventGuest (raw : RawInput)
| DeleteEventGuest (raw : RawInput).

Definition outcome {A} (r : Result A * Store) : option ErrorCode * Store :=
  (match fst r with
   | Ok _ => None
   | Throw e => Some e
   end, snd r).

Definition server (rt : Runtime) (call : Call) (context : ActionAPIContext)
  (s : Store) : option ErrorCode * Store :=
  match call with
  | CreateEvent raw => outcome (createEvent rt raw context s)
  | UpdateEvent raw => outcome (updateEvent rt raw context s)
  | DeleteEvent raw => outcome (deleteEvent raw context s)
  | ListMyEvents raw => outcome (listMyEvents raw context s)
  | GetEventWithDetails raw => outcome (getEventWithDetails raw context s)
  | UpsertEventTask raw => outcome (upsertEventTask rt raw context s)
  | DeleteEventTask raw => outcome (deleteEventTask raw context s)
  | UpsertEventGuest raw => outcome (upsertEventGuest rt raw context s)
  | DeleteEventGuest raw => outcome (deleteEventGuest raw context s)
  end.

(** Whether the input of a call passes the schema of its action. *)
Definition parses (call : Call) : bool :=
  match call with
  | CreateEvent raw => defined (createEvent_input raw)
  | UpdateEvent raw => defined (updateEvent_input raw)
  | DeleteEvent raw => defined (id_input raw)
  | ListMyEvents raw => defined (listMyEvents_input raw)
  | GetEventWithDetails raw => defined (id_input raw)
  | UpsertEventTask raw => defined (upsertEventTask_input raw)
  | DeleteEventTask raw => defined (id_input raw)
  | UpsertEventGuest raw => defined (upsertEventGuest_input raw)
  | DeleteEventGuest raw => defined (id_input raw)
  end.

(** What a [listMyEvents] input asks for ([input?.status]), and the
    events that then make the list: those of the user, with that status
    when one is asked for. *)
Definition wanted_status (raw : option RawInput) : option string :=
  match raw with
  | Some o => prop "status" o
  | None => None
  end.

Definition selected (uid : string) (wanted : option string) (e : Events.row) : bool :=
  (Events.ownerUserId e =? uid) &&
  match wanted with
  | None => true
  | Some st =>
      match Events.status e with
      | Some x => x =? st
      | None => false
      end
  end.

(** A request: a call, the context it is made in, and what the runtime
    hands to its handler.  Requests are served one after the other. *)
Record Request : Type := {
  rq_runtime : Runtime;
  rq_context : ActionAPIContext;
  rq_call : Call
}.

Fixpoint serve (requests : list Request) (s : Store) : Store :=
  match requests with
  | [] => s
  | r :: rest =>
      serve rest (snd (server (rq_runtime r) (rq_call r) (rq_context r) s))
  end.

(** ** Properties of a store *)

(** No two rows of a table share their primary key. *)
Definition keys_unique (s : Store) : Prop :=
  NoDup (map Events.id (events s)) /\
  NoDup (map EventTasks.id (tasks s)) /\
  NoDup (map EventGuests.id (guests s)).

(** Every task and every guest points to an event of the store. *)
Definition no_orphans (s : Store) : Prop :=
  (forall t, In t (tasks s) ->
     exists e, In e (events s) /\ Events.id e = EventTasks.eventId t) /\
  (forall g, In g (guests s) ->
     exists e, In e (events s) /\ Events.id e = EventGuests.eventId g).

(** Whether the event with this id is there and belongs to [uid]. *)
Definition owned_by (s : Store) (uid eventId : string) : bool :=
  match findEvent s eventId with
  | Some e => Events.ownerUserId e =? uid
  | None => false
  end.

(** The columns that no statement of the handlers sets. *)
Definition Events_keeps (f : Events.row -> Events.row) : Prop :=
  forall r,
    Events.id (f r) = Events.id r /\
    Events.ownerUserId (f r) = Events.ownerUserId r /\
    Events.createdAt (f r) = Events.createdAt r.

Definition EventTasks_keeps (f : EventTasks.row -> EventTasks.row) : Prop :=
  forall r,
    EventTasks.id (f r) = EventTasks.id r /\
    EventTasks.eventId (f r) = EventTasks.eventId r /\
    EventTasks.createdAt (f r) = EventTasks.createdAt r.

Definition EventGuests_keeps (f : EventGuests.row -> EventGuests.row) : Prop :=
  forall r,
    EventGuests.id (f r) = EventGuests.id r /\
    EventGuests.eventId (f r) = EventGuests.eventId r /\
    EventGuests.createdAt (f r) = EventGuests.createdAt r.

(** What the schemas let into a row: a non-empty title or name, and in
    the enumerated columns a value of the enumeration (or none, where the
    schema makes the property optional). *)
Definition enumerated (values : list string) (v : option string) : Prop :=
  forall x, v = Some x -> In x values.

Definition Events_valid (e : Events.row) : Prop :=
  Events.title e <> "" /\
  exists st, Events.status e = Some st /\ In st EVENT_STATUSES.

Definition EventTasks_valid (t : EventTasks.row) : Prop :=
  EventTasks.title t <> "" /\
  (exists st, EventTasks.status t = Some st /\ In st TASK_STATUSES) /\
  enumerated TASK_PRIORITIES (EventTasks.priority t).

Definition EventGuests_valid (g : EventGuests.row) : Prop :=
  EventGuests.name g <> "" /\
  enumerated RSVP_STATUSES (EventGuests.rsvpStatus g).

Definition rows_valid (s : Store) : Prop :=
  Forall Events_valid (events s) /\
  Forall EventTasks_valid (tasks s) /\
  Forall EventGuests_valid (guests s).

(** The writes the handlers perform, each with what the handler has
    checked before it and what the schema has made sure of:
    [Write uid rt s s'] when [s'] is [s] after one write made for the
    user [uid] with the runtime [rt]. *)
Inductive Write (uid : string) (rt : Runtime) (s : Store) : Store -> Prop :=
| W_insert_event e :
    Events.id e = randomUUID rt ->
    Events.ownerUserId e = uid ->
    findEvent s (Events.id e) = None ->
    Events_valid e ->
    Write uid rt s (with_rows EventsT (events s ++ [e]) s)
| W_update_event x existing f :
    findEvent s x = Some existing ->
    Events.ownerUserId existing = uid ->
    Events_keeps f ->
    (forall r, Events_valid r -> Events_valid (f r)) ->
    Write uid rt s
      (with_rows EventsT
         (map (fun r => if Events.id r =? x then f r else r) (events s)) s)
| W_delete_event x existing :
    findEvent s x = Some existing ->
    Events.ownerUserId existing = uid ->
    Write uid rt s (without_event x s)
| W_insert_task t e :
    EventTasks.id t = randomUUID rt ->
    findEvent s (EventTasks.eventId t) = Some e ->
    Events.ownerUserId e = uid ->
    findTask s (EventTasks.id t) = None ->
    EventTasks_valid t ->
    Write uid rt s (with_rows EventTasksT (tasks s ++ [t]) s)
| W_update_task x existing e f :
    findTask s x = Some existing ->
    findEvent s (EventTasks.eventId existing) = Some e ->
    Events.ownerUserId e = uid ->
    EventTasks_keeps f ->
    (forall r, EventTasks_valid r -> EventTasks_valid (f r)) ->
    Write uid rt s
      (with_rows EventTasksT
         (map (fun r => if EventTasks.id r =? x then f r else r) (tasks s)) s)
| W_delete_task x existing e :
    findTask s x = Some existing ->
    findEvent s (EventTasks.eventId existing) = Some e ->
    Events.ownerUserId e = uid ->
    Write uid rt s
      (with_rows EventTasksT
         (filter (fun r => negb (EventTasks.id r =? x)) (tasks s)) s)
| W_insert_guest g e :
    EventGuests.id g = randomUUID rt ->
    findEvent s (EventGuests.eventId g) = Some e ->
    Events.ownerUserId e = uid ->
    findGuest s (EventGuests.id g) = None ->
    EventGuests_valid g ->
    Write uid rt s (with_rows EventGuestsT (guests s ++ [g]) s)
| W_update_guest x existing e f :
    findGuest s x = Some existing ->
    findEvent s (EventGuests.eventId existing) = Some e ->
    Events.ownerUserId e = uid ->
    EventGuests_keeps f ->
    (forall r, EventGuests_valid r -> EventGuests_valid (f r)) ->
    Write uid rt s
      (with_rows EventGuestsT
         (map (fun r => if EventGuests.id r =? x then f r else r) (guests s)) s)
| W_delete_guest x existing e :
    findGuest s x = Some existing ->
    findEvent s (EventGuests.eventId existing) = Some e ->
    Events.ownerUserId e = uid ->
    Write uid rt s
      (with_rows EventGuestsT
         (filter (fun r => negb (EventGuests.id r =? x)) (guests s)) s).

(** What a handler leaves behind: the store it found, or, after a
    return, one write made for the signed-in user. *)
Definition left_or_written {A} (rt : Runtime) (context : ActionAPIContext)
  (s : Store) (r : Result A * Store) : Prop :=
  snd r = s \/
  ((exists a, fst r = Ok a) /\
   exists uid, actor context = Some uid /\ Write uid rt s (snd r)).

(** ** A small store to run the actions on

    Two events of alice, one task and one guest of the first; a clock
    that yields a given time and id; and stand-ins for the format checks
    and the date parser, used only where the actions are run on this
    store. *)

Definition party : Events.row := {|
  Events.id := "e1";
  Events.ownerUserId := "alice";
  Events.title := "Birthday Party";
  Events.description := Some "At home";
  Events.startDateTime := Some 1000%Z;
  Events.endDateTime := None;
  Events.timeZone := Some "Europe/Paris";
  Events.locationName := None;
  Events.locationAddress := None;
  Events.locationMapLink := None;
  Events.status := Some "planning";
  Events.createdAt := 100%Z;
  Events.updatedAt := 100%Z
|}.

Definition launch : Events.row := {|
  Events.id := "e2";
  Events.ownerUserId := "alice";
  Events.title := "Product Launch";
  Events.description := None;
  Events.startDateTime := None;
  Events.endDateTime := None;
  Events.timeZone := None;
  Events.locationName := None;
  Events.locationAddress := None;
  Events.locationMapLink := None;
  Events.status := Some "confirmed";
  Events.createdAt := 110%Z;
  Events.updatedAt := 110%Z
|}.

Definition cake : EventTasks.row := {|
  EventTasks.id := "t1";
  EventTasks.eventId := "e1";
  EventTasks.userId := Some "alice";
  EventTasks.title := "Order the cake";
  EventTasks.description := Some "Chocolate";
  EventTasks.dueDate := Some 900%Z;
  EventTasks.status := Some "done";
  EventTasks.priority := Some "high";
  EventTasks.createdAt := 120%Z;
  EventTasks.updatedAt := 130%Z
|}.

Definition ana : EventGuests.row := {|
  EventGuests.id := "g1";
  EventGuests.eventId := "e1";
  EventGuests.name := "Ana";
  EventGuests.email := Some "ana@example.org";
  EventGuests.phone := None;
  EventGuests.rsvpStatus := Some "invited";
  EventGuests.notes := Some "Vegetarian";
  EventGuests.invitedAt := None;
  EventGuests.respondedAt := None;
  EventGuests.createdAt := 140%Z
|}.

Definition sample : Store := {|
  events := [party; launch];
  tasks := [cake];
  guests := [ana]
|}.

(** Ana as a guest of the launch, invited at time 900 under the id
    "g2", and the store that holds her. *)
Definition ana_invited : EventGuests.row := {|
  EventGuests.id := "g2";
  EventGuests.eventId := "e2";
  EventGuests.name := "Ana";
  EventGuests.email := None;
  EventGuests.phone := None;
  EventGuests.rsvpStatus := Some "invited";
  EventGuests.notes := None;
  EventGuests.invitedAt := None;
  EventGuests.respondedAt := None;
  EventGuests.createdAt := 900%Z
|}.

Definition sample_invited : Store := {|
  events := [party; launch];
  tasks := [cake];
  guests := [ana; ana_invited]
|}.

Definition alice : ActionAPIContext := signedIn "alice".
Definition bob : ActionAPIContext := signedIn "bob".

Definition clock (t : Date) (uuid : string) : Runtime :=
  {| now := t; randomUUID := uuid |}.

(** Stand-ins: a datetime is a string of twenty characters or more, a
    URL or an e-mail address any non-empty string, and the time value of
    a date string is its length. *)
Definition sample_is_datetime (v : string) : bool := Nat.leb 20 (String.length v).
Definition sample_is_url (v : string) : bool := truthy v.
Definition sample_is_email (v : string) : bool := truthy v.
Definition sample_Date_parse (v : string) : Date := Z.of_nat (String.length v).

(** Three requests: alice plans a picnic, bob tries to delete her party,
    alice adds a task to the party. *)
Definition sample_requests : list Request := [
  {| rq_runtime := clock 20%Z "e3";
     rq_context := alice;
     rq_call := CreateEvent [("title", "Picnic")] |};
  {| rq_runtime := clock 21%Z "u2";
     rq_context := bob;
     rq_call := DeleteEvent [("id", "e1")] |};
  {| rq_runtime := clock 22%Z "t2";
     rq_context := alice;
     rq_call := UpsertEventTask [("eventId", "e1"); ("title", "Send invitations")] |}
].

(** ** Running the helpers *)

Lemma bind_run A B (m : Handler A) (k : A -> Handler B) s :
  bind m k s =
  match m s with
  | (Ok a, s') => k a s'
  | (Throw e, s') => (Throw e, s')
  end.
Proof. reflexivity. Qed.

Lemma requireUser_actor context uid s :
  actor context = Some uid ->
  requireUser context s = (Ok {| User.id := uid |}, s).
Proof.
  unfold actor, requireUser.
  destruct (locals context) as [l|]; [|discriminate].
  destruct (user l) as [[i]|]; [|discriminate].
  simpl. intros H. injection H as ->. reflexivity.
Qed.

Lemma requireUser_anonymous context s :
  actor context = None ->
  requireUser context s = (Throw UNAUTHORIZED, s).
Proof.
  unfold actor, requireUser.
  destruct (locals context) as [l|]; [|reflexivity].
  destruct (user l) as [u|]; [discriminate|reflexivity].
Qed.

Lemma getEventForUser_run userId eventId s :
  getEventForUser userId eventId s =
  match findEvent s eventId with
  | None => (Throw NOT_FOUND, s)
  | Some event =>
      if Events.ownerUserId event =? userId
      then (Ok event, s)
      else (Throw FORBIDDEN, s)
  end.
Proof.
  unfold getEventForUser, findEvent, bind, db_select. simpl.
  destruct (first _) as [e|]; [|reflexivity].
  destruct (Events.ownerUserId e =? userId); reflexivity.
Qed.

Lemma getEventForUser_forbidden userId eventId s event :
  findEvent s eventId = Some event ->
  Events.ownerUserId event <> userId ->
  getEventForUser userId eventId s = (Throw FORBIDDEN, s).
Proof.
  intros Hf Hne. rewrite getEventForUser_run, Hf.
  apply String.eqb_neq in Hne. rewrite Hne. reflexivity.
Qed.

Lemma getEventForUser_owner userId eventId s event :
  findEvent s eventId = Some event ->
  Events.ownerUserId event = userId ->
  getEventForUser userId eventId s = (Ok event, s).
Proof.
  intros Hf He. rewrite getEventForUser_run, Hf.
  apply String.eqb_eq in He. rewrite He. reflexivity.
Qed.

(** [getEventForUser] never writes. *)
Lemma getEventForUser_reads userId eventId s :
  snd (getEventForUser userId eventId s) = s.
Proof.
  rewrite getEventForUser_run.
  destruct (findEvent s eventId) as [e|]; [|reflexivity].
  destruct (Events.ownerUserId e =? userId); reflexivity.
Qed.

Lemma first_filter_found A (p : A -> bool) l x :
  first (filter p l) = Some x -> p x = true /\ In x l.
Proof.
  unfold first. intros H.
  assert (Hin : In x (filter p l)).
  { destruct (filter p l); [discriminate|]. injection H as ->. now left. }
  apply filter_In in Hin. destruct Hin as [Hl Hp]. split; assumption.
Qed.

Lemma first_filter_none A (p : A -> bool) l :
  first (filter p l) = None -> forall x, In x l -> p x = false.
Proof.
  unfold first. intros H x Hx.
  destruct (p x) eqn:Hp; [|reflexivity].
  assert (Hin : In x (filter p l)) by (apply filter_In; split; assumption).
  destruct (filter p l); [contradiction|discriminate].
Qed.

Lemma findEvent_id s eventId event :
  findEvent s eventId = Some event -> Events.id event = eventId.
Proof.
  intros H. apply first_filter_found in H. destruct H as [H _].
  apply String.eqb_eq. exact H.
Qed.

Lemma findTask_id s id t :
  findTask s id = Some t -> EventTasks.id t = id.
Proof.
  intros H. apply first_filter_found in H. destruct H as [H _].
  apply String.eqb_eq. exact H.
Qed.

Lemma findGuest_id s id g :
  findGuest s id = Some g -> EventGuests.id g = id.
Proof.
  intros H. apply first_filter_found in H. destruct H as [H _].
  apply String.eqb_eq. exact H.
Qed.

(** What a schema lets through is the property it read. *)
Lemma z_string_where_some check v s :
  z_string_where check v = Some s -> v = Some s /\ check s = true.
Proof.
  unfold z_string_where. destruct v as [x|]; [|discriminate].
  destruct (check x) eqn:Hc; [|discriminate].
  intros H. injection H as <-. auto.
Qed.

Lemma optional_some check v o :
  optional (z_string_where check) v = Some o -> o = v.
Proof.
  unfold optional. destruct v as [x|].
  - destruct (z_string_where check (Some x)) as [y|] eqn:Hz; [|discriminate].
    apply z_string_where_some in Hz. destruct Hz as [Hz _].
    simpl. intros H. injection H as <-. congruence.
  - intros H. injection H as <-. reflexivity.
Qed.

Lemma default_some check d v s :
  default (z_string_where check) d v = Some s ->
  s = match v with Some x => x | None => d end.
Proof.
  unfold default. destruct v as [x|].
  - intros H. apply z_string_where_some in H. destruct H as [H _]. congruence.
  - intros H. injection H as <-. reflexivity.
Qed.

Lemma id_input_prop raw id :
  prop "id" raw = Some id -> id_input raw = Some {| IdInput.id := id |}.
Proof. unfold id_input. intros ->. reflexivity. Qed.

(** ** Running the delete handlers of the child tables *)

Lemma deleteEventTask_handler_run uid id context s :
  actor context = Some uid ->
  deleteEventTask_handler {| IdInput.id := id |} context s =
  match findTask s id with
  | None => (Throw NOT_FOUND, s)
  | Some existing =>
      match getEventForUser uid (EventTasks.eventId existing) s with
      | (Ok _, s1) =>
          (Ok tt,
           with_rows EventTasksT
             (filter (fun r => negb (EventTasks.id r =? id)) (tasks s1)) s1)
      | (Throw e, s1) => (Throw e, s1)
      end
  end.
Proof.
  intros Ha. unfold deleteEventTask_handler.
  rewrite bind_run, (requireUser_actor _ _ _ Ha).
  unfold findTask. cbn -[getEventForUser filter String.eqb].
  destruct (first _) as [existing|]; [|reflexivity].
  rewrite bind_run.
  destruct (getEventForUser uid (EventTasks.eventId existing) s) as [[ev|e] s1];
    reflexivity.
Qed.

Lemma deleteEventGuest_handler_run uid id context s :
  actor context = Some uid ->
  deleteEventGuest_handler {| IdInput.id := id |} context s =
  match findGuest s id with
  | None => (Throw NOT_FOUND, s)
  | Some existing =>
      match getEventForUser uid (EventGuests.eventId existing) s with
      | (Ok _, s1) =>
          (Ok tt,
           with_rows EventGuestsT
             (filter (fun r => negb (EventGuests.id r =? id)) (guests s1)) s1)
      | (Throw e, s1) => (Throw e, s1)
      end
  end.
Proof.
  intros Ha. unfold deleteEventGuest_handler.
  rewrite bind_run, (requireUser_actor _ _ _ Ha).
  unfold findGuest. cbn -[getEventForUser filter String.eqb].
  destruct (first _) as [existing|]; [|reflexivity].
  rewrite bind_run.
  destruct (getEventForUser uid (EventGuests.eventId existing) s) as [[ev|e] s1];
    reflexivity.
Qed.

(** ** Ownership (C1) *)

Section Forbidden.
Variables (context : ActionAPIContext) (uid eventId : string).
Variables (s : Store) (event : Events.row).
Hypothesis Hactor : actor context = Some uid.
Hypothesis Hevent : findEvent s eventId = Some event.
Hypothesis Hother : Events.ownerUserId event <> uid.

Lemma updateEvent_forbidden rt raw input :
  updateEvent_input raw = Some input ->
  UpdateEventInput.id input = eventId ->
  updateEvent rt raw context s = (Throw FORBIDDEN, s).
Proof.
  intros Hin Hid. unfold updateEvent, defineAction. rewrite Hin.
  unfold updateEvent_handler. rewrite bind_run, (requireUser_actor _ _ _ Hactor).
  rewrite bind_run. simpl User.id. rewrite Hid.
  rewrite (getEventForUser_forbidden _ _ _ _ Hevent Hother). reflexivity.
Qed.

Lemma deleteEvent_forbidden raw :
  prop "id" raw = Some eventId ->
  deleteEvent raw context s = (Throw FORBIDDEN, s).
Proof.
  intros Hid. unfold deleteEvent, defineAction. rewrite (id_input_prop _ _ Hid).
  unfold deleteEvent_handler. rewrite bind_run, (requireUser_actor _ _ _ Hactor).
  rewrite bind_run. simpl.
  rewrite (getEventForUser_forbidden _ _ _ _ Hevent Hother). reflexivity.
Qed.

Lemma getEventWithDetails_forbidden raw :
  prop "id" raw = Some eventId ->
  getEventWithDetails raw context s = (Throw FORBIDDEN, s).
Proof.
  intros Hid. unfold getEventWithDetails, defineAction. rewrite (id_input_prop _ _ Hid).
  unfold getEventWithDetails_handler. rewrite bind_run, (requireUser_actor _ _ _ Hactor).
  rewrite bind_run. simpl.
  rewrite (getEventForUser_forbidden _ _ _ _ Hevent Hother). reflexivity.
Qed.

Lemma upsertEventTask_forbidden rt raw input :
  upsertEventTask_input raw = Some input ->
  UpsertEventTaskInput.eventId input = eventId ->
  upsertEventTask rt raw context s = (Throw FORBIDDEN, s).
Proof.
  intros Hin Hid. unfold upsertEventTask, defineAction. rewrite Hin.
  unfold upsertEventTask_handler. rewrite bind_run, (requireUser_actor _ _ _ Hactor).
  rewrite bind_run. simpl User.id. rewrite Hid.
  rewrite (getEventForUser_forbidden _ _ _ _ Hevent Hother). reflexivity.
Qed.

Lemma upsertEventGuest_forbidden rt raw input :
  upsertEventGuest_input raw = Some input ->
  UpsertEventGuestInput.eventId input = eventId ->
  upsertEventGuest rt raw context s = (Throw FORBIDDEN, s).
Proof.
  intros Hin Hid. unfold upsertEventGuest, defineAction. rewrite Hin.
  unfold upsertEventGuest_handler. rewrite bind_run, (requireUser_actor _ _ _ Hactor).
  rewrite bind_run. simpl User.id. rewrite Hid.
  rewrite (getEventForUser_forbidden _ _ _ _ Hevent Hother). reflexivity.
Qed.

Lemma deleteEventTask_forbidden raw id t :
  prop "id" raw = Some id ->
  findTask s id = Some t ->
  EventTasks.eventId t = eventId ->
  deleteEventTask raw context s = (Throw FORBIDDEN, s).
Proof.
  intros Hid Ht He. unfold deleteEventTask, defineAction. rewrite (id_input_prop _ _ Hid).
  rewrite (deleteEventTask_handler_run _ _ _ _ Hactor), Ht, He.
  rewrite (getEventForUser_forbidden _ _ _ _ Hevent Hother). reflexivity.
Qed.

Lemma deleteEventGuest_forbidden raw id g :
  prop "id" raw = Some id ->
  findGuest s id = Some g ->
  EventGuests.eventId g = eventId ->
  deleteEventGuest raw context s = (Throw FORBIDDEN, s).
Proof.
  intros Hid Hg He. unfold deleteEventGuest, defineAction. rewrite (id_input_prop _ _ Hid).
  rewrite (deleteEventGuest_handler_run _ _ _ _ Hactor), Hg, He.
  rewrite (getEventForUser_forbidden _ _ _ _ Hevent Hother). reflexivity.
Qed.

End Forbidden.

(** C1. An actor who is not the owner of the event an operation refers
    to gets FORBIDDEN from every one of the seven operations that refer to
    an event, and the store is left as it was.  The event referred to is
    the one named by the input ([id] or [eventId]) and, for the two child
    deletes, the one the stored child row points to.  The input is one
    that passes the operation's schema and the request is made by a
    signed-in user. *)
Theorem only_the_owner_may_access context uid eventId s event :
  actor context = Some uid ->
  findEvent s eventId = Some event ->
  Events.ownerUserId event <> uid ->
  (forall rt raw input,
      updateEvent_input raw = Some input ->
      UpdateEventInput.id input = eventId ->
      updateEvent rt raw context s = (Throw FORBIDDEN, s)) /\
  (forall raw,
      prop "id" raw = Some eventId ->
      deleteEvent raw context s = (Throw FORBIDDEN, s)) /\
  (forall raw,
      prop "id" raw = Some eventId ->
      getEventWithDetails raw context s = (Throw FORBIDDEN, s)) /\
  (forall rt raw input,
      upsertEventTask_input raw = Some input ->
      UpsertEventTaskInput.eventId input = eventId ->
      upsertEventTask rt raw context s = (Throw FORBIDDEN, s)) /\
  (forall raw id t,
      prop "id" raw = Some id ->
      findTask s id = Some t ->
      EventTasks.eventId t = eventId ->
      deleteEventTask raw context s = (Throw FORBIDDEN, s)) /\
  (forall rt raw input,
      upsertEventGuest_input raw = Some input ->
      UpsertEventGuestInput.eventId input = eventId ->
      upsertEventGuest rt raw context s = (Throw FORBIDDEN, s)) /\
  (forall raw id g,
      prop "id" raw = Some id ->
      findGuest s id = Some g ->
      EventGuests.eventId g = eventId ->
      deleteEventGuest raw context s = (Throw FORBIDDEN, s)).
Proof.
  intros Ha He Ho. repeat split; intros.
  - eapply updateEvent_forbidden; eauto.
  - eapply deleteEvent_forbidden; eauto.
  - eapply getEventWithDetails_forbidden; eauto.
  - eapply upsertEventTask_forbidden; eauto.
  - eapply deleteEventTask_forbidden; eauto.
  - eapply upsertEventGuest_forbidden; eauto.
  - eapply deleteEventGuest_forbidden; eauto.
Qed.

(** ** Deleting an event (C2) *)

Lemma filter_out_in {A} (p : A -> bool) l :
  filter p (filter (fun r => negb (p r)) l) = [].
Proof.
  induction l as [|x l IH]; [reflexivity|].
  simpl. destruct (p x) eqn:Hp; simpl; [exact IH|].
  rewrite Hp. exact IH.
Qed.

Lemma existsb_guarded {A} (p q : A -> bool) (c : bool) l :
  (forall r, p r = true -> q r = c) ->
  existsb (fun r => p r && q r) l = existsb p l && c.
Proof.
  intros H. induction l as [|x l IH]; [reflexivity|].
  simpl. rewrite IH. destruct (p x) eqn:Hp; simpl.
  - rewrite (H x Hp). destruct c; simpl; [reflexivity|].
    now rewrite andb_false_r.
  - reflexivity.
Qed.

Lemma first_filter_some_existsb {A} (p : A -> bool) l x :
  first (filter p l) = Some x -> existsb p l = true.
Proof.
  induction l as [|y l IH]; [discriminate|].
  simpl. destruct (p y); [reflexivity|]. exact IH.
Qed.

(** The delete of an event that is there is refused exactly when the
    event has a task or a guest. *)
Lemma still_referenced_event s id event :
  findEvent s id = Some event ->
  still_referenced EventsT (fun r => Events.id r =? id) s = has_children s id.
Proof.
  intros Hf. unfold still_referenced, has_children. simpl.
  rewrite (existsb_guarded (fun r => Events.id r =? id) _ (has_children s id)).
  - unfold findEvent in Hf. rewrite (first_filter_some_existsb _ _ _ Hf). reflexivity.
  - intros r Hr. apply String.eqb_eq in Hr. rewrite Hr. reflexivity.
Qed.

Lemma filter_nothing {A} (p : A -> bool) l :
  existsb p l = false -> filter (fun r => negb (p r)) l = l.
Proof.
  induction l as [|x l IH]; [reflexivity|].
  simpl. destruct (p x); [discriminate|]. simpl. intros H. now rewrite IH.
Qed.

Lemma deleteEvent_handler_owner uid id context s event :
  actor context = Some uid ->
  findEvent s id = Some event ->
  Events.ownerUserId event = uid ->
  deleteEvent_handler {| IdInput.id := id |} context s =
  if has_children s id
  then (Throw INTERNAL_SERVER_ERROR, s)
  else (Ok tt, without_event id s).
Proof.
  intros Ha Hf Ho. unfold deleteEvent_handler.
  rewrite bind_run, (requireUser_actor _ _ _ Ha).
  rewrite bind_run. simpl User.id. simpl IdInput.id.
  rewrite (getEventForUser_owner _ _ _ _ Hf Ho).
  rewrite bind_run. unfold db_delete at 1.
  rewrite (still_referenced_event _ _ _ Hf).
  destruct (has_children s id); reflexivity.
Qed.

(** An event that has been found is there for the foreign key of a
    child that points to it. *)
Lemma parent_found s x event :
  findEvent s x = Some event ->
  existsb (fun e => Events.id e =? Events.id event) (events s) = true.
Proof.
  intros Hf. rewrite (findEvent_id _ _ _ Hf).
  apply (first_filter_some_existsb _ _ _ Hf).
Qed.

(** Whoever calls, [deleteEvent] returns only after an owner's delete
    of an event without children. *)
Lemma deleteEvent_returned raw context eventId s s' :
  prop "id" raw = Some eventId ->
  deleteEvent raw context s = (Ok tt, s') ->
  has_children s eventId = false /\ s' = without_event eventId s.
Proof.
  intros Hid. unfold deleteEvent, defineAction. rewrite (id_input_prop _ _ Hid).
  destruct (actor context) as [uid|] eqn:Ha.
  - destruct (findEvent s eventId) as [event|] eqn:Hf.
    + destruct (String.eqb_spec (Events.ownerUserId event) uid) as [Ho|Ho].
      * rewrite (deleteEvent_handler_owner _ _ _ _ _ Ha Hf Ho).
        destruct (has_children s eventId); [discriminate|].
        intros H. injection H as <-. split; reflexivity.
      * unfold deleteEvent_handler.
        rewrite bind_run, (requireUser_actor _ _ _ Ha).
        rewrite bind_run. simpl User.id. simpl IdInput.id.
        rewrite (getEventForUser_forbidden _ _ _ _ Hf Ho). discriminate.
    + unfold deleteEvent_handler.
      rewrite bind_run, (requireUser_actor _ _ _ Ha).
      rewrite bind_run. simpl User.id. simpl IdInput.id.
      rewrite getEventForUser_run, Hf. discriminate.
  - unfold deleteEvent_handler.
    rewrite bind_run, (requireUser_anonymous _ _ Ha). discriminate.
Qed.

(** What [deleteEvent] does for the owner.  The handler deletes the
    event row first and its tasks and guests after; the foreign keys
    refuse the first delete as long as a task or a guest points to the
    event.  So the owner's call on an event with children throws
    INTERNAL_SERVER_ERROR and deletes nothing; on an event without
    children it returns and removes the event row and nothing else; and
    whenever the call returns, no event row with the id and no task or
    guest row with that [eventId] is in the store. *)
Theorem deleteEvent_by_the_owner context uid eventId s event raw :
  actor context = Some uid ->
  prop "id" raw = Some eventId ->
  findEvent s eventId = Some event ->
  Events.ownerUserId event = uid ->
  (has_children s eventId = true ->
   deleteEvent raw context s = (Throw INTERNAL_SERVER_ERROR, s)) /\
  (has_children s eventId = false ->
   deleteEvent raw context s
   = (Ok tt,
      {| events := filter (fun r => negb (Events.id r =? eventId)) (events s);
         tasks := tasks s;
         guests := guests s |})) /\
  (forall s',
      deleteEvent raw context s = (Ok tt, s') ->
      findEvent s' eventId = None /\
      filter (fun r => EventTasks.eventId r =? eventId) (tasks s') = [] /\
      filter (fun r => EventGuests.eventId r =? eventId) (guests s') = []).
Proof.
  intros Ha Hid Hf Ho.
  assert (Hrun : deleteEvent raw context s
                 = if has_children s eventId
                   then (Throw INTERNAL_SERVER_ERROR, s)
                   else (Ok tt, without_event eventId s)).
  { unfold deleteEvent, defineAction. rewrite (id_input_prop _ _ Hid).
    apply (deleteEvent_handler_owner _ _ _ _ _ Ha Hf Ho). }
  split; [|split].
  - intros Hc. rewrite Hrun, Hc. reflexivity.
  - intros Hc. rewrite Hrun, Hc. unfold without_event.
    unfold has_children in Hc. apply orb_false_iff in Hc. destruct Hc as [Ht Hg].
    rewrite (filter_nothing (fun r => EventTasks.eventId r =? eventId) _ Ht).
    rewrite (filter_nothing (fun r => EventGuests.eventId r =? eventId) _ Hg).
    reflexivity.
  - intros s' Hs'. rewrite Hrun in Hs'.
    destruct (has_children s eventId); [discriminate|].
    injection Hs' as <-. unfold findEvent, without_event. simpl.
    rewrite (filter_out_in (fun r => Events.id r =? eventId)).
    rewrite (filter_out_in (fun r => EventTasks.eventId r =? eventId)).
    rewrite (filter_out_in (fun r => EventGuests.eventId r =? eventId)).
    repeat split; reflexivity.
Qed.

(** ** Empty updates (C5) *)

(** C5. An [updateEvent] input that carries none of the nine updatable
    fields is refused with the validation error whatever the request
    context and the store: the action is the computation that throws
    BAD_REQUEST, so it reads nothing and writes nothing. *)
Theorem updateEvent_empty_is_rejected rt raw context :
  prop "title" raw = None ->
  prop "description" raw = None ->
  prop "startDateTime" raw = None ->
  prop "endDateTime" raw = None ->
  prop "timeZone" raw = None ->
  prop "locationName" raw = None ->
  prop "locationAddress" raw = None ->
  prop "locationMapLink" raw = None ->
  prop "status" raw = None ->
  updateEvent rt raw context = throw BAD_REQUEST /\
  forall s, updateEvent rt raw context s = (Throw BAD_REQUEST, s).
Proof.
  intros H1 H2 H3 H4 H5 H6 H7 H8 H9.
  assert (Hin : updateEvent_input raw = None).
  { unfold updateEvent_input, updateEvent_object.
    rewrite H1, H2, H3, H4, H5, H6, H7, H8, H9. simpl.
    destruct (z_string (prop "id" raw)); reflexivity. }
  unfold updateEvent, defineAction. rewrite Hin. split; [reflexivity|].
  intros s. reflexivity.
Qed.

(** ** Deleting a child row (C6) *)

Lemma findTask_after_delete s id :
  findTask (with_rows EventTasksT
              (filter (fun r => negb (EventTasks.id r =? id)) (tasks s)) s) id = None.
Proof.
  unfold findTask. simpl.
  rewrite (filter_out_in (fun r => EventTasks.id r =? id)). reflexivity.
Qed.

Lemma findGuest_after_delete s id :
  findGuest (with_rows EventGuestsT
               (filter (fun r => negb (EventGuests.id r =? id)) (guests s)) s) id = None.
Proof.
  unfold findGuest. simpl.
  rewrite (filter_out_in (fun r => EventGuests.id r =? id)). reflexivity.
Qed.

Lemma deleteEventTask_run context uid raw id s :
  actor context = Some uid ->
  prop "id" raw = Some id ->
  deleteEventTask raw context s =
  match findTask s id with
  | None => (Throw NOT_FOUND, s)
  | Some existing =>
      match getEventForUser uid (EventTasks.eventId existing) s with
      | (Ok _, _) =>
          (Ok tt,
           with_rows EventTasksT
             (filter (fun r => negb (EventTasks.id r =? id)) (tasks s)) s)
      | (Throw e, _) => (Throw e, s)
      end
  end.
Proof.
  intros Ha Hid. unfold deleteEventTask, defineAction.
  rewrite (id_input_prop _ _ Hid), (deleteEventTask_handler_run _ _ _ _ Ha).
  destruct (findTask s id) as [t|]; [|reflexivity].
  pose proof (getEventForUser_reads uid (EventTasks.eventId t) s) as Hr.
  destruct (getEventForUser uid (EventTasks.eventId t) s) as [[ev|e] s1];
    simpl in Hr; subst s1; reflexivity.
Qed.

Lemma deleteEventGuest_run context uid raw id s :
  actor context = Some uid ->
  prop "id" raw = Some id ->
  deleteEventGuest raw context s =
  match findGuest s id with
  | None => (Throw NOT_FOUND, s)
  | Some existing =>
      match getEventForUser uid (EventGuests.eventId existing) s with
      | (Ok _, _) =>
          (Ok tt,
           with_rows EventGuestsT
             (filter (fun r => negb (EventGuests.id r =? id)) (guests s)) s)
      | (Throw e, _) => (Throw e, s)
      end
  end.
Proof.
  intros Ha Hid. unfold deleteEventGuest, defineAction.
  rewrite (id_input_prop _ _ Hid), (deleteEventGuest_handler_run _ _ _ _ Ha).
  destruct (findGuest s id) as [g|]; [|reflexivity].
  pose proof (getEventForUser_reads uid (EventGuests.eventId g) s) as Hr.
  destruct (getEventForUser uid (EventGuests.eventId g) s) as [[ev|e] s1];
    simpl in Hr; subst s1; reflexivity.
Qed.

Lemma deleteEventTask_success context uid raw id s s' :
  actor context = Some uid ->
  prop "id" raw = Some id ->
  deleteEventTask raw context s = (Ok tt, s') ->
  findTask s' id = None.
Proof.
  intros Ha Hid. rewrite (deleteEventTask_run _ _ _ _ _ Ha Hid).
  destruct (findTask s id) as [t|]; [|discriminate].
  destruct (getEventForUser uid (EventTasks.eventId t) s) as [[ev|e] s1];
    [|discriminate].
  intros H. injection H as <-. apply findTask_after_delete.
Qed.

Lemma deleteEventGuest_success context uid raw id s s' :
  actor context = Some uid ->
  prop "id" raw = Some id ->
  deleteEventGuest raw context s = (Ok tt, s') ->
  findGuest s' id = None.
Proof.
  intros Ha Hid. rewrite (deleteEventGuest_run _ _ _ _ _ Ha Hid).
  destruct (findGuest s id) as [g|]; [|discriminate].
  destruct (getEventForUser uid (EventGuests.eventId g) s) as [[ev|e] s1];
    [|discriminate].
  intros H. injection H as <-. apply findGuest_after_delete.
Qed.

(** C6. [deleteEventTask] on an id that no task has throws NOT_FOUND;
    on the id of a stored task it authorizes the actor against the event
    that the stored task points to, passes that check's error on with the
    store untouched, and removes the task only when the check succeeds.
    After a successful delete the same request throws NOT_FOUND, so a
    task is never deleted twice.  [deleteEventGuest] does the same on
    guests. *)
Theorem delete_child_contract context uid raw id s :
  actor context = Some uid ->
  prop "id" raw = Some id ->
  (findTask s id = None ->
   deleteEventTask raw context s = (Throw NOT_FOUND, s)) /\
  (forall t, findTask s id = Some t ->
   deleteEventTask raw context s =
   match getEventForUser uid (EventTasks.eventId t) s with
   | (Ok _, _) =>
       (Ok tt,
        {| events := events s;
           tasks := filter (fun r => negb (EventTasks.id r =? id)) (tasks s);
           guests := guests s |})
   | (Throw e, _) => (Throw e, s)
   end) /\
  (forall s', deleteEventTask raw context s = (Ok tt, s') ->
   deleteEventTask raw context s' = (Throw NOT_FOUND, s')) /\
  (findGuest s id = None ->
   deleteEventGuest raw context s = (Throw NOT_FOUND, s)) /\
  (forall g, findGuest s id = Some g ->
   deleteEventGuest raw context s =
   match getEventForUser uid (EventGuests.eventId g) s with
   | (Ok _, _) =>
       (Ok tt,
        {| events := events s;
           tasks := tasks s;
           guests := filter (fun r => negb (EventGuests.id r =? id)) (guests s) |})
   | (Throw e, _) => (Throw e, s)
   end) /\
  (forall s', deleteEventGuest raw context s = (Ok tt, s') ->
   deleteEventGuest raw context s' = (Throw NOT_FOUND, s')).
Proof.
  intros Ha Hid. repeat split.
  - intros Hn. rewrite (deleteEventTask_run _ _ _ _ _ Ha Hid), Hn. reflexivity.
  - intros t Ht. rewrite (deleteEventTask_run _ _ _ _ _ Ha Hid), Ht. reflexivity.
  - intros s' Hs'. rewrite (deleteEventTask_run _ _ _ _ _ Ha Hid).
    rewrite (deleteEventTask_success _ _ _ _ _ _ Ha Hid Hs'). reflexivity.
  - intros Hn. rewrite (deleteEventGuest_run _ _ _ _ _ Ha Hid), Hn. reflexivity.
  - intros g Hg. rewrite (deleteEventGuest_run _ _ _ _ _ Ha Hid), Hg. reflexivity.
  - intros s' Hs'. rewrite (deleteEventGuest_run _ _ _ _ _ Ha Hid).
    rewrite (deleteEventGuest_success _ _ _ _ _ _ Ha Hid Hs'). reflexivity.
Qed.

(** ** Creating and updating an event (C7, C8) *)

Lemma existsb_first_filter {A} (p : A -> bool) l :
  first (filter p l) = None -> existsb p l = false.
Proof.
  induction l as [|x l IH]; [reflexivity|].
  simpl. destruct (p x); [discriminate|]. exact IH.
Qed.

Lemma first_filter_app_new {A} (p : A -> bool) l x :
  first (filter p l) = None -> p x = true ->
  first (filter p (l ++ [x])) = Some x.
Proof.
  intros Hn Hp. rewrite filter_app. simpl. rewrite Hp.
  destruct (filter p l); [reflexivity|discriminate].
Qed.

Lemma first_filter_app_old {A} (p : A -> bool) l x :
  p x = false -> first (filter p (l ++ [x])) = first (filter p l).
Proof.
  intros Hp. rewrite filter_app. simpl. rewrite Hp. now rewrite app_nil_r.
Qed.

(** A string that passes [z.string().datetime()] is truthy, the empty
    string not being a datetime. *)
Lemma optional_datetime_date v o :
  is_datetime "" = false ->
  optional z_datetime v = Some o ->
  parseOptionalDate o = option_map Date_parse v.
Proof.
  intros He H. unfold optional in H. destruct v as [x|].
  - destruct (z_datetime (Some x)) as [y|] eqn:Hz; [|discriminate].
    apply z_string_where_some in Hz. destruct Hz as [Hx Hc].
    injection Hx as <-. simpl in H. injection H as <-.
    unfold parseOptionalDate, truthy. simpl.
    destruct (String.eqb_spec x "") as [->|_]; [congruence|reflexivity].
  - injection H as <-. reflexivity.
Qed.

Lemma createEvent_input_fields raw input :
  is_datetime "" = false ->
  createEvent_input raw = Some input ->
  prop "title" raw = Some (CreateEventInput.title input) /\
  CreateEventInput.description input = prop "description" raw /\
  parseOptionalDate (CreateEventInput.startDateTime input)
    = option_map Date_parse (prop "startDateTime" raw) /\
  parseOptionalDate (CreateEventInput.endDateTime input)
    = option_map Date_parse (prop "endDateTime" raw) /\
  CreateEventInput.timeZone input = prop "timeZone" raw /\
  CreateEventInput.locationName input = prop "locationName" raw /\
  CreateEventInput.locationAddress input = prop "locationAddress" raw /\
  CreateEventInput.locationMapLink input = prop "locationMapLink" raw /\
  CreateEventInput.status input
    = match prop "status" raw with Some st => st | None => "planning" end.
Proof.
  intros He. unfold createEvent_input.
  destruct (z_string_min1 _) as [a1|] eqn:E1; [|discriminate].
  destruct (optional z_string (prop "description" raw)) as [a2|] eqn:E2; [|discriminate].
  destruct (optional z_datetime (prop "startDateTime" raw)) as [a3|] eqn:E3; [|discriminate].
  destruct (optional z_datetime (prop "endDateTime" raw)) as [a4|] eqn:E4; [|discriminate].
  destruct (optional z_string (prop "timeZone" raw)) as [a5|] eqn:E5; [|discriminate].
  destruct (optional z_string (prop "locationName" raw)) as [a6|] eqn:E6; [|discriminate].
  destruct (optional z_string (prop "locationAddress" raw)) as [a7|] eqn:E7; [|discriminate].
  destruct (optional z_url (prop "locationMapLink" raw)) as [a8|] eqn:E8; [|discriminate].
  destruct (default _ _ _) as [a9|] eqn:E9; [|discriminate].
  intros H. injection H as <-. simpl.
  apply z_string_where_some in E1. destruct E1 as [E1 _].
  apply optional_some in E2, E5, E6, E7, E8.
  apply (optional_datetime_date _ _ He) in E3, E4.
  apply default_some in E9.
  repeat split; assumption.
Qed.

Lemma createEvent_handler_run rt input context uid s :
  actor context = Some uid ->
  findEvent s (randomUUID rt) = None ->
  createEvent_handler rt input context s =
  let event := createEvent_event (now rt) (randomUUID rt) {| User.id := uid |} input in
  (Ok event, with_rows EventsT (events s ++ [event]) s).
Proof.
  intros Ha Hf. unfold createEvent_handler.
  rewrite bind_run, (requireUser_actor _ _ _ Ha).
  cbv zeta. rewrite bind_run. unfold db_insert.
  unfold findEvent in Hf. apply existsb_first_filter in Hf.
  simpl pk. simpl rows. simpl Events.id at 1. rewrite Hf. reflexivity.
Qed.

(** C7. A signed-in actor who calls [createEvent] with an input that
    passes the schema, the runtime supplying an id no event has yet, gets
    back the event that was appended to the table: it is owned by the
    actor, its status is the one supplied or "planning", both timestamps
    are the one time read in the call, every other field is the input's
    (a date being the date of the input string), and reading the event
    back by its id finds this very record. *)
Theorem createEvent_returns_the_new_event rt raw input context uid s :
  is_datetime "" = false ->
  actor context = Some uid ->
  createEvent_input raw = Some input ->
  findEvent s (randomUUID rt) = None ->
  exists event s',
    createEvent rt raw context s = (Ok event, s') /\
    s' = {| events := events s ++ [event]; tasks := tasks s; guests := guests s |} /\
    findEvent s' (Events.id event) = Some event /\
    event = {|
      Events.id := randomUUID rt;
      Events.ownerUserId := uid;
      Events.title := CreateEventInput.title input;
      Events.description := prop "description" raw;
      Events.startDateTime := option_map Date_parse (prop "startDateTime" raw);
      Events.endDateTime := option_map Date_parse (prop "endDateTime" raw);
      Events.timeZone := prop "timeZone" raw;
      Events.locationName := prop "locationName" raw;
      Events.locationAddress := prop "locationAddress" raw;
      Events.locationMapLink := prop "locationMapLink" raw;
      Events.status :=
        Some (match prop "status" raw with Some st => st | None => "planning" end);
      Events.createdAt := now rt;
      Events.updatedAt := now rt
    |} /\
    prop "title" raw = Some (Events.title event).
Proof.
  intros He Ha Hin Hf.
  destruct (createEvent_input_fields _ _ He Hin)
    as (F1 & F2 & F3 & F4 & F5 & F6 & F7 & F8 & F9).
  eexists. eexists. split.
  { unfold createEvent, defineAction. rewrite Hin.
    rewrite (createEvent_handler_run _ _ _ _ _ Ha Hf). cbv zeta. reflexivity. }
  split; [reflexivity|]. split.
  { unfold findEvent. simpl events. apply first_filter_app_new.
    - exact Hf.
    - apply String.eqb_refl. }
  split; [|exact F1].
  unfold createEvent_event. simpl.
  rewrite F2, F3, F4, F5, F6, F7, F8, F9. reflexivity.
Qed.

Lemma refine_some {A} (parsed : option A) check a :
  refine parsed check = Some a -> parsed = Some a /\ check a = true.
Proof.
  unfold refine. destruct parsed as [x|]; [|discriminate].
  destruct (check x) eqn:Hc; [|discriminate].
  intros H. injection H as <-. auto.
Qed.

Lemma assigned_some {A} (v : option A) : assigned v Some = match v with
                                                          | Some x => Val x
                                                          | None => Missing
                                                          end.
Proof. destruct v; reflexivity. Qed.

Lemma assigned_datetime v o :
  is_datetime "" = false ->
  optional z_datetime v = Some o ->
  assigned o (fun x => parseOptionalDate (Some x))
  = match v with
    | Some x => Val (Date_parse x)
    | None => Missing
    end.
Proof.
  intros He H. pose proof (optional_datetime_date _ _ He H) as Hd.
  apply optional_some in H. subst o.
  destruct v as [x|]; [|reflexivity].
  unfold assigned. rewrite Hd. reflexivity.
Qed.

(** The [updates] object of [updateEvent], read off the input as it
    arrived. *)
Lemma updateEvent_input_updates raw input now :
  is_datetime "" = false ->
  updateEvent_input raw = Some input ->
  prop "id" raw = Some (UpdateEventInput.id input) /\
  updateEvent_updates now input = {|
    Events.p_title := prop "title" raw;
    Events.p_description := assigned (prop "description" raw) Some;
    Events.p_startDateTime :=
      assigned (prop "startDateTime" raw) (fun x => Some (Date_parse x));
    Events.p_endDateTime :=
      assigned (prop "endDateTime" raw) (fun x => Some (Date_parse x));
    Events.p_timeZone := assigned (prop "timeZone" raw) Some;
    Events.p_locationName := assigned (prop "locationName" raw) Some;
    Events.p_locationAddress := assigned (prop "locationAddress" raw) Some;
    Events.p_locationMapLink := assigned (prop "locationMapLink" raw) Some;
    Events.p_status := assigned (prop "status" raw) Some;
    Events.p_updatedAt := Some now
  |}.
Proof.
  intros He H. apply refine_some in H. destruct H as [H _].
  unfold updateEvent_object in H.
  destruct (z_string _) as [a0|] eqn:E0; [|discriminate].
  destruct (optional z_string_min1 _) as [a1|] eqn:E1; [|discriminate].
  destruct (optional z_string (prop "description" raw)) as [a2|] eqn:E2; [|discriminate].
  destruct (optional z_datetime (prop "startDateTime" raw)) as [a3|] eqn:E3; [|discriminate].
  destruct (optional z_datetime (prop "endDateTime" raw)) as [a4|] eqn:E4; [|discriminate].
  destruct (optional z_string (prop "timeZone" raw)) as [a5|] eqn:E5; [|discriminate].
  destruct (optional z_string (prop "locationName" raw)) as [a6|] eqn:E6; [|discriminate].
  destruct (optional z_string (prop "locationAddress" raw)) as [a7|] eqn:E7; [|discriminate].
  destruct (optional z_url (prop "locationMapLink" raw)) as [a8|] eqn:E8; [|discriminate].
  destruct (optional (z_enum EVENT_STATUSES) _) as [a9|] eqn:E9; [|discriminate].
  injection H as <-. unfold updateEvent_updates. cbn -[assigned parseOptionalDate].
  apply z_string_where_some in E0. destruct E0 as [E0 _].
  rewrite (assigned_datetime _ _ He E3), (assigned_datetime _ _ He E4).
  apply optional_some in E1, E2, E5, E6, E7, E8, E9. subst.
  split; [assumption|].
  destruct (prop "startDateTime" raw), (prop "endDateTime" raw); reflexivity.
Qed.

(** With no key holding [undefined], what [set] writes is what the
    spread yields, whatever [set] does with [undefined]. *)
Lemma set_col_spread {A} (u : Slot A) old :
  no_undef u -> set_col u old = spread u old.
Proof. destruct u; unfold no_undef; simpl; congruence. Qed.

Lemma assigned_no_undef {A B} (v : option A) (f : A -> B) :
  no_undef (assigned v (fun x => Some (f x))).
Proof. destruct v; unfold no_undef; simpl; discriminate. Qed.

Lemma first_filter_update {A} (p : A -> bool) (set : A -> A) l :
  (forall r, p r = true -> p (set r) = true) ->
  first (filter p (map (fun r => if p r then set r else r) l))
  = option_map set (first (filter p l)).
Proof.
  intros Hp. induction l as [|x l IH]; [reflexivity|].
  simpl. destruct (p x) eqn:Hx.
  - rewrite (Hp _ Hx). reflexivity.
  - rewrite Hx. exact IH.
Qed.

Lemma filter_others_update {A} (p : A -> bool) (set : A -> A) l :
  (forall r, p r = true -> p (set r) = true) ->
  filter (fun r => negb (p r)) (map (fun r => if p r then set r else r) l)
  = filter (fun r => negb (p r)) l.
Proof.
  intros Hp. induction l as [|x l IH]; [reflexivity|].
  simpl. destruct (p x) eqn:Hx.
  - rewrite (Hp _ Hx). simpl. exact IH.
  - rewrite Hx. simpl. now rewrite IH.
Qed.

Lemma updateEvent_handler_run rt input context uid s existing :
  actor context = Some uid ->
  findEvent s (UpdateEventInput.id input) = Some existing ->
  Events.ownerUserId existing = uid ->
  updateEvent_handler rt input context s =
  let updates := updateEvent_updates (now rt) input in
  (Ok (Events_spread existing updates),
   with_rows EventsT
     (map (fun r => if Events.id r =? UpdateEventInput.id input
                    then Events_set updates r else r) (events s)) s).
Proof.
  intros Ha Hf Ho. unfold updateEvent_handler.
  rewrite bind_run, (requireUser_actor _ _ _ Ha).
  rewrite bind_run. simpl User.id.
  rewrite (getEventForUser_owner _ _ _ _ Hf Ho). reflexivity.
Qed.

(** C8. A successful [updateEvent] changes, on the stored event, the
    fields the input carries and no other: a field the input does not
    carry keeps its value, [updatedAt] becomes the time read in the call,
    and [id], [ownerUserId] and [createdAt] stay.  The record returned is
    the existing record with the updates merged in, it is the record
    stored under the id afterwards, and no other row of the store is
    touched. *)
Theorem updateEvent_changes_supplied_fields rt raw input context uid s existing :
  is_datetime "" = false ->
  actor context = Some uid ->
  updateEvent_input raw = Some input ->
  findEvent s (UpdateEventInput.id input) = Some existing ->
  Events.ownerUserId existing = uid ->
  exists event s',
    updateEvent rt raw context s = (Ok event, s') /\
    event = Events_spread existing (updateEvent_updates (now rt) input) /\
    findEvent s' (UpdateEventInput.id input) = Some event /\
    event = {|
      Events.id := Events.id existing;
      Events.ownerUserId := Events.ownerUserId existing;
      Events.title := spread_req (prop "title" raw) (Events.title existing);
      Events.description :=
        nullish (prop "description" raw) (Events.description existing);
      Events.startDateTime :=
        nullish (option_map Date_parse (prop "startDateTime" raw))
                (Events.startDateTime existing);
      Events.endDateTime :=
        nullish (option_map Date_parse (prop "endDateTime" raw))
                (Events.endDateTime existing);
      Events.timeZone := nullish (prop "timeZone" raw) (Events.timeZone existing);
      Events.locationName :=
        nullish (prop "locationName" raw) (Events.locationName existing);
      Events.locationAddress :=
        nullish (prop "locationAddress" raw) (Events.locationAddress existing);
      Events.locationMapLink :=
        nullish (prop "locationMapLink" raw) (Events.locationMapLink existing);
      Events.status := nullish (prop "status" raw) (Events.status existing);
      Events.createdAt := Events.createdAt existing;
      Events.updatedAt := now rt
    |} /\
    filter (fun r => negb (Events.id r =? UpdateEventInput.id input)) (events s')
    = filter (fun r => negb (Events.id r =? UpdateEventInput.id input)) (events s) /\
    tasks s' = tasks s /\
    guests s' = guests s.
Proof.
  intros He Ha Hin Hf Ho.
  destruct (updateEvent_input_updates _ _ (now rt) He Hin) as [_ Hu].
  eexists. eexists. split.
  { unfold updateEvent, defineAction. rewrite Hin.
    rewrite (updateEvent_handler_run _ _ _ _ _ _ Ha Hf Ho). cbv zeta. reflexivity. }
  split; [reflexivity|]. split.
  { unfold findEvent in *. simpl events.
    rewrite (first_filter_update (fun r => Events.id r =? UpdateEventInput.id input))
      by (intros r Hr; exact Hr).
    rewrite Hf. simpl. f_equal. rewrite Hu.
    unfold Events_set, Events_spread. simpl.
    rewrite !set_col_spread by apply assigned_no_undef. reflexivity. }
  split.
  { rewrite Hu. unfold Events_spread. simpl.
    destruct (prop "description" raw), (prop "startDateTime" raw),
      (prop "endDateTime" raw), (prop "timeZone" raw), (prop "locationName" raw),
      (prop "locationAddress" raw), (prop "locationMapLink" raw),
      (prop "status" raw); reflexivity. }
  split; [|split; reflexivity].
  simpl events.
  apply (filter_others_update (fun r => Events.id r =? UpdateEventInput.id input)).
  intros r Hr. exact Hr.
Qed.

(** ** Upserting a child row (C3, C4, C9, C10) *)

Lemma given_some id i : given id = Some i -> id = Some i /\ i <> "".
Proof.
  unfold given, truthy. destruct id as [x|]; [|discriminate].
  destruct (String.eqb_spec x "") as [->|Hne]; simpl; [discriminate|].
  intros H. injection H as <-. auto.
Qed.

Lemma given_truthy i : i <> "" -> given (Some i) = Some i.
Proof.
  intros Hne. unfold given, truthy.
  apply String.eqb_neq in Hne. rewrite Hne. reflexivity.
Qed.

Lemma upsertEventTask_input_fields raw input :
  upsertEventTask_input raw = Some input ->
  UpsertEventTaskInput.id input = prop "id" raw /\
  prop "eventId" raw = Some (UpsertEventTaskInput.eventId input) /\
  prop "title" raw = Some (UpsertEventTaskInput.title input) /\
  UpsertEventTaskInput.description input = prop "description" raw /\
  (is_datetime "" = false ->
   parseOptionalDate (UpsertEventTaskInput.dueDate input)
   = option_map Date_parse (prop "dueDate" raw)) /\
  UpsertEventTaskInput.status input
    = match prop "status" raw with Some st => st | None => "todo" end /\
  UpsertEventTaskInput.priority input = prop "priority" raw /\
  UpsertEventTaskInput.userId input = prop "userId" raw.
Proof.
  unfold upsertEventTask_input.
  destruct (optional z_string (prop "id" raw)) as [a1|] eqn:E1; [|discriminate].
  destruct (z_string (prop "eventId" raw)) as [a2|] eqn:E2; [|discriminate].
  destruct (z_string_min1 _) as [a3|] eqn:E3; [|discriminate].
  destruct (optional z_string (prop "description" raw)) as [a4|] eqn:E4; [|discriminate].
  destruct (optional z_datetime _) as [a5|] eqn:E5; [|discriminate].
  destruct (default _ _ _) as [a6|] eqn:E6; [|discriminate].
  destruct (optional (z_enum TASK_PRIORITIES) _) as [a7|] eqn:E7; [|discriminate].
  destruct (optional z_string (prop "userId" raw)) as [a8|] eqn:E8; [|discriminate].
  intros H. injection H as <-. simpl.
  apply z_string_where_some in E2, E3. destruct E2 as [E2 _], E3 as [E3 _].
  apply optional_some in E1, E4, E7, E8. apply default_some in E6.
  repeat split; try assumption.
  intros He. exact (optional_datetime_date _ _ He E5).
Qed.

Lemma upsertEventGuest_input_fields raw input :
  upsertEventGuest_input raw = Some input ->
  UpsertEventGuestInput.id input = prop "id" raw /\
  prop "eventId" raw = Some (UpsertEventGuestInput.eventId input) /\
  prop "name" raw = Some (UpsertEventGuestInput.name input) /\
  UpsertEventGuestInput.email input = prop "email" raw /\
  UpsertEventGuestInput.phone input = prop "phone" raw /\
  UpsertEventGuestInput.rsvpStatus input = prop "rsvpStatus" raw /\
  UpsertEventGuestInput.notes input = prop "notes" raw /\
  (is_datetime "" = false ->
   parseOptionalDate (UpsertEventGuestInput.invitedAt input)
   = option_map Date_parse (prop "invitedAt" raw)) /\
  (is_datetime "" = false ->
   parseOptionalDate (UpsertEventGuestInput.respondedAt input)
   = option_map Date_parse (prop "respondedAt" raw)).
Proof.
  unfold upsertEventGuest_input.
  destruct (optional z_string (prop "id" raw)) as [a1|] eqn:E1; [|discriminate].
  destruct (z_string (prop "eventId" raw)) as [a2|] eqn:E2; [|discriminate].
  destruct (z_string_min1 _) as [a3|] eqn:E3; [|discriminate].
  destruct (optional z_email _) as [a4|] eqn:E4; [|discriminate].
  destruct (optional z_string (prop "phone" raw)) as [a5|] eqn:E5; [|discriminate].
  destruct (optional (z_enum RSVP_STATUSES) _) as [a6|] eqn:E6; [|discriminate].
  destruct (optional z_string (prop "notes" raw)) as [a7|] eqn:E7; [|discriminate].
  destruct (optional z_datetime (prop "invitedAt" raw)) as [a8|] eqn:E8; [|discriminate].
  destruct (optional z_datetime (prop "respondedAt" raw)) as [a9|] eqn:E9; [|discriminate].
  intros H. injection H as <-. simpl.
  apply z_string_where_some in E2, E3. destruct E2 as [E2 _], E3 as [E3 _].
  apply optional_some in E1, E4, E5, E6, E7.
  repeat split; try assumption.
  - intros He. exact (optional_datetime_date _ _ He E8).
  - intros He. exact (optional_datetime_date _ _ He E9).
Qed.

(** The three ways through [upsertEventTask] once the event is
    authorized. *)
Lemma upsertEventTask_handler_create rt input context uid s event :
  actor context = Some uid ->
  findEvent s (UpsertEventTaskInput.eventId input) = Some event ->
  Events.ownerUserId event = uid ->
  given (UpsertEventTaskInput.id input) = None ->
  findTask s (randomUUID rt) = None ->
  upsertEventTask_handler rt input context s =
  let task := upsertEventTask_task (now rt) (randomUUID rt) event input in
  (Ok task, with_rows EventTasksT (tasks s ++ [task]) s).
Proof.
  intros Ha Hf Ho Hg Hn. unfold upsertEventTask_handler.
  rewrite bind_run, (requireUser_actor _ _ _ Ha).
  rewrite bind_run. simpl User.id.
  rewrite (getEventForUser_owner _ _ _ _ Hf Ho). rewrite Hg.
  cbv zeta. rewrite bind_run. unfold db_insert.
  unfold findTask in Hn. apply existsb_first_filter in Hn.
  simpl pk. simpl rows. simpl EventTasks.id at 1. rewrite Hn.
  unfold parent_there. simpl. rewrite (parent_found _ _ _ Hf). reflexivity.
Qed.

Lemma upsertEventTask_handler_moved rt input context uid s event id existing :
  actor context = Some uid ->
  findEvent s (UpsertEventTaskInput.eventId input) = Some event ->
  Events.ownerUserId event = uid ->
  given (UpsertEventTaskInput.id input) = Some id ->
  findTask s id = Some existing ->
  EventTasks.eventId existing <> UpsertEventTaskInput.eventId input ->
  upsertEventTask_handler rt input context s = (Throw FORBIDDEN, s).
Proof.
  intros Ha Hf Ho Hg Ht Hne. unfold upsertEventTask_handler.
  rewrite bind_run, (requireUser_actor _ _ _ Ha).
  rewrite bind_run. simpl User.id.
  rewrite (getEventForUser_owner _ _ _ _ Hf Ho). rewrite Hg.
  rewrite bind_run. unfold db_select. cbv beta iota.
  unfold findTask in Ht. change (rows EventTasksT s) with (tasks s). rewrite Ht.
  rewrite (findEvent_id _ _ _ Hf).
  apply String.eqb_neq in Hne. rewrite Hne. reflexivity.
Qed.

Lemma upsertEventTask_handler_update rt input context uid s event id existing :
  actor context = Some uid ->
  findEvent s (UpsertEventTaskInput.eventId input) = Some event ->
  Events.ownerUserId event = uid ->
  given (UpsertEventTaskInput.id input) = Some id ->
  findTask s id = Some existing ->
  EventTasks.eventId existing = UpsertEventTaskInput.eventId input ->
  upsertEventTask_handler rt input context s =
  let updates := upsertEventTask_updates (now rt) input existing in
  (Ok (EventTasks_spread existing updates),
   with_rows EventTasksT
     (map (fun r => if EventTasks.id r =? id then EventTasks_set updates r else r)
          (tasks s)) s).
Proof.
  intros Ha Hf Ho Hg Ht He. unfold upsertEventTask_handler.
  rewrite bind_run, (requireUser_actor _ _ _ Ha).
  rewrite bind_run. simpl User.id.
  rewrite (getEventForUser_owner _ _ _ _ Hf Ho). rewrite Hg.
  rewrite bind_run. unfold db_select. cbv beta iota.
  unfold findTask in Ht. change (rows EventTasksT s) with (tasks s). rewrite Ht.
  rewrite (findEvent_id _ _ _ Hf).
  apply String.eqb_eq in He. rewrite He. reflexivity.
Qed.

Lemma upsertEventGuest_handler_create rt input context uid s event :
  actor context = Some uid ->
  findEvent s (UpsertEventGuestInput.eventId input) = Some event ->
  Events.ownerUserId event = uid ->
  given (UpsertEventGuestInput.id input) = None ->
  findGuest s (randomUUID rt) = None ->
  upsertEventGuest_handler rt input context s =
  let guest := upsertEventGuest_guest (now rt) (randomUUID rt) event input in
  (Ok guest, with_rows EventGuestsT (guests s ++ [guest]) s).
Proof.
  intros Ha Hf Ho Hg Hn. unfold upsertEventGuest_handler.
  rewrite bind_run, (requireUser_actor _ _ _ Ha).
  rewrite bind_run. simpl User.id.
  rewrite (getEventForUser_owner _ _ _ _ Hf Ho). rewrite Hg.
  cbv zeta. rewrite bind_run. unfold db_insert.
  unfold findGuest in Hn. apply existsb_first_filter in Hn.
  simpl pk. simpl rows. simpl EventGuests.id at 1. rewrite Hn.
  unfold parent_there. simpl. rewrite (parent_found _ _ _ Hf). reflexivity.
Qed.

Lemma upsertEventGuest_handler_moved rt input context uid s event id existing :
  actor context = Some uid ->
  findEvent s (UpsertEventGuestInput.eventId input) = Some event ->
  Events.ownerUserId event = uid ->
  given (UpsertEventGuestInput.id input) = Some id ->
  findGuest s id = Some existing ->
  EventGuests.eventId existing <> UpsertEventGuestInput.eventId input ->
  upsertEventGuest_handler rt input context s = (Throw FORBIDDEN, s).
Proof.
  intros Ha Hf Ho Hg Ht Hne. unfold upsertEventGuest_handler.
  rewrite bind_run, (requireUser_actor _ _ _ Ha).
  rewrite bind_run. simpl User.id.
  rewrite (getEventForUser_owner _ _ _ _ Hf Ho). rewrite Hg.
  rewrite bind_run. unfold db_select. cbv beta iota.
  unfold findGuest in Ht. change (rows EventGuestsT s) with (guests s). rewrite Ht.
  rewrite (findEvent_id _ _ _ Hf).
  apply String.eqb_neq in Hne. rewrite Hne. reflexivity.
Qed.

Lemma upsertEventGuest_handler_update rt input context uid s event id existing :
  actor context = Some uid ->
  findEvent s (UpsertEventGuestInput.eventId input) = Some event ->
  Events.ownerUserId event = uid ->
  given (UpsertEventGuestInput.id input) = Some id ->
  findGuest s id = Some existing ->
  EventGuests.eventId existing = UpsertEventGuestInput.eventId input ->
  upsertEventGuest_handler rt input context s =
  let updates := upsertEventGuest_updates input in
  (Ok (EventGuests_spread existing updates),
   with_rows EventGuestsT
     (map (fun r => if EventGuests.id r =? id then EventGuests_set updates r else r)
          (guests s)) s).
Proof.
  intros Ha Hf Ho Hg Ht He. unfold upsertEventGuest_handler.
  rewrite bind_run, (requireUser_actor _ _ _ Ha).
  rewrite bind_run. simpl User.id.
  rewrite (getEventForUser_owner _ _ _ _ Hf Ho). rewrite Hg.
  rewrite bind_run. unfold db_select. cbv beta iota.
  unfold findGuest in Ht. change (rows EventGuestsT s) with (guests s). rewrite Ht.
  rewrite (findEvent_id _ _ _ Hf).
  apply String.eqb_eq in He. rewrite He. reflexivity.
Qed.

Lemma not_in_ids {A} (id_of : A -> string) l i :
  first (filter (fun r => id_of r =? i) l) = None -> ~ In i (map id_of l).
Proof.
  intros Hn Hin. apply in_map_iff in Hin. destruct Hin as (r & Hr & Hin).
  pose proof (first_filter_none _ _ _ Hn r Hin) as Hp. simpl in Hp.
  apply String.eqb_neq in Hp. contradiction.
Qed.

Lemma NoDup_ids_app {A} (id_of : A -> string) l r :
  ~ In (id_of r) (map id_of l) ->
  NoDup (map id_of l) -> NoDup (map id_of (l ++ [r])).
Proof.
  intros Hn Hd. rewrite map_app. simpl.
  apply NoDup_app; auto.
  - constructor; [intros []|constructor].
  - intros x Hx [<-|[]]. contradiction.
Qed.

(** C3. Once the event named by the input is authorized for the actor:
    [upsertEventTask] and [upsertEventGuest] called with no id (the empty
    string counts as none, being falsy) append one row whose id is the
    one the runtime generated, an id that no row of the table had, so
    ids that were distinct stay distinct, and touch nothing else; called
    with a non-empty id of a stored row that belongs to another event,
    they throw FORBIDDEN and the store is what it was. *)
Theorem upsert_creates_or_refuses_to_move rt context uid s :
  actor context = Some uid ->
  (forall raw input event,
      upsertEventTask_input raw = Some input ->
      findEvent s (UpsertEventTaskInput.eventId input) = Some event ->
      Events.ownerUserId event = uid ->
      given (UpsertEventTaskInput.id input) = None ->
      findTask s (randomUUID rt) = None ->
      exists task,
        upsertEventTask rt raw context s
        = (Ok task,
           {| events := events s; tasks := tasks s ++ [task]; guests := guests s |}) /\
        EventTasks.id task = randomUUID rt /\
        EventTasks.eventId task = UpsertEventTaskInput.eventId input /\
        ~ In (EventTasks.id task) (map EventTasks.id (tasks s)) /\
        (NoDup (map EventTasks.id (tasks s)) ->
         NoDup (map EventTasks.id (tasks s ++ [task])))) /\
  (forall raw input event id existing,
      upsertEventTask_input raw = Some input ->
      findEvent s (UpsertEventTaskInput.eventId input) = Some event ->
      Events.ownerUserId event = uid ->
      UpsertEventTaskInput.id input = Some id ->
      id <> "" ->
      findTask s id = Some existing ->
      EventTasks.eventId existing <> UpsertEventTaskInput.eventId input ->
      upsertEventTask rt raw context s = (Throw FORBIDDEN, s)) /\
  (forall raw input event,
      upsertEventGuest_input raw = Some input ->
      findEvent s (UpsertEventGuestInput.eventId input) = Some event ->
      Events.ownerUserId event = uid ->
      given (UpsertEventGuestInput.id input) = None ->
      findGuest s (randomUUID rt) = None ->
      exists guest,
        upsertEventGuest rt raw context s
        = (Ok guest,
           {| events := events s; tasks := tasks s; guests := guests s ++ [guest] |}) /\
        EventGuests.id guest = randomUUID rt /\
        EventGuests.eventId guest = UpsertEventGuestInput.eventId input /\
        ~ In (EventGuests.id guest) (map EventGuests.id (guests s)) /\
        (NoDup (map EventGuests.id (guests s)) ->
         NoDup (map EventGuests.id (guests s ++ [guest])))) /\
  (forall raw input event id existing,
      upsertEventGuest_input raw = Some input ->
      findEvent s (UpsertEventGuestInput.eventId input) = Some event ->
      Events.ownerUserId event = uid ->
      UpsertEventGuestInput.id input = Some id ->
      id <> "" ->
      findGuest s id = Some existing ->
      EventGuests.eventId existing <> UpsertEventGuestInput.eventId input ->
      upsertEventGuest rt raw context s = (Throw FORBIDDEN, s)).
Proof.
  intros Ha. repeat split.
  - intros raw input event Hin Hf Ho Hg Hn.
    exists (upsertEventTask_task (now rt) (randomUUID rt) event input).
    assert (Hfresh : ~ In (randomUUID rt) (map EventTasks.id (tasks s)))
      by (apply not_in_ids; exact Hn).
    split; [|split; [reflexivity|split; [apply (findEvent_id _ _ _ Hf)|split]]].
    + unfold upsertEventTask, defineAction. rewrite Hin.
      rewrite (upsertEventTask_handler_create _ _ _ _ _ _ Ha Hf Ho Hg Hn).
      reflexivity.
    + exact Hfresh.
    + apply NoDup_ids_app. exact Hfresh.
  - intros raw input event id existing Hin Hf Ho Hid Hne Ht Hev.
    unfold upsertEventTask, defineAction. rewrite Hin.
    apply (upsertEventTask_handler_moved _ _ _ _ _ _ id existing Ha Hf Ho); auto.
    rewrite Hid. apply given_truthy. exact Hne.
  - intros raw input event Hin Hf Ho Hg Hn.
    exists (upsertEventGuest_guest (now rt) (randomUUID rt) event input).
    assert (Hfresh : ~ In (randomUUID rt) (map EventGuests.id (guests s)))
      by (apply not_in_ids; exact Hn).
    split; [|split; [reflexivity|split; [apply (findEvent_id _ _ _ Hf)|split]]].
    + unfold upsertEventGuest, defineAction. rewrite Hin.
      rewrite (upsertEventGuest_handler_create _ _ _ _ _ _ Ha Hf Ho Hg Hn).
      reflexivity.
    + exact Hfresh.
    + apply NoDup_ids_app. exact Hfresh.
  - intros raw input event id existing Hin Hf Ho Hid Hne Ht Hev.
    unfold upsertEventGuest, defineAction. rewrite Hin.
    apply (upsertEventGuest_handler_moved _ _ _ _ _ _ id existing Ha Hf Ho); auto.
    rewrite Hid. apply given_truthy. exact Hne.
Qed.

(** The task and the guest that an update returns, field by field. *)
Lemma upsertEventTask_update_returned raw input now existing :
  is_datetime "" = false ->
  upsertEventTask_input raw = Some input ->
  EventTasks_spread existing (upsertEventTask_updates now input existing) = {|
    EventTasks.id := EventTasks.id existing;
    EventTasks.eventId := EventTasks.eventId existing;
    EventTasks.userId := prop "userId" raw;
    EventTasks.title := UpsertEventTaskInput.title input;
    EventTasks.description := prop "description" raw;
    EventTasks.dueDate := option_map Date_parse (prop "dueDate" raw);
    EventTasks.status :=
      Some (match prop "status" raw with Some st => st | None => "todo" end);
    EventTasks.priority := prop "priority" raw;
    EventTasks.createdAt := EventTasks.createdAt existing;
    EventTasks.updatedAt := now
  |}.
Proof.
  intros He Hin.
  destruct (upsertEventTask_input_fields _ _ Hin)
    as (_ & _ & _ & F4 & F5 & F6 & F7 & F8).
  unfold EventTasks_spread, upsertEventTask_updates.
  cbn -[parseOptionalDate]. rewrite (F5 He), F4, F6, F7, F8.
  destruct (prop "userId" raw), (prop "description" raw), (prop "dueDate" raw),
    (prop "priority" raw); reflexivity.
Qed.

Lemma upsertEventGuest_update_returned raw input existing :
  is_datetime "" = false ->
  upsertEventGuest_input raw = Some input ->
  EventGuests_spread existing (upsertEventGuest_updates input) = {|
    EventGuests.id := EventGuests.id existing;
    EventGuests.eventId := EventGuests.eventId existing;
    EventGuests.name := UpsertEventGuestInput.name input;
    EventGuests.email := prop "email" raw;
    EventGuests.phone := prop "phone" raw;
    EventGuests.rsvpStatus := prop "rsvpStatus" raw;
    EventGuests.notes := prop "notes" raw;
    EventGuests.invitedAt := option_map Date_parse (prop "invitedAt" raw);
    EventGuests.respondedAt := option_map Date_parse (prop "respondedAt" raw);
    EventGuests.createdAt := EventGuests.createdAt existing
  |}.
Proof.
  intros He Hin.
  destruct (upsertEventGuest_input_fields _ _ Hin)
    as (_ & _ & _ & F4 & F5 & F6 & F7 & F8 & F9).
  unfold EventGuests_spread, upsertEventGuest_updates.
  cbn -[parseOptionalDate]. rewrite (F8 He), (F9 He), F4, F5, F6, F7.
  destruct (prop "email" raw), (prop "phone" raw), (prop "rsvpStatus" raw),
    (prop "notes" raw), (prop "invitedAt" raw), (prop "respondedAt" raw);
    reflexivity.
Qed.

(** When [set] skips a key that holds [undefined], the column keeps its
    value. *)
Lemma set_col_skips {A} (v : option A) old :
  set_skips_undefined = true -> set_col (keyed v) old = nullish v old.
Proof. intros H. destruct v; simpl; [reflexivity|]. rewrite H. reflexivity. Qed.

(** The status that an update writes is the parsed one, which the
    schema has defaulted: the stored status is never consulted. *)
Lemma upsertEventTask_updates_status now input existing :
  EventTasks.p_status (upsertEventTask_updates now input existing)
  = Val (UpsertEventTaskInput.status input).
Proof. reflexivity. Qed.

(** What an update of a task does to the status, in the record it
    returns and in the row it leaves: both hold the parsed status, which
    is "todo" when the input carries none. *)
Lemma upsertEventTask_update_status rt raw input context uid s event id existing :
  actor context = Some uid ->
  upsertEventTask_input raw = Some input ->
  findEvent s (UpsertEventTaskInput.eventId input) = Some event ->
  Events.ownerUserId event = uid ->
  UpsertEventTaskInput.id input = Some id ->
  id <> "" ->
  findTask s id = Some existing ->
  EventTasks.eventId existing = UpsertEventTaskInput.eventId input ->
  exists task s' stored,
    upsertEventTask rt raw context s = (Ok task, s') /\
    findTask s' id = Some stored /\
    EventTasks.status task
    = Some (match prop "status" raw with Some st => st | None => "todo" end) /\
    EventTasks.status stored = EventTasks.status task.
Proof.
  intros Ha Hin Hf Ho Hid Hne Ht Hev.
  assert (Hg : given (UpsertEventTaskInput.id input) = Some id)
    by (rewrite Hid; apply given_truthy; exact Hne).
  destruct (upsertEventTask_input_fields _ _ Hin)
    as (_ & _ & _ & _ & _ & F6 & _ & _).
  eexists. eexists. eexists. split.
  { unfold upsertEventTask, defineAction. rewrite Hin.
    rewrite (upsertEventTask_handler_update _ _ _ _ _ _ _ _ Ha Hf Ho Hg Ht Hev).
    cbv zeta. reflexivity. }
  split.
  { unfold findTask in *. simpl tasks.
    rewrite (first_filter_update (fun r => EventTasks.id r =? id))
      by (intros r Hr; exact Hr).
    rewrite Ht. reflexivity. }
  simpl. rewrite F6. split; reflexivity.
Qed.

(** The record that an update through [upsertEventTask] or
    [upsertEventGuest] returns (a non-empty id of a stored row of the
    authorized event) is the existing row with every updatable field
    replaced by the input's value: an optional field that the input omits
    comes back empty, and only [id], [eventId] and [createdAt] are the
    existing row's (a task's status is the parsed one, "todo" when
    omitted, and its [updatedAt] the time of the call). *)
Theorem upsert_update_returns_the_input rt context uid s :
  is_datetime "" = false ->
  actor context = Some uid ->
  (forall raw input event id existing,
      upsertEventTask_input raw = Some input ->
      findEvent s (UpsertEventTaskInput.eventId input) = Some event ->
      Events.ownerUserId event = uid ->
      UpsertEventTaskInput.id input = Some id ->
      id <> "" ->
      findTask s id = Some existing ->
      EventTasks.eventId existing = UpsertEventTaskInput.eventId input ->
      exists task s',
        upsertEventTask rt raw context s = (Ok task, s') /\
        task = {|
          EventTasks.id := EventTasks.id existing;
          EventTasks.eventId := EventTasks.eventId existing;
          EventTasks.userId := prop "userId" raw;
          EventTasks.title := UpsertEventTaskInput.title input;
          EventTasks.description := prop "description" raw;
          EventTasks.dueDate := option_map Date_parse (prop "dueDate" raw);
          EventTasks.status :=
            Some (match prop "status" raw with Some st => st | None => "todo" end);
          EventTasks.priority := prop "priority" raw;
          EventTasks.createdAt := EventTasks.createdAt existing;
          EventTasks.updatedAt := now rt
        |} /\
        prop "title" raw = Some (EventTasks.title task) /\
        events s' = events s /\
        guests s' = guests s) /\
  (forall raw input event id existing,
      upsertEventGuest_input raw = Some input ->
      findEvent s (UpsertEventGuestInput.eventId input) = Some event ->
      Events.ownerUserId event = uid ->
      UpsertEventGuestInput.id input = Some id ->
      id <> "" ->
      findGuest s id = Some existing ->
      EventGuests.eventId existing = UpsertEventGuestInput.eventId input ->
      exists guest s',
        upsertEventGuest rt raw context s = (Ok guest, s') /\
        guest = {|
          EventGuests.id := EventGuests.id existing;
          EventGuests.eventId := EventGuests.eventId existing;
          EventGuests.name := UpsertEventGuestInput.name input;
          EventGuests.email := prop "email" raw;
          EventGuests.phone := prop "phone" raw;
          EventGuests.rsvpStatus := prop "rsvpStatus" raw;
          EventGuests.notes := prop "notes" raw;
          EventGuests.invitedAt := option_map Date_parse (prop "invitedAt" raw);
          EventGuests.respondedAt := option_map Date_parse (prop "respondedAt" raw);
          EventGuests.createdAt := EventGuests.createdAt existing
        |} /\
        prop "name" raw = Some (EventGuests.name guest) /\
        events s' = events s /\
        tasks s' = tasks s).
Proof.
  intros He Ha. split.
  - intros raw input event id existing Hin Hf Ho Hid Hne Ht Hev.
    assert (Hg : given (UpsertEventTaskInput.id input) = Some id)
      by (rewrite Hid; apply given_truthy; exact Hne).
    destruct (upsertEventTask_input_fields _ _ Hin) as (_ & _ & F3 & _).
    eexists. eexists. split.
    { unfold upsertEventTask, defineAction. rewrite Hin.
      rewrite (upsertEventTask_handler_update _ _ _ _ _ _ _ _ Ha Hf Ho Hg Ht Hev).
      cbv zeta. reflexivity. }
    split; [apply (upsertEventTask_update_returned _ _ _ _ He Hin)|].
    split; [exact F3|]. split; reflexivity.
  - intros raw input event id existing Hin Hf Ho Hid Hne Ht Hev.
    assert (Hg : given (UpsertEventGuestInput.id input) = Some id)
      by (rewrite Hid; apply given_truthy; exact Hne).
    destruct (upsertEventGuest_input_fields _ _ Hin) as (_ & _ & F3 & _).
    eexists. eexists. split.
    { unfold upsertEventGuest, defineAction. rewrite Hin.
      rewrite (upsertEventGuest_handler_update _ _ _ _ _ _ _ _ Ha Hf Ho Hg Ht Hev).
      cbv zeta. reflexivity. }
    split; [apply (upsertEventGuest_update_returned _ _ _ He Hin)|].
    split; [exact F3|]. split; reflexivity.
Qed.

Lemma upsertEventTask_update_stored raw input now existing :
  set_skips_undefined = true ->
  is_datetime "" = false ->
  upsertEventTask_input raw = Some input ->
  EventTasks_set (upsertEventTask_updates now input existing) existing = {|
    EventTasks.id := EventTasks.id existing;
    EventTasks.eventId := EventTasks.eventId existing;
    EventTasks.userId := nullish (prop "userId" raw) (EventTasks.userId existing);
    EventTasks.title := UpsertEventTaskInput.title input;
    EventTasks.description :=
      nullish (prop "description" raw) (EventTasks.description existing);
    EventTasks.dueDate :=
      nullish (option_map Date_parse (prop "dueDate" raw)) (EventTasks.dueDate existing);
    EventTasks.status :=
      Some (match prop "status" raw with Some st => st | None => "todo" end);
    EventTasks.priority :=
      nullish (prop "priority" raw) (EventTasks.priority existing);
    EventTasks.createdAt := EventTasks.createdAt existing;
    EventTasks.updatedAt := now
  |}.
Proof.
  intros Hk He Hin.
  destruct (upsertEventTask_input_fields _ _ Hin)
    as (_ & _ & _ & F4 & F5 & F6 & F7 & F8).
  unfold EventTasks_set, upsertEventTask_updates.
  cbn -[set_col keyed nullish parseOptionalDate].
  rewrite !(set_col_skips _ _ Hk), (F5 He), F4, F6, F7, F8. reflexivity.
Qed.

Lemma upsertEventGuest_update_stored raw input existing :
  set_skips_undefined = true ->
  is_datetime "" = false ->
  upsertEventGuest_input raw = Some input ->
  EventGuests_set (upsertEventGuest_updates input) existing = {|
    EventGuests.id := EventGuests.id existing;
    EventGuests.eventId := EventGuests.eventId existing;
    EventGuests.name := UpsertEventGuestInput.name input;
    EventGuests.email := nullish (prop "email" raw) (EventGuests.email existing);
    EventGuests.phone := nullish (prop "phone" raw) (EventGuests.phone existing);
    EventGuests.rsvpStatus :=
      nullish (prop "rsvpStatus" raw) (EventGuests.rsvpStatus existing);
    EventGuests.notes := nullish (prop "notes" raw) (EventGuests.notes existing);
    EventGuests.invitedAt :=
      nullish (option_map Date_parse (prop "invitedAt" raw))
              (EventGuests.invitedAt existing);
    EventGuests.respondedAt :=
      nullish (option_map Date_parse (prop "respondedAt" raw))
              (EventGuests.respondedAt existing);
    EventGuests.createdAt := EventGuests.createdAt existing
  |}.
Proof.
  intros Hk He Hin.
  destruct (upsertEventGuest_input_fields _ _ Hin)
    as (_ & _ & _ & F4 & F5 & F6 & F7 & F8 & F9).
  unfold EventGuests_set, upsertEventGuest_updates.
  cbn -[set_col keyed nullish parseOptionalDate].
  rewrite !(set_col_skips _ _ Hk), (F8 He), (F9 He), F4, F5, F6, F7. reflexivity.
Qed.

(** The row that such an update leaves in the store, the query
    builder's [set] skipping every key that holds [undefined]: the fields
    that the input carries are replaced, and the optional fields that it
    omits keep the value they had, so the stored row is not the record
    returned whenever the input omits an optional field that the row
    holds. *)
Theorem upsert_update_stores_only_what_is_sent rt context uid s :
  set_skips_undefined = true ->
  is_datetime "" = false ->
  actor context = Some uid ->
  (forall raw input event id existing,
      upsertEventTask_input raw = Some input ->
      findEvent s (UpsertEventTaskInput.eventId input) = Some event ->
      Events.ownerUserId event = uid ->
      UpsertEventTaskInput.id input = Some id ->
      id <> "" ->
      findTask s id = Some existing ->
      EventTasks.eventId existing = UpsertEventTaskInput.eventId input ->
      exists task s',
        upsertEventTask rt raw context s = (Ok task, s') /\
        findTask s' id = Some {|
          EventTasks.id := EventTasks.id existing;
          EventTasks.eventId := EventTasks.eventId existing;
          EventTasks.userId := nullish (prop "userId" raw) (EventTasks.userId existing);
          EventTasks.title := UpsertEventTaskInput.title input;
          EventTasks.description :=
            nullish (prop "description" raw) (EventTasks.description existing);
          EventTasks.dueDate :=
            nullish (option_map Date_parse (prop "dueDate" raw))
                    (EventTasks.dueDate existing);
          EventTasks.status :=
            Some (match prop "status" raw with Some st => st | None => "todo" end);
          EventTasks.priority :=
            nullish (prop "priority" raw) (EventTasks.priority existing);
          EventTasks.createdAt := EventTasks.createdAt existing;
          EventTasks.updatedAt := now rt
        |}) /\
  (forall raw input event id existing,
      upsertEventGuest_input raw = Some input ->
      findEvent s (UpsertEventGuestInput.eventId input) = Some event ->
      Events.ownerUserId event = uid ->
      UpsertEventGuestInput.id input = Some id ->
      id <> "" ->
      findGuest s id = Some existing ->
      EventGuests.eventId existing = UpsertEventGuestInput.eventId input ->
      exists guest s',
        upsertEventGuest rt raw context s = (Ok guest, s') /\
        findGuest s' id = Some {|
          EventGuests.id := EventGuests.id existing;
          EventGuests.eventId := EventGuests.eventId existing;
          EventGuests.name := UpsertEventGuestInput.name input;
          EventGuests.email := nullish (prop "email" raw) (EventGuests.email existing);
          EventGuests.phone := nullish (prop "phone" raw) (EventGuests.phone existing);
          EventGuests.rsvpStatus :=
            nullish (prop "rsvpStatus" raw) (EventGuests.rsvpStatus existing);
          EventGuests.notes := nullish (prop "notes" raw) (EventGuests.notes existing);
          EventGuests.invitedAt :=
            nullish (option_map Date_parse (prop "invitedAt" raw))
                    (EventGuests.invitedAt existing);
          EventGuests.respondedAt :=
            nullish (option_map Date_parse (prop "respondedAt" raw))
                    (EventGuests.respondedAt existing);
          EventGuests.createdAt := EventGuests.createdAt existing
        |}).
Proof.
  intros Hk He Ha. split.
  - intros raw input event id existing Hin Hf Ho Hid Hne Ht Hev.
    assert (Hg : given (UpsertEventTaskInput.id input) = Some id)
      by (rewrite Hid; apply given_truthy; exact Hne).
    eexists. eexists. split.
    { unfold upsertEventTask, defineAction. rewrite Hin.
      rewrite (upsertEventTask_handler_update _ _ _ _ _ _ _ _ Ha Hf Ho Hg Ht Hev).
      cbv zeta. reflexivity. }
    unfold findTask in *. simpl tasks.
    rewrite (first_filter_update (fun r => EventTasks.id r =? id))
      by (intros r Hr; exact Hr).
    rewrite Ht. simpl option_map. f_equal.
    apply (upsertEventTask_update_stored _ _ _ _ Hk He Hin).
  - intros raw input event id existing Hin Hf Ho Hid Hne Ht Hev.
    assert (Hg : given (UpsertEventGuestInput.id input) = Some id)
      by (rewrite Hid; apply given_truthy; exact Hne).
    eexists. eexists. split.
    { unfold upsertEventGuest, defineAction. rewrite Hin.
      rewrite (upsertEventGuest_handler_update _ _ _ _ _ _ _ _ Ha Hf Ho Hg Ht Hev).
      cbv zeta. reflexivity. }
    unfold findGuest in *. simpl guests.
    rewrite (first_filter_update (fun r => EventGuests.id r =? id))
      by (intros r Hr; exact Hr).
    rewrite Ht. simpl option_map. f_equal.
    apply (upsertEventGuest_update_stored _ _ _ Hk He Hin).
Qed.

(** C9, as the code has it.  A guest created with rsvpStatus "invited"
    and then upserted again under the id it was given, with the same
    [eventId], a name and rsvpStatus "going" (the schema asks for
    [eventId] and [name] on every call), comes back with the same id,
    rsvpStatus "going" and the name of the second call: the name is the
    first call's when the second call repeats it. *)
Theorem upsertEventGuest_rsvp_then_going
  rt1 rt2 context uid s raw1 raw2 input1 input2 event :
  actor context = Some uid ->
  upsertEventGuest_input raw1 = Some input1 ->
  prop "id" raw1 = None ->
  prop "rsvpStatus" raw1 = Some "invited" ->
  findEvent s (UpsertEventGuestInput.eventId input1) = Some event ->
  Events.ownerUserId event = uid ->
  findGuest s (randomUUID rt1) = None ->
  randomUUID rt1 <> "" ->
  upsertEventGuest_input raw2 = Some input2 ->
  prop "id" raw2 = Some (randomUUID rt1) ->
  UpsertEventGuestInput.eventId input2 = UpsertEventGuestInput.eventId input1 ->
  prop "rsvpStatus" raw2 = Some "going" ->
  exists guest s1 guest' s2 stored,
    upsertEventGuest rt1 raw1 context s = (Ok guest, s1) /\
    EventGuests.rsvpStatus guest = Some "invited" /\
    EventGuests.name guest = UpsertEventGuestInput.name input1 /\
    upsertEventGuest rt2 raw2 context s1 = (Ok guest', s2) /\
    EventGuests.id guest' = EventGuests.id guest /\
    EventGuests.rsvpStatus guest' = Some "going" /\
    EventGuests.name guest' = UpsertEventGuestInput.name input2 /\
    (UpsertEventGuestInput.name input2 = UpsertEventGuestInput.name input1 ->
     EventGuests.name guest' = EventGuests.name guest) /\
    findGuest s2 (EventGuests.id guest) = Some stored /\
    EventGuests.rsvpStatus stored = Some "going" /\
    EventGuests.name stored = UpsertEventGuestInput.name input2.
Proof.
  intros Ha Hin1 Hid1 Hr1 Hf Ho Hn Hne Hin2 Hid2 Hev Hr2.
  destruct (upsertEventGuest_input_fields _ _ Hin1) as (G1 & _ & _ & _ & _ & G6 & _).
  destruct (upsertEventGuest_input_fields _ _ Hin2) as (K1 & _ & _ & _ & _ & K6 & _).
  assert (Hg1 : given (UpsertEventGuestInput.id input1) = None)
    by (rewrite G1, Hid1; reflexivity).
  assert (Hg2 : given (UpsertEventGuestInput.id input2) = Some (randomUUID rt1))
    by (rewrite K1, Hid2; apply given_truthy; exact Hne).
  set (guest := upsertEventGuest_guest (now rt1) (randomUUID rt1) event input1).
  set (s1 := with_rows EventGuestsT (guests s ++ [guest]) s).
  assert (Hf1 : findEvent s1 (UpsertEventGuestInput.eventId input2) = Some event)
    by (rewrite Hev; exact Hf).
  assert (Ht1 : findGuest s1 (randomUUID rt1) = Some guest).
  { unfold findGuest, s1. simpl guests. apply first_filter_app_new.
    - exact Hn.
    - apply String.eqb_refl. }
  assert (Hev1 : EventGuests.eventId guest = UpsertEventGuestInput.eventId input2).
  { rewrite Hev. exact (findEvent_id _ _ _ Hf). }
  exists guest, s1. eexists. eexists. eexists.
  split.
  { unfold upsertEventGuest, defineAction. rewrite Hin1.
    rewrite (upsertEventGuest_handler_create _ _ _ _ _ _ Ha Hf Ho Hg1 Hn).
    reflexivity. }
  split; [simpl; rewrite G6; exact Hr1|].
  split; [reflexivity|].
  split.
  { unfold upsertEventGuest, defineAction. rewrite Hin2.
    rewrite (upsertEventGuest_handler_update _ _ _ _ _ _ _ _ Ha Hf1 Ho Hg2 Ht1 Hev1).
    cbv zeta. reflexivity. }
  split; [reflexivity|].
  split; [simpl; rewrite K6, Hr2; reflexivity|].
  split; [reflexivity|].
  split; [intros Hsame; simpl; exact Hsame|].
  split.
  { unfold findGuest in *. simpl guests.
    rewrite (first_filter_update (fun r => EventGuests.id r =? randomUUID rt1))
      by (intros r Hr; exact Hr).
    simpl guests in Ht1. simpl EventGuests.id. rewrite Ht1. reflexivity. }
  split; [simpl; rewrite K6, Hr2; reflexivity|reflexivity].
Qed.

(** ** More of the handlers: the order of the checks *)

Lemma requireUser_run context s :
  requireUser context s =
  match actor context with
  | Some uid => (Ok {| User.id := uid |}, s)
  | None => (Throw UNAUTHORIZED, s)
  end.
Proof.
  destruct (actor context) as [uid|] eqn:Ha.
  - apply requireUser_actor. exact Ha.
  - apply requireUser_anonymous. exact Ha.
Qed.

Lemma first_filter_existsb {A} (p : A -> bool) l x :
  first (filter p l) = Some x -> existsb p l = true.
Proof.
  induction l as [|y l IH]; [discriminate|].
  simpl. destruct (p y); [reflexivity|]. exact IH.
Qed.

Lemma db_insert_run {A} (T : Table A) (values : A) s :
  db_insert T values s =
  match first (filter (fun r => pk T r =? pk T values) (rows T s)) with
  | None =>
      if parent_there T values s
      then (Ok tt, with_rows T (rows T s ++ [values]) s)
      else (Throw INTERNAL_SERVER_ERROR, s)
  | Some _ => (Throw INTERNAL_SERVER_ERROR, s)
  end.
Proof.
  unfold db_insert.
  destruct (first _) as [x|] eqn:Hf.
  - rewrite (first_filter_existsb _ _ _ Hf). reflexivity.
  - rewrite (existsb_first_filter _ _ Hf). reflexivity.
Qed.

Ltac anonymous_handler H :=
  rewrite bind_run, (requireUser_anonymous _ _ H); reflexivity.

(** A call whose input does not pass the schema of its action is
    refused with BAD_REQUEST, whoever makes it and whatever the store
    holds; a call whose input passes and that no signed-in user makes is
    refused with UNAUTHORIZED.  The store is left as it was. *)
Theorem validation_then_authentication rt call context s :
  (parses call = false -> server rt call context s = (Some BAD_REQUEST, s)) /\
  (parses call = true -> actor context = None ->
   server rt call context s = (Some UNAUTHORIZED, s)).
Proof.
  split.
  - destruct call; simpl;
      unfold createEvent, updateEvent, deleteEvent, listMyEvents,
        getEventWithDetails, upsertEventTask, deleteEventTask,
        upsertEventGuest, deleteEventGuest, defineAction;
      match goal with
      | |- defined ?p = false -> _ => destruct p; simpl
      end; intros H; try discriminate; reflexivity.
  - intros Hp Ha. destruct call; simpl in *;
      unfold createEvent, updateEvent, deleteEvent, listMyEvents,
        getEventWithDetails, upsertEventTask, deleteEventTask,
        upsertEventGuest, deleteEventGuest, defineAction;
      match type of Hp with
      | defined ?p = true => destruct p; [|discriminate]
      end; unfold outcome; f_equal.
    + unfold createEvent_handler. anonymous_handler Ha.
    + unfold createEvent_handler. anonymous_handler Ha.
    + unfold updateEvent_handler. anonymous_handler Ha.
    + unfold updateEvent_handler. anonymous_handler Ha.
    + unfold deleteEvent_handler. anonymous_handler Ha.
    + unfold deleteEvent_handler. anonymous_handler Ha.
    + unfold listMyEvents_handler. anonymous_handler Ha.
    + unfold listMyEvents_handler. anonymous_handler Ha.
    + unfold getEventWithDetails_handler. anonymous_handler Ha.
    + unfold getEventWithDetails_handler. anonymous_handler Ha.
    + unfold upsertEventTask_handler. anonymous_handler Ha.
    + unfold upsertEventTask_handler. anonymous_handler Ha.
    + unfold deleteEventTask_handler. anonymous_handler Ha.
    + unfold deleteEventTask_handler. anonymous_handler Ha.
    + unfold upsertEventGuest_handler. anonymous_handler Ha.
    + unfold upsertEventGuest_handler. anonymous_handler Ha.
    + unfold deleteEventGuest_handler. anonymous_handler Ha.
    + unfold deleteEventGuest_handler. anonymous_handler Ha.
Qed.

(** ** What the schemas ask for *)

Lemma z_string_where_none check v :
  v = None \/ (exists x, v = Some x /\ check x = false) ->
  z_string_where check v = None.
Proof.
  intros [->|(x & -> & Hc)]; [reflexivity|].
  unfold z_string_where. rewrite Hc. reflexivity.
Qed.

Lemma z_string_min1_none v :
  v = None \/ v = Some "" -> z_string_min1 v = None.
Proof. intros [->| ->]; reflexivity. Qed.

Lemma z_enum_outside values x :
  ~ In x values -> z_string_where (fun v => existsb (String.eqb v) values) (Some x) = None.
Proof.
  intros Hn. unfold z_string_where.
  destruct (existsb (String.eqb x) values) eqn:He; [|reflexivity].
  apply existsb_exists in He. destruct He as (y & Hy & Hxy).
  apply String.eqb_eq in Hxy. subst y. contradiction.
Qed.

Lemma optional_enum_outside values x :
  ~ In x values -> optional (z_enum values) (Some x) = None.
Proof.
  intros Hn. unfold optional, z_enum. rewrite (z_enum_outside _ _ Hn). reflexivity.
Qed.

Lemma default_enum_outside values d x :
  ~ In x values -> default (z_enum values) d (Some x) = None.
Proof.
  intros Hn. unfold default, z_enum. apply z_enum_outside. exact Hn.
Qed.

Lemma id_input_missing raw : prop "id" raw = None -> id_input raw = None.
Proof. unfold id_input. intros ->. reflexivity. Qed.

Lemma createEvent_input_title raw :
  prop "title" raw = None \/ prop "title" raw = Some "" ->
  createEvent_input raw = None.
Proof.
  intros H. unfold createEvent_input. rewrite (z_string_min1_none _ H). reflexivity.
Qed.

Lemma updateEvent_input_id raw :
  prop "id" raw = None -> updateEvent_input raw = None.
Proof.
  intros H. unfold updateEvent_input, updateEvent_object. rewrite H. reflexivity.
Qed.

Lemma upsertEventTask_input_required raw :
  prop "eventId" raw = None \/ prop "title" raw = None \/ prop "title" raw = Some "" ->
  upsertEventTask_input raw = None.
Proof.
  intros H. unfold upsertEventTask_input.
  destruct (optional z_string (prop "id" raw)); [|reflexivity].
  destruct H as [H|H].
  - rewrite H. reflexivity.
  - rewrite (z_string_min1_none _ H).
    destruct (z_string (prop "eventId" raw)); reflexivity.
Qed.

Lemma upsertEventGuest_input_required raw :
  prop "eventId" raw = None \/ prop "name" raw = None \/ prop "name" raw = Some "" ->
  upsertEventGuest_input raw = None.
Proof.
  intros H. unfold upsertEventGuest_input.
  destruct (optional z_string (prop "id" raw)); [|reflexivity].
  destruct H as [H|H].
  - rewrite H. reflexivity.
  - rewrite (z_string_min1_none _ H).
    destruct (z_string (prop "eventId" raw)); reflexivity.
Qed.

(** An input that lacks a property its schema requires is refused with
    BAD_REQUEST by every action, signed in or not, and nothing is
    written: [createEvent] needs a non-empty [title]; [updateEvent],
    [deleteEvent], [getEventWithDetails], [deleteEventTask] and
    [deleteEventGuest] an [id]; [upsertEventTask] an [eventId] and a
    non-empty [title]; [upsertEventGuest] an [eventId] and a non-empty
    [name]. *)
Theorem required_properties rt context s raw :
  (prop "title" raw = None \/ prop "title" raw = Some "" ->
   createEvent rt raw context s = (Throw BAD_REQUEST, s)) /\
  (prop "id" raw = None ->
   updateEvent rt raw context s = (Throw BAD_REQUEST, s) /\
   deleteEvent raw context s = (Throw BAD_REQUEST, s) /\
   getEventWithDetails raw context s = (Throw BAD_REQUEST, s) /\
   deleteEventTask raw context s = (Throw BAD_REQUEST, s) /\
   deleteEventGuest raw context s = (Throw BAD_REQUEST, s)) /\
  (prop "eventId" raw = None \/ prop "title" raw = None \/ prop "title" raw = Some "" ->
   upsertEventTask rt raw context s = (Throw BAD_REQUEST, s)) /\
  (prop "eventId" raw = None \/ prop "name" raw = None \/ prop "name" raw = Some "" ->
   upsertEventGuest rt raw context s = (Throw BAD_REQUEST, s)).
Proof.
  split; [|split; [|split]].
  - intros H. unfold createEvent, defineAction.
    rewrite (createEvent_input_title _ H). reflexivity.
  - intros H. repeat split.
    + unfold updateEvent, defineAction. rewrite (updateEvent_input_id _ H). reflexivity.
    + unfold deleteEvent, defineAction. rewrite (id_input_missing _ H). reflexivity.
    + unfold getEventWithDetails, defineAction.
      rewrite (id_input_missing _ H). reflexivity.
    + unfold deleteEventTask, defineAction. rewrite (id_input_missing _ H). reflexivity.
    + unfold deleteEventGuest, defineAction. rewrite (id_input_missing _ H). reflexivity.
  - intros H. unfold upsertEventTask, defineAction.
    rewrite (upsertEventTask_input_required _ H). reflexivity.
  - intros H. unfold upsertEventGuest, defineAction.
    rewrite (upsertEventGuest_input_required _ H). reflexivity.
Qed.

Ltac skip_parsers :=
  repeat match goal with
         | |- context [match ?p with Some _ => _ | None => _ end] =>
             lazymatch p with
             | None => fail
             | Some _ => fail
             | match _ with Some _ => _ | None => _ end => fail
             | _ => destruct p
             end
         end; try reflexivity.

(** A status, priority or rsvpStatus that is not one of the values its
    enumeration lists is refused with BAD_REQUEST wherever an action
    takes one, and nothing is written. *)
Theorem enumerations_are_closed rt context s raw v :
  (prop "status" raw = Some v -> ~ In v EVENT_STATUSES ->
   createEvent rt raw context s = (Throw BAD_REQUEST, s) /\
   updateEvent rt raw context s = (Throw BAD_REQUEST, s) /\
   listMyEvents (Some raw) context s = (Throw BAD_REQUEST, s)) /\
  (prop "status" raw = Some v -> ~ In v TASK_STATUSES ->
   upsertEventTask rt raw context s = (Throw BAD_REQUEST, s)) /\
  (prop "priority" raw = Some v -> ~ In v TASK_PRIORITIES ->
   upsertEventTask rt raw context s = (Throw BAD_REQUEST, s)) /\
  (prop "rsvpStatus" raw = Some v -> ~ In v RSVP_STATUSES ->
   upsertEventGuest rt raw context s = (Throw BAD_REQUEST, s)).
Proof.
  split; [|split; [|split]]; intros Hp Hn.
  - repeat split.
    + unfold createEvent, defineAction, createEvent_input.
      rewrite Hp, (default_enum_outside _ "planning" _ Hn). skip_parsers.
    + unfold updateEvent, defineAction, updateEvent_input, updateEvent_object.
      rewrite Hp, (optional_enum_outside _ _ Hn). unfold refine. skip_parsers.
    + unfold listMyEvents, listMyEvents_input.
      rewrite Hp, (optional_enum_outside _ _ Hn). reflexivity.
  - unfold upsertEventTask, defineAction, upsertEventTask_input.
    rewrite Hp, (default_enum_outside _ "todo" _ Hn). skip_parsers.
  - unfold upsertEventTask, defineAction, upsertEventTask_input.
    rewrite Hp, (optional_enum_outside _ _ Hn). skip_parsers.
  - unfold upsertEventGuest, defineAction, upsertEventGuest_input.
    rewrite Hp, (optional_enum_outside _ _ Hn). skip_parsers.
Qed.

(** ** Rows that are not there *)

Lemma getEventForUser_missing userId eventId s :
  findEvent s eventId = None ->
  getEventForUser userId eventId s = (Throw NOT_FOUND, s).
Proof. intros Hf. rewrite getEventForUser_run, Hf. reflexivity. Qed.

Section Missing.
Variables (context : ActionAPIContext) (uid eventId : string) (s : Store).
Hypothesis Hactor : actor context = Some uid.
Hypothesis Hmissing : findEvent s eventId = None.

Lemma updateEvent_missing rt raw input :
  updateEvent_input raw = Some input ->
  UpdateEventInput.id input = eventId ->
  updateEvent rt raw context s = (Throw NOT_FOUND, s).
Proof.
  intros Hin Hid. unfold updateEvent, defineAction. rewrite Hin.
  unfold updateEvent_handler. rewrite bind_run, (requireUser_actor _ _ _ Hactor).
  rewrite bind_run. simpl User.id. rewrite Hid.
  rewrite (getEventForUser_missing _ _ _ Hmissing). reflexivity.
Qed.

Lemma deleteEvent_missing raw :
  prop "id" raw = Some eventId ->
  deleteEvent raw context s = (Throw NOT_FOUND, s).
Proof.
  intros Hid. unfold deleteEvent, defineAction. rewrite (id_input_prop _ _ Hid).
  unfold deleteEvent_handler. rewrite bind_run, (requireUser_actor _ _ _ Hactor).
  rewrite bind_run. simpl.
  rewrite (getEventForUser_missing _ _ _ Hmissing). reflexivity.
Qed.

Lemma getEventWithDetails_missing raw :
  prop "id" raw = Some eventId ->
  getEventWithDetails raw context s = (Throw NOT_FOUND, s).
Proof.
  intros Hid. unfold getEventWithDetails, defineAction.
  rewrite (id_input_prop _ _ Hid).
  unfold getEventWithDetails_handler.
  rewrite bind_run, (requireUser_actor _ _ _ Hactor).
  rewrite bind_run. simpl.
  rewrite (getEventForUser_missing _ _ _ Hmissing). reflexivity.
Qed.

Lemma upsertEventTask_missing rt raw input :
  upsertEventTask_input raw = Some input ->
  UpsertEventTaskInput.eventId input = eventId ->
  upsertEventTask rt raw context s = (Throw NOT_FOUND, s).
Proof.
  intros Hin Hid. unfold upsertEventTask, defineAction. rewrite Hin.
  unfold upsertEventTask_handler. rewrite bind_run, (requireUser_actor _ _ _ Hactor).
  rewrite bind_run. simpl User.id. rewrite Hid.
  rewrite (getEventForUser_missing _ _ _ Hmissing). reflexivity.
Qed.

Lemma upsertEventGuest_missing rt raw input :
  upsertEventGuest_input raw = Some input ->
  UpsertEventGuestInput.eventId input = eventId ->
  upsertEventGuest rt raw context s = (Throw NOT_FOUND, s).
Proof.
  intros Hin Hid. unfold upsertEventGuest, defineAction. rewrite Hin.
  unfold upsertEventGuest_handler. rewrite bind_run, (requireUser_actor _ _ _ Hactor).
  rewrite bind_run. simpl User.id. rewrite Hid.
  rewrite (getEventForUser_missing _ _ _ Hmissing). reflexivity.
Qed.

End Missing.

(** A signed-in user who names an event that the store does not hold
    gets NOT_FOUND from each of the five actions that take an event's
    id, and the store is left as it was. *)
Theorem missing_event_is_not_found context uid eventId s :
  actor context = Some uid ->
  findEvent s eventId = None ->
  (forall rt raw input,
      updateEvent_input raw = Some input ->
      UpdateEventInput.id input = eventId ->
      updateEvent rt raw context s = (Throw NOT_FOUND, s)) /\
  (forall raw,
      prop "id" raw = Some eventId ->
      deleteEvent raw context s = (Throw NOT_FOUND, s)) /\
  (forall raw,
      prop "id" raw = Some eventId ->
      getEventWithDetails raw context s = (Throw NOT_FOUND, s)) /\
  (forall rt raw input,
      upsertEventTask_input raw = Some input ->
      UpsertEventTaskInput.eventId input = eventId ->
      upsertEventTask rt raw context s = (Throw NOT_FOUND, s)) /\
  (forall rt raw input,
      upsertEventGuest_input raw = Some input ->
      UpsertEventGuestInput.eventId input = eventId ->
      upsertEventGuest rt raw context s = (Throw NOT_FOUND, s)).
Proof.
  intros Ha Hf. split; [|split; [|split; [|split]]]; intros.
  - eapply updateEvent_missing; eauto.
  - eapply deleteEvent_missing; eauto.
  - eapply getEventWithDetails_missing; eauto.
  - eapply upsertEventTask_missing; eauto.
  - eapply upsertEventGuest_missing; eauto.
Qed.

Lemma upsertEventTask_handler_unknown rt input context uid s event id :
  actor context = Some uid ->
  findEvent s (UpsertEventTaskInput.eventId input) = Some event ->
  Events.ownerUserId event = uid ->
  given (UpsertEventTaskInput.id input) = Some id ->
  findTask s id = None ->
  upsertEventTask_handler rt input context s = (Throw NOT_FOUND, s).
Proof.
  intros Ha Hf Ho Hg Ht. unfold upsertEventTask_handler.
  rewrite bind_run, (requireUser_actor _ _ _ Ha).
  rewrite bind_run. simpl User.id.
  rewrite (getEventForUser_owner _ _ _ _ Hf Ho). rewrite Hg.
  rewrite bind_run. unfold db_select. cbv beta iota.
  unfold findTask in Ht. change (rows EventTasksT s) with (tasks s). rewrite Ht.
  reflexivity.
Qed.

Lemma upsertEventGuest_handler_unknown rt input context uid s event id :
  actor context = Some uid ->
  findEvent s (UpsertEventGuestInput.eventId input) = Some event ->
  Events.ownerUserId event = uid ->
  given (UpsertEventGuestInput.id input) = Some id ->
  findGuest s id = None ->
  upsertEventGuest_handler rt input context s = (Throw NOT_FOUND, s).
Proof.
  intros Ha Hf Ho Hg Ht. unfold upsertEventGuest_handler.
  rewrite bind_run, (requireUser_actor _ _ _ Ha).
  rewrite bind_run. simpl User.id.
  rewrite (getEventForUser_owner _ _ _ _ Hf Ho). rewrite Hg.
  rewrite bind_run. unfold db_select. cbv beta iota.
  unfold findGuest in Ht. change (rows EventGuestsT s) with (guests s). rewrite Ht.
  reflexivity.
Qed.

(** An upsert that carries a non-empty id which no row of the table has
    throws NOT_FOUND and writes nothing: an id sent by the caller never
    becomes the id of a new row. *)
Theorem upsert_unknown_id_is_not_found rt context uid s :
  actor context = Some uid ->
  (forall raw input event id,
      upsertEventTask_input raw = Some input ->
      findEvent s (UpsertEventTaskInput.eventId input) = Some event ->
      Events.ownerUserId event = uid ->
      UpsertEventTaskInput.id input = Some id ->
      id <> "" ->
      findTask s id = None ->
      upsertEventTask rt raw context s = (Throw NOT_FOUND, s)) /\
  (forall raw input event id,
      upsertEventGuest_input raw = Some input ->
      findEvent s (UpsertEventGuestInput.eventId input) = Some event ->
      Events.ownerUserId event = uid ->
      UpsertEventGuestInput.id input = Some id ->
      id <> "" ->
      findGuest s id = None ->
      upsertEventGuest rt raw context s = (Throw NOT_FOUND, s)).
Proof.
  intros Ha. split.
  - intros raw input event id Hin Hf Ho Hid Hne Ht.
    unfold upsertEventTask, defineAction. rewrite Hin.
    apply (upsertEventTask_handler_unknown _ _ _ _ _ _ id Ha Hf Ho); auto.
    rewrite Hid. apply given_truthy. exact Hne.
  - intros raw input event id Hin Hf Ho Hid Hne Ht.
    unfold upsertEventGuest, defineAction. rewrite Hin.
    apply (upsertEventGuest_handler_unknown _ _ _ _ _ _ id Ha Hf Ho); auto.
    rewrite Hid. apply given_truthy. exact Hne.
Qed.

(** ** Reading *)

Lemma getEventWithDetails_run context uid raw eventId s event :
  actor context = Some uid ->
  prop "id" raw = Some eventId ->
  findEvent s eventId = Some event ->
  Events.ownerUserId event = uid ->
  getEventWithDetails raw context s
  = (Ok {| d_event := event;
           d_tasks := filter (fun r => EventTasks.eventId r =? eventId) (tasks s);
           d_guests := filter (fun r => EventGuests.eventId r =? eventId) (guests s) |},
     s).
Proof.
  intros Ha Hid Hf Ho. unfold getEventWithDetails, defineAction.
  rewrite (id_input_prop _ _ Hid). unfold getEventWithDetails_handler.
  rewrite bind_run, (requireUser_actor _ _ _ Ha).
  rewrite bind_run. simpl User.id. simpl IdInput.id.
  rewrite (getEventForUser_owner _ _ _ _ Hf Ho). reflexivity.
Qed.

(** The owner of an event who asks for its details gets the event as
    stored, the tasks and the guests of the store that point to it, each
    list in the order of the store and with no row of another event, and
    the store is not written. *)
Theorem getEventWithDetails_returns_the_children context uid raw eventId s event :
  actor context = Some uid ->
  prop "id" raw = Some eventId ->
  findEvent s eventId = Some event ->
  Events.ownerUserId event = uid ->
  exists d,
    getEventWithDetails raw context s = (Ok d, s) /\
    d_event d = event /\
    d_tasks d = filter (fun r => EventTasks.eventId r =? eventId) (tasks s) /\
    d_guests d = filter (fun r => EventGuests.eventId r =? eventId) (guests s) /\
    (forall t, In t (d_tasks d) <-> In t (tasks s) /\ EventTasks.eventId t = eventId) /\
    (forall g, In g (d_guests d) <-> In g (guests s) /\ EventGuests.eventId g = eventId).
Proof.
  intros Ha Hid Hf Ho. eexists. split.
  { apply (getEventWithDetails_run _ _ _ _ _ _ Ha Hid Hf Ho). }
  simpl. repeat split; try reflexivity.
  - apply filter_In in H. destruct H as [H _]. exact H.
  - apply filter_In in H. destruct H as [_ H]. apply String.eqb_eq. exact H.
  - intros [H1 H2]. apply filter_In. split; [exact H1|]. apply String.eqb_eq. exact H2.
  - apply filter_In in H. destruct H as [H _]. exact H.
  - apply filter_In in H. destruct H as [_ H]. apply String.eqb_eq. exact H.
  - intros [H1 H2]. apply filter_In. split; [exact H1|]. apply String.eqb_eq. exact H2.
Qed.

Lemma event_status_truthy st : In st EVENT_STATUSES -> truthy st = true.
Proof.
  unfold EVENT_STATUSES. simpl.
  intros [<-|[<-|[<-|[<-|[]]]]]; reflexivity.
Qed.

Lemma z_enum_some values v st :
  z_enum values v = Some st -> v = Some st /\ In st values.
Proof.
  intros H. apply z_string_where_some in H. destruct H as [Hv He].
  split; [exact Hv|].
  apply existsb_exists in He. destruct He as (y & Hy & Hxy).
  apply String.eqb_eq in Hxy. subst y. exact Hy.
Qed.

Lemma listMyEvents_input_wanted raw input :
  listMyEvents_input raw = Some input ->
  match input with
  | Some i => ListMyEventsInput.status i
  | None => None
  end = wanted_status raw /\
  (forall st, wanted_status raw = Some st -> In st EVENT_STATUSES).
Proof.
  unfold listMyEvents_input, wanted_status. destruct raw as [o|].
  - destruct (optional (z_enum EVENT_STATUSES) (prop "status" o)) as [st|] eqn:E;
      [|discriminate].
    intros H. injection H as <-. simpl.
    unfold optional in E. destruct (prop "status" o) as [x|].
    + destruct (z_enum EVENT_STATUSES (Some x)) as [y|] eqn:Ez; [|discriminate].
      apply z_enum_some in Ez. destruct Ez as [Ex Hy]. injection Ex as <-.
      simpl in E. injection E as <-. split; [reflexivity|].
      intros st Hst. injection Hst as <-. exact Hy.
    + injection E as <-. split; [reflexivity|]. discriminate.
  - intros H. injection H as <-. split; [reflexivity|]. discriminate.
Qed.

Lemma listMyEvents_handler_run context uid input wanted s :
  actor context = Some uid ->
  match input with
  | Some i => ListMyEventsInput.status i
  | None => None
  end = wanted ->
  (forall st, wanted = Some st -> truthy st = true) ->
  listMyEvents_handler input context s
  = (Ok {| items := filter (selected uid wanted) (events s);
           total := List.length (filter (selected uid wanted) (events s)) |}, s).
Proof.
  intros Ha Hw Ht. unfold listMyEvents_handler.
  rewrite bind_run, (requireUser_actor _ _ _ Ha).
  simpl User.id. cbv zeta. rewrite Hw.
  destruct wanted as [st|].
  - rewrite (Ht st eq_refl). reflexivity.
  - unfold bind, db_select, ret. simpl.
    rewrite (filter_ext _ (selected uid None)); [reflexivity|].
    intros e. unfold selected. now rewrite andb_true_r.
Qed.

(** A signed-in user who lists events gets the events of the store that
    the user owns, in the order of the store, narrowed to one status when
    the input asks for one; an input that is left out altogether lists
    as the empty object does; [total] is the length of the list; no event
    of another owner is ever in it; and the store is not written. *)
Theorem listMyEvents_lists_own_events context uid raw s :
  actor context = Some uid ->
  parses (ListMyEvents raw) = true ->
  exists l,
    listMyEvents raw context s = (Ok l, s) /\
    items l = filter (selected uid (wanted_status raw)) (events s) /\
    total l = List.length (items l) /\
    (forall e, In e (items l) -> In e (events s) /\ Events.ownerUserId e = uid) /\
    (wanted_status raw = None ->
     forall e, In e (events s) -> Events.ownerUserId e = uid -> In e (items l)) /\
    listMyEvents None context s = listMyEvents (Some []) context s.
Proof.
  intros Ha Hp. simpl in Hp.
  destruct (listMyEvents_input raw) as [input|] eqn:Hin; [|discriminate].
  destruct (listMyEvents_input_wanted _ _ Hin) as [Hw He].
  eexists. split.
  { unfold listMyEvents. rewrite Hin.
    apply (listMyEvents_handler_run _ _ _ _ _ Ha Hw).
    intros st Hst. apply event_status_truthy. apply He. exact Hst. }
  simpl. split; [reflexivity|]. split; [reflexivity|]. split; [|split].
  - intros e Hin'. apply filter_In in Hin'. destruct Hin' as [Hl Hs].
    split; [exact Hl|]. unfold selected in Hs. apply andb_prop in Hs.
    destruct Hs as [Hs _]. apply String.eqb_eq. exact Hs.
  - intros Hnone e Hl Ho. apply filter_In. split; [exact Hl|].
    unfold selected. rewrite Hnone. apply String.eqb_eq in Ho. rewrite Ho.
    reflexivity.
  - reflexivity.
Qed.

(** ** Every write of every action *)

Lemma Events_set_keeps u : Events_keeps (Events_set u).
Proof. intros r. repeat split. Qed.

Lemma EventTasks_set_keeps u : EventTasks_keeps (EventTasks_set u).
Proof. intros r. repeat split. Qed.

Lemma EventGuests_set_keeps u : EventGuests_keeps (EventGuests_set u).
Proof. intros r. repeat split. Qed.

Lemma z_string_min1_nonempty v x : z_string_min1 v = Some x -> x <> "".
Proof.
  intros H. apply z_string_where_some in H. destruct H as [_ H].
  intros ->. discriminate.
Qed.

Lemma optional_min1_nonempty v o x :
  optional z_string_min1 v = Some o -> o = Some x -> x <> "".
Proof.
  unfold optional. destruct v as [y|].
  - destruct (z_string_min1 (Some y)) as [z|] eqn:Hz; [|discriminate].
    simpl. intros H ->. injection H as ->. apply (z_string_min1_nonempty _ _ Hz).
  - intros H ->. discriminate.
Qed.

Lemma optional_enum_enumerated values v o :
  optional (z_enum values) v = Some o -> enumerated values o.
Proof.
  unfold optional. destruct v as [y|].
  - destruct (z_enum values (Some y)) as [z|] eqn:Hz; [|discriminate].
    simpl. intros H. injection H as <-. intros x Hx. injection Hx as <-.
    apply z_enum_some in Hz. destruct Hz as [_ Hz]. exact Hz.
  - intros H. injection H as <-. intros x Hx. discriminate.
Qed.

Lemma default_enum_in values d v x :
  In d values -> default (z_enum values) d v = Some x -> In x values.
Proof.
  intros Hd. unfold default. destruct v as [y|].
  - intros H. apply z_enum_some in H. destruct H as [_ H]. exact H.
  - intros H. injection H as <-. exact Hd.
Qed.

Lemma createEvent_event_valid raw input now uuid user :
  createEvent_input raw = Some input ->
  Events_valid (createEvent_event now uuid user input).
Proof.
  unfold createEvent_input.
  destruct (z_string_min1 _) as [a1|] eqn:E1; [|discriminate].
  destruct (optional z_string (prop "description" raw)) as [a2|]; [|discriminate].
  destruct (optional z_datetime (prop "startDateTime" raw)) as [a3|]; [|discriminate].
  destruct (optional z_datetime (prop "endDateTime" raw)) as [a4|]; [|discriminate].
  destruct (optional z_string (prop "timeZone" raw)) as [a5|]; [|discriminate].
  destruct (optional z_string (prop "locationName" raw)) as [a6|]; [|discriminate].
  destruct (optional z_string (prop "locationAddress" raw)) as [a7|]; [|discriminate].
  destruct (optional z_url (prop "locationMapLink" raw)) as [a8|]; [|discriminate].
  destruct (default _ _ _) as [a9|] eqn:E9; [|discriminate].
  intros H. injection H as <-. split; simpl.
  - apply (z_string_min1_nonempty _ _ E1).
  - exists a9. split; [reflexivity|].
    apply (default_enum_in EVENT_STATUSES "planning" _ _ (or_introl eq_refl) E9).
Qed.

Lemma updateEvent_set_valid raw input now r :
  updateEvent_input raw = Some input ->
  Events_valid r ->
  Events_valid (Events_set (updateEvent_updates now input) r).
Proof.
  intros H. apply refine_some in H. destruct H as [H _].
  unfold updateEvent_object in H.
  destruct (z_string _) as [a0|]; [|discriminate].
  destruct (optional z_string_min1 _) as [a1|] eqn:E1; [|discriminate].
  destruct (optional z_string (prop "description" raw)) as [a2|]; [|discriminate].
  destruct (optional z_datetime (prop "startDateTime" raw)) as [a3|]; [|discriminate].
  destruct (optional z_datetime (prop "endDateTime" raw)) as [a4|]; [|discriminate].
  destruct (optional z_string (prop "timeZone" raw)) as [a5|]; [|discriminate].
  destruct (optional z_string (prop "locationName" raw)) as [a6|]; [|discriminate].
  destruct (optional z_string (prop "locationAddress" raw)) as [a7|]; [|discriminate].
  destruct (optional z_url (prop "locationMapLink" raw)) as [a8|]; [|discriminate].
  destruct (optional (z_enum EVENT_STATUSES) _) as [a9|] eqn:E9; [|discriminate].
  injection H as <-. intros (Ht & st & Hs & Hin). split; simpl.
  - destruct a1 as [t|]; simpl; [|exact Ht].
    apply (optional_min1_nonempty _ _ _ E1 eq_refl).
  - destruct a9 as [x|]; simpl.
    + exists x. split; [reflexivity|].
      apply (optional_enum_enumerated _ _ _ E9). reflexivity.
    + exists st. auto.
Qed.

Lemma upsertEventTask_input_valid raw input :
  upsertEventTask_input raw = Some input ->
  UpsertEventTaskInput.title input <> "" /\
  In (UpsertEventTaskInput.status input) TASK_STATUSES /\
  enumerated TASK_PRIORITIES (UpsertEventTaskInput.priority input).
Proof.
  unfold upsertEventTask_input.
  destruct (optional z_string (prop "id" raw)) as [a1|]; [|discriminate].
  destruct (z_string (prop "eventId" raw)) as [a2|]; [|discriminate].
  destruct (z_string_min1 _) as [a3|] eqn:E3; [|discriminate].
  destruct (optional z_string (prop "description" raw)) as [a4|]; [|discriminate].
  destruct (optional z_datetime _) as [a5|]; [|discriminate].
  destruct (default _ _ _) as [a6|] eqn:E6; [|discriminate].
  destruct (optional (z_enum TASK_PRIORITIES) _) as [a7|] eqn:E7; [|discriminate].
  destruct (optional z_string (prop "userId" raw)) as [a8|]; [|discriminate].
  intros H. injection H as <-. simpl. split; [|split].
  - apply (z_string_min1_nonempty _ _ E3).
  - apply (default_enum_in TASK_STATUSES "todo" _ _ (or_introl eq_refl) E6).
  - apply (optional_enum_enumerated _ _ _ E7).
Qed.

Lemma upsertEventGuest_input_valid raw input :
  upsertEventGuest_input raw = Some input ->
  UpsertEventGuestInput.name input <> "" /\
  enumerated RSVP_STATUSES (UpsertEventGuestInput.rsvpStatus input).
Proof.
  unfold upsertEventGuest_input.
  destruct (optional z_string (prop "id" raw)) as [a1|]; [|discriminate].
  destruct (z_string (prop "eventId" raw)) as [a2|]; [|discriminate].
  destruct (z_string_min1 _) as [a3|] eqn:E3; [|discriminate].
  destruct (optional z_email _) as [a4|]; [|discriminate].
  destruct (optional z_string (prop "phone" raw)) as [a5|]; [|discriminate].
  destruct (optional (z_enum RSVP_STATUSES) _) as [a6|] eqn:E6; [|discriminate].
  destruct (optional z_string (prop "notes" raw)) as [a7|]; [|discriminate].
  destruct (optional z_datetime (prop "invitedAt" raw)) as [a8|]; [|discriminate].
  destruct (optional z_datetime (prop "respondedAt" raw)) as [a9|]; [|discriminate].
  intros H. injection H as <-. simpl. split.
  - apply (z_string_min1_nonempty _ _ E3).
  - apply (optional_enum_enumerated _ _ _ E6).
Qed.

Lemma set_col_keyed_enumerated values (v old : option string) :
  enumerated values v -> enumerated values old ->
  enumerated values (set_col (keyed v) old).
Proof.
  intros Hv Ho. destruct v as [x|]; simpl; [exact Hv|].
  destruct set_skips_undefined; [exact Ho|]. intros x Hx. discriminate.
Qed.

Lemma upsertEventTask_set_valid raw input now existing r :
  upsertEventTask_input raw = Some input ->
  EventTasks_valid r ->
  EventTasks_valid (EventTasks_set (upsertEventTask_updates now input existing) r).
Proof.
  intros Hin (Ht & Hs & Hp).
  destruct (upsertEventTask_input_valid _ _ Hin) as (V1 & V2 & V3).
  split; [exact V1|split].
  - exists (UpsertEventTaskInput.status input). split; [reflexivity|exact V2].
  - apply set_col_keyed_enumerated; assumption.
Qed.

Lemma upsertEventTask_task_valid raw input now uuid event :
  upsertEventTask_input raw = Some input ->
  EventTasks_valid (upsertEventTask_task now uuid event input).
Proof.
  intros Hin. destruct (upsertEventTask_input_valid _ _ Hin) as (V1 & V2 & V3).
  split; [exact V1|split; [|exact V3]].
  exists (UpsertEventTaskInput.status input). split; [reflexivity|exact V2].
Qed.

Lemma upsertEventGuest_set_valid raw input r :
  upsertEventGuest_input raw = Some input ->
  EventGuests_valid r ->
  EventGuests_valid (EventGuests_set (upsertEventGuest_updates input) r).
Proof.
  intros Hin (Hn & Hr).
  destruct (upsertEventGuest_input_valid _ _ Hin) as (V1 & V2).
  split; [exact V1|]. apply set_col_keyed_enumerated; assumption.
Qed.

Lemma upsertEventGuest_guest_valid raw input now uuid event :
  upsertEventGuest_input raw = Some input ->
  EventGuests_valid (upsertEventGuest_guest now uuid event input).
Proof.
  intros Hin. destruct (upsertEventGuest_input_valid _ _ Hin) as (V1 & V2).
  split; assumption.
Qed.


Lemma createEvent_effect rt raw context s :
  left_or_written rt context s (createEvent rt raw context s).
Proof.
  unfold createEvent, defineAction.
  destruct (createEvent_input raw) as [input|] eqn:Hin; [|left; reflexivity].
  unfold createEvent_handler. rewrite bind_run, requireUser_run.
  destruct (actor context) as [uid|] eqn:Ha; [|left; reflexivity].
  cbv zeta. rewrite bind_run, db_insert_run.
  destruct (first _) as [x|] eqn:Hf; [left; reflexivity|].
  change (parent_there EventsT
            (createEvent_event (now rt) (randomUUID rt) {| User.id := uid |} input) s)
    with true. cbv iota.
  right. split; [eexists; reflexivity|].
  exists uid. split; [exact Ha|].
  apply (W_insert_event uid rt s
           (createEvent_event (now rt) (randomUUID rt) {| User.id := uid |} input));
    [reflexivity|reflexivity|exact Hf|].
  apply (createEvent_event_valid _ _ _ _ _ Hin).
Qed.

Lemma updateEvent_effect rt raw context s :
  left_or_written rt context s (updateEvent rt raw context s).
Proof.
  unfold updateEvent, defineAction.
  destruct (updateEvent_input raw) as [input|] eqn:Hin; [|left; reflexivity].
  unfold updateEvent_handler. rewrite bind_run, requireUser_run.
  destruct (actor context) as [uid|] eqn:Ha; [|left; reflexivity].
  rewrite bind_run, getEventForUser_run. simpl User.id.
  destruct (findEvent s (UpdateEventInput.id input)) as [existing|] eqn:Hf;
    [|left; reflexivity].
  destruct (Events.ownerUserId existing =? uid) eqn:Ho; [|left; reflexivity].
  apply String.eqb_eq in Ho.
  right. split; [eexists; reflexivity|].
  exists uid. split; [exact Ha|].
  apply (W_update_event uid rt s (UpdateEventInput.id input) existing
           (Events_set (updateEvent_updates (now rt) input)) Hf Ho).
  - apply Events_set_keeps.
  - intros r. apply (updateEvent_set_valid _ _ _ _ Hin).
Qed.

Lemma deleteEvent_effect rt raw context s :
  left_or_written rt context s (deleteEvent raw context s).
Proof.
  unfold deleteEvent, defineAction.
  destruct (id_input raw) as [[id]|]; [|left; reflexivity].
  destruct (actor context) as [uid|] eqn:Ha.
  - destruct (findEvent s id) as [existing|] eqn:Hf.
    + destruct (String.eqb_spec (Events.ownerUserId existing) uid) as [Ho|Ho].
      * rewrite (deleteEvent_handler_owner _ _ _ _ _ Ha Hf Ho).
        destruct (has_children s id); [left; reflexivity|].
        right. split; [eexists; reflexivity|].
        exists uid. split; [exact Ha|].
        apply (W_delete_event uid rt s id existing Hf Ho).
      * left. unfold deleteEvent_handler.
        rewrite bind_run, (requireUser_actor _ _ _ Ha).
        rewrite bind_run. simpl User.id. simpl IdInput.id.
        rewrite (getEventForUser_forbidden _ _ _ _ Hf Ho). reflexivity.
    + left. unfold deleteEvent_handler.
      rewrite bind_run, (requireUser_actor _ _ _ Ha).
      rewrite bind_run. simpl User.id. simpl IdInput.id.
      rewrite getEventForUser_run, Hf. reflexivity.
  - left. unfold deleteEvent_handler.
    rewrite bind_run, (requireUser_anonymous _ _ Ha). reflexivity.
Qed.

Lemma listMyEvents_reads raw context s :
  snd (listMyEvents raw context s) = s.
Proof.
  unfold listMyEvents.
  destruct (listMyEvents_input raw) as [input|]; [|reflexivity].
  unfold listMyEvents_handler. rewrite bind_run, requireUser_run.
  destruct (actor context) as [uid|]; reflexivity.
Qed.

Lemma getEventWithDetails_reads raw context s :
  snd (getEventWithDetails raw context s) = s.
Proof.
  unfold getEventWithDetails, defineAction.
  destruct (id_input raw) as [[id]|]; [|reflexivity].
  unfold getEventWithDetails_handler. rewrite bind_run, requireUser_run.
  destruct (actor context) as [uid|]; [|reflexivity].
  rewrite bind_run, getEventForUser_run. simpl User.id. simpl IdInput.id.
  destruct (findEvent s id) as [existing|]; [|reflexivity].
  destruct (Events.ownerUserId existing =? uid); reflexivity.
Qed.

Lemma upsertEventTask_effect rt raw context s :
  left_or_written rt context s (upsertEventTask rt raw context s).
Proof.
  unfold upsertEventTask, defineAction.
  destruct (upsertEventTask_input raw) as [input|] eqn:Hin; [|left; reflexivity].
  unfold upsertEventTask_handler. rewrite bind_run, requireUser_run.
  destruct (actor context) as [uid|] eqn:Ha; [|left; reflexivity].
  rewrite bind_run, getEventForUser_run. simpl User.id.
  destruct (findEvent s (UpsertEventTaskInput.eventId input)) as [event|] eqn:Hf;
    [|left; reflexivity].
  destruct (Events.ownerUserId event =? uid) eqn:Ho; [|left; reflexivity].
  apply String.eqb_eq in Ho. pose proof (findEvent_id _ _ _ Hf) as Hid.
  cbv zeta. destruct (given (UpsertEventTaskInput.id input)) as [id|].
  - rewrite bind_run. unfold db_select. cbv beta iota.
    change (rows EventTasksT s) with (tasks s).
    destruct (first (filter (fun r => EventTasks.id r =? id) (tasks s)))
      as [existing|] eqn:Ht; [|left; reflexivity].
    destruct (EventTasks.eventId existing =? Events.id event) eqn:He;
      [|left; reflexivity].
    apply String.eqb_eq in He.
    right. split; [eexists; reflexivity|].
    exists uid. split; [exact Ha|].
    apply (W_update_task uid rt s id existing event
             (EventTasks_set (upsertEventTask_updates (now rt) input existing)) Ht).
    + rewrite He, Hid. exact Hf.
    + exact Ho.
    + apply EventTasks_set_keeps.
    + intros r. apply (upsertEventTask_set_valid _ _ _ _ _ Hin).
  - rewrite bind_run, db_insert_run.
    destruct (first _) as [x|] eqn:Hn; [left; reflexivity|].
    change (parent_there EventTasksT
              (upsertEventTask_task (now rt) (randomUUID rt) event input) s)
      with (existsb (fun e => Events.id e =? Events.id event) (events s)).
    rewrite (parent_found _ _ _ Hf).
    right. split; [eexists; reflexivity|].
    exists uid. split; [exact Ha|].
    apply (W_insert_task uid rt s
             (upsertEventTask_task (now rt) (randomUUID rt) event input) event).
    + reflexivity.
    + simpl. rewrite Hid. exact Hf.
    + exact Ho.
    + exact Hn.
    + apply (upsertEventTask_task_valid _ _ _ _ _ Hin).
Qed.

Lemma upsertEventGuest_effect rt raw context s :
  left_or_written rt context s (upsertEventGuest rt raw context s).
Proof.
  unfold upsertEventGuest, defineAction.
  destruct (upsertEventGuest_input raw) as [input|] eqn:Hin; [|left; reflexivity].
  unfold upsertEventGuest_handler. rewrite bind_run, requireUser_run.
  destruct (actor context) as [uid|] eqn:Ha; [|left; reflexivity].
  rewrite bind_run, getEventForUser_run. simpl User.id.
  destruct (findEvent s (UpsertEventGuestInput.eventId input)) as [event|] eqn:Hf;
    [|left; reflexivity].
  destruct (Events.ownerUserId event =? uid) eqn:Ho; [|left; reflexivity].
  apply String.eqb_eq in Ho. pose proof (findEvent_id _ _ _ Hf) as Hid.
  cbv zeta. destruct (given (UpsertEventGuestInput.id input)) as [id|].
  - rewrite bind_run. unfold db_select. cbv beta iota.
    change (rows EventGuestsT s) with (guests s).
    destruct (first (filter (fun r => EventGuests.id r =? id) (guests s)))
      as [existing|] eqn:Ht; [|left; reflexivity].
    destruct (EventGuests.eventId existing =? Events.id event) eqn:He;
      [|left; reflexivity].
    apply String.eqb_eq in He.
    right. split; [eexists; reflexivity|].
    exists uid. split; [exact Ha|].
    apply (W_update_guest uid rt s id existing event
             (EventGuests_set (upsertEventGuest_updates input)) Ht).
    + rewrite He, Hid. exact Hf.
    + exact Ho.
    + apply EventGuests_set_keeps.
    + intros r. apply (upsertEventGuest_set_valid _ _ _ Hin).
  - rewrite bind_run, db_insert_run.
    destruct (first _) as [x|] eqn:Hn; [left; reflexivity|].
    change (parent_there EventGuestsT
              (upsertEventGuest_guest (now rt) (randomUUID rt) event input) s)
      with (existsb (fun e => Events.id e =? Events.id event) (events s)).
    rewrite (parent_found _ _ _ Hf).
    right. split; [eexists; reflexivity|].
    exists uid. split; [exact Ha|].
    apply (W_insert_guest uid rt s
             (upsertEventGuest_guest (now rt) (randomUUID rt) event input) event).
    + reflexivity.
    + simpl. rewrite Hid. exact Hf.
    + exact Ho.
    + exact Hn.
    + apply (upsertEventGuest_guest_valid _ _ _ _ _ Hin).
Qed.

Lemma deleteEventTask_effect rt raw context s :
  left_or_written rt context s (deleteEventTask raw context s).
Proof.
  unfold deleteEventTask, defineAction.
  destruct (id_input raw) as [[id]|]; [|left; reflexivity].
  destruct (actor context) as [uid|] eqn:Ha.
  - rewrite (deleteEventTask_handler_run _ _ _ _ Ha).
    destruct (findTask s id) as [existing|] eqn:Ht; [|left; reflexivity].
    rewrite getEventForUser_run.
    destruct (findEvent s (EventTasks.eventId existing)) as [event|] eqn:Hf;
      [|left; reflexivity].
    destruct (Events.ownerUserId event =? uid) eqn:Ho; [|left; reflexivity].
    apply String.eqb_eq in Ho.
    right. split; [eexists; reflexivity|].
    exists uid. split; [exact Ha|].
    apply (W_delete_task uid rt s id existing event Ht Hf Ho).
  - left. unfold deleteEventTask_handler.
    rewrite bind_run, (requireUser_anonymous _ _ Ha). reflexivity.
Qed.

Lemma deleteEventGuest_effect rt raw context s :
  left_or_written rt context s (deleteEventGuest raw context s).
Proof.
  unfold deleteEventGuest, defineAction.
  destruct (id_input raw) as [[id]|]; [|left; reflexivity].
  destruct (actor context) as [uid|] eqn:Ha.
  - rewrite (deleteEventGuest_handler_run _ _ _ _ Ha).
    destruct (findGuest s id) as [existing|] eqn:Ht; [|left; reflexivity].
    rewrite getEventForUser_run.
    destruct (findEvent s (EventGuests.eventId existing)) as [event|] eqn:Hf;
      [|left; reflexivity].
    destruct (Events.ownerUserId event =? uid) eqn:Ho; [|left; reflexivity].
    apply String.eqb_eq in Ho.
    right. split; [eexists; reflexivity|].
    exists uid. split; [exact Ha|].
    apply (W_delete_guest uid rt s id existing event Ht Hf Ho).
  - left. unfold deleteEventGuest_handler.
    rewrite bind_run, (requireUser_anonymous _ _ Ha). reflexivity.
Qed.

(** Whatever the call: the store is left as found, or the call returned
    and made one write for the signed-in user. *)
Lemma server_effect rt call context s :
  snd (server rt call context s) = s \/
  (fst (server rt call context s) = None /\
   exists uid, actor context = Some uid /\
               Write uid rt s (snd (server rt call context s))).
Proof.
  assert (Hgen : forall A (r : Result A * Store),
             left_or_written rt context s r ->
             snd (outcome r) = s \/
             (fst (outcome r) = None /\
              exists uid, actor context = Some uid /\ Write uid rt s (snd (outcome r)))).
  { intros A [res s'] [H|[[a Ha] H]]; simpl in *.
    - left. exact H.
    - right. subst res. split; [reflexivity|exact H]. }
  destruct call; simpl; try apply Hgen.
  - apply createEvent_effect.
  - apply updateEvent_effect.
  - apply deleteEvent_effect.
  - left. apply listMyEvents_reads.
  - left. apply getEventWithDetails_reads.
  - apply upsertEventTask_effect.
  - apply deleteEventTask_effect.
  - apply upsertEventGuest_effect.
  - apply deleteEventGuest_effect.
Qed.

(** ** What the writes keep *)

Lemma map_update_keeps {A B} (g : A -> B) (p : A -> bool) (f : A -> A) l :
  (forall r, g (f r) = g r) ->
  map g (map (fun r => if p r then f r else r) l) = map g l.
Proof.
  intros Hg. induction l as [|x l IH]; [reflexivity|].
  simpl. rewrite IH. destruct (p x); [rewrite Hg|]; reflexivity.
Qed.

Lemma NoDup_map_filter {A B} (g : A -> B) (p : A -> bool) l :
  NoDup (map g l) -> NoDup (map g (filter p l)).
Proof.
  induction l as [|x l IH]; [intros H; exact H|].
  simpl. intros H. inversion H as [|y ys Hn Hd]; subst.
  destruct (p x); [|apply IH; exact Hd].
  simpl. constructor; [|apply IH; exact Hd].
  intros Hin. apply Hn. apply in_map_iff in Hin. destruct Hin as (r & Hr & Hin).
  apply in_map_iff. exists r. split; [exact Hr|].
  apply filter_In in Hin. destruct Hin as [Hin _]. exact Hin.
Qed.

Lemma Write_keys_unique uid rt s s' :
  Write uid rt s s' -> keys_unique s -> keys_unique s'.
Proof.
  intros W (He & Ht & Hg). destruct W; unfold keys_unique; simpl.
  - split; [|split; assumption].
    apply NoDup_ids_app; [|exact He]. apply not_in_ids. assumption.
  - split; [|split; assumption].
    rewrite map_update_keeps; [exact He|]. intros r. apply H1.
  - split; [|split]; apply NoDup_map_filter; assumption.
  - split; [exact He|split; [|exact Hg]].
    apply NoDup_ids_app; [|exact Ht]. apply not_in_ids. assumption.
  - split; [exact He|split; [|exact Hg]].
    rewrite map_update_keeps; [exact Ht|]. intros r. apply H2.
  - split; [exact He|split; [|exact Hg]]. apply NoDup_map_filter. exact Ht.
  - split; [exact He|split; [exact Ht|]].
    apply NoDup_ids_app; [|exact Hg]. apply not_in_ids. assumption.
  - split; [exact He|split; [exact Ht|]].
    rewrite map_update_keeps; [exact Hg|]. intros r. apply H2.
  - split; [exact He|split; [exact Ht|]]. apply NoDup_map_filter. exact Hg.
Qed.

Lemma found_event_in s x e :
  findEvent s x = Some e -> In e (events s) /\ Events.id e = x.
Proof.
  intros H. apply first_filter_found in H. destruct H as [Hp Hin].
  split; [exact Hin|]. apply String.eqb_eq. exact Hp.
Qed.

Lemma in_update {A} (p : A -> bool) (f : A -> A) l r :
  In r (map (fun r => if p r then f r else r) l) ->
  exists r0, In r0 l /\ (r = r0 \/ r = f r0).
Proof.
  intros H. apply in_map_iff in H. destruct H as (r0 & Hr & Hin).
  exists r0. split; [exact Hin|]. destruct (p r0); auto.
Qed.

Lemma update_in {A} (p : A -> bool) (f : A -> A) l r :
  In r l -> In (if p r then f r else r) (map (fun r => if p r then f r else r) l).
Proof. intros H. apply in_map_iff. exists r. split; [reflexivity|exact H]. Qed.

Lemma Write_no_orphans uid rt s s' :
  Write uid rt s s' -> no_orphans s -> no_orphans s'.
Proof.
  intros W (Ht & Hg). destruct W; unfold no_orphans; simpl.
  - split; intros r Hr; [destruct (Ht r Hr) as (p & Hp & Hid)
                        |destruct (Hg r Hr) as (p & Hp & Hid)];
      exists p; (split; [apply in_or_app; left; exact Hp|exact Hid]).
  - split; intros r Hr; [destruct (Ht r Hr) as (p & Hp & Hid)
                        |destruct (Hg r Hr) as (p & Hp & Hid)];
      exists (if Events.id p =? x then f p else p);
      (split; [apply (update_in (fun r => Events.id r =? x) f _ p Hp)|]);
      (destruct (Events.id p =? x); [rewrite (proj1 (H1 p))|]; exact Hid).
  - split; intros r Hr; apply filter_In in Hr; destruct Hr as [Hr Hne];
      [destruct (Ht r Hr) as (p & Hp & Hid)|destruct (Hg r Hr) as (p & Hp & Hid)];
      exists p; (split; [|exact Hid]); apply filter_In; (split; [exact Hp|]);
      rewrite Hid; exact Hne.
  - split; [|exact Hg]. intros r Hr. apply in_app_or in Hr.
    destruct Hr as [Hr|[<-|[]]]; [apply Ht; exact Hr|].
    apply found_event_in in H0. destruct H0 as [Hin Hid]. exists e. auto.
  - split; [|exact Hg]. intros r Hr. apply in_update in Hr.
    destruct Hr as (r0 & Hin & [->| ->]); [apply Ht; exact Hin|].
    destruct (Ht r0 Hin) as (p & Hp & Hid). exists p. split; [exact Hp|].
    rewrite Hid. symmetry. apply H2.
  - split; [|exact Hg]. intros r Hr. apply filter_In in Hr.
    destruct Hr as [Hr _]. apply Ht. exact Hr.
  - split; [exact Ht|]. intros r Hr. apply in_app_or in Hr.
    destruct Hr as [Hr|[<-|[]]]; [apply Hg; exact Hr|].
    apply found_event_in in H0. destruct H0 as [Hin Hid]. exists e. auto.
  - split; [exact Ht|]. intros r Hr. apply in_update in Hr.
    destruct Hr as (r0 & Hin & [->| ->]); [apply Hg; exact Hin|].
    destruct (Hg r0 Hin) as (p & Hp & Hid). exists p. split; [exact Hp|].
    rewrite Hid. symmetry. apply H2.
  - split; [exact Ht|]. intros r Hr. apply filter_In in Hr.
    destruct Hr as [Hr _]. apply Hg. exact Hr.
Qed.

Lemma server_keys_unique rt call context s :
  keys_unique s -> keys_unique (snd (server rt call context s)).
Proof.
  intros Hk. destruct (server_effect rt call context s) as [->|(_ & uid & _ & W)].
  - exact Hk.
  - exact (Write_keys_unique _ _ _ _ W Hk).
Qed.

Lemma server_no_orphans rt call context s :
  no_orphans s -> no_orphans (snd (server rt call context s)).
Proof.
  intros Hk. destruct (server_effect rt call context s) as [->|(_ & uid & _ & W)].
  - exact Hk.
  - exact (Write_no_orphans _ _ _ _ W Hk).
Qed.

Lemma emptyStore_keys_unique : keys_unique emptyStore.
Proof. repeat split; constructor. Qed.

Lemma emptyStore_no_orphans : no_orphans emptyStore.
Proof. split; intros r []. Qed.

(** A call that throws has written nothing: whatever the action, the
    input, the user and the store, an error code comes with the store as
    it was found. *)
Theorem a_throw_writes_nothing rt call context s e s' :
  server rt call context s = (Some e, s') -> s' = s.
Proof.
  intros H. destruct (server_effect rt call context s) as [Hs|(Hn & _)].
  - rewrite H in Hs. exact Hs.
  - rewrite H in Hn. discriminate.
Qed.

(** However many requests are served, by whomever and with whatever
    inputs, primary keys stay unique: a store in which no two events, no
    two tasks and no two guests share an id is still such a store after
    the requests, and so is every store that the requests build from the
    empty one. *)
Theorem serve_keeps_keys_unique requests :
  (forall s, keys_unique s -> keys_unique (serve requests s)) /\
  keys_unique (serve requests emptyStore).
Proof.
  assert (H : forall s, keys_unique s -> keys_unique (serve requests s)).
  { induction requests as [|r rest IH]; intros s Hk; [exact Hk|].
    simpl. apply IH. apply server_keys_unique. exact Hk. }
  split; [exact H|]. apply H. apply emptyStore_keys_unique.
Qed.

(** However many requests are served, no task and no guest is left
    without its event: if every child row points to an event of the
    store before, so it does after, and the stores built from the empty
    one never hold an orphan. *)
Theorem serve_keeps_no_orphans requests :
  (forall s, no_orphans s -> no_orphans (serve requests s)) /\
  no_orphans (serve requests emptyStore).
Proof.
  assert (H : forall s, no_orphans s -> no_orphans (serve requests s)).
  { induction requests as [|r rest IH]; intros s Hk; [exact Hk|].
    simpl. apply IH. apply server_no_orphans. exact Hk. }
  split; [exact H|]. apply H. apply emptyStore_no_orphans.
Qed.

Lemma Forall_insert {A} (P : A -> Prop) l x :
  Forall P l -> P x -> Forall P (l ++ [x]).
Proof. intros Hl Hx. apply Forall_app. split; [exact Hl|]. constructor; auto. Qed.

Lemma Forall_update {A} (P : A -> Prop) (p : A -> bool) (f : A -> A) l :
  (forall r, P r -> P (f r)) ->
  Forall P l -> Forall P (map (fun r => if p r then f r else r) l).
Proof.
  intros Hf Hl. induction Hl as [|x l Hx Hl IH]; simpl; constructor; [|exact IH].
  destruct (p x); auto.
Qed.

Lemma Forall_delete {A} (P : A -> Prop) (p : A -> bool) l :
  Forall P l -> Forall P (filter p l).
Proof.
  intros Hl. apply Forall_forall. intros x Hx. apply filter_In in Hx.
  destruct Hx as [Hx _]. revert x Hx. apply Forall_forall. exact Hl.
Qed.

Lemma Write_rows_valid uid rt s s' :
  Write uid rt s s' -> rows_valid s -> rows_valid s'.
Proof.
  intros W (He & Ht & Hg). destruct W; unfold rows_valid; simpl.
  - split; [|split; assumption]. apply Forall_insert; assumption.
  - split; [|split; assumption]. apply Forall_update; assumption.
  - split; [|split]; apply Forall_delete; assumption.
  - split; [exact He|split; [|exact Hg]]. apply Forall_insert; assumption.
  - split; [exact He|split; [|exact Hg]]. apply Forall_update; assumption.
  - split; [exact He|split; [|exact Hg]]. apply Forall_delete; assumption.
  - split; [exact He|split; [exact Ht|]]. apply Forall_insert; assumption.
  - split; [exact He|split; [exact Ht|]]. apply Forall_update; assumption.
  - split; [exact He|split; [exact Ht|]]. apply Forall_delete; assumption.
Qed.

Lemma server_rows_valid rt call context s :
  rows_valid s -> rows_valid (snd (server rt call context s)).
Proof.
  intros Hk. destruct (server_effect rt call context s) as [->|(_ & uid & _ & W)].
  - exact Hk.
  - exact (Write_rows_valid _ _ _ _ W Hk).
Qed.

(** The schemas guard the rows for good: through any number of
    requests every event keeps a non-empty title and a status of
    EVENT_STATUSES, every task a non-empty title, a status of
    TASK_STATUSES and a priority that is absent or of TASK_PRIORITIES,
    and every guest a non-empty name and an rsvpStatus that is absent or
    of RSVP_STATUSES; the stores built from the empty one hold only such
    rows. *)
Theorem serve_keeps_rows_valid requests :
  (forall s, rows_valid s -> rows_valid (serve requests s)) /\
  rows_valid (serve requests emptyStore).
Proof.
  assert (H : forall s, rows_valid s -> rows_valid (serve requests s)).
  { induction requests as [|r rest IH]; intros s Hk; [exact Hk|].
    simpl. apply IH. apply server_rows_valid. exact Hk. }
  split; [exact H|]. apply H. repeat split; constructor.
Qed.

(** ** Where a row comes from, and whose rows a call may touch *)

Lemma Write_origin uid rt s s' :
  Write uid rt s s' ->
  (forall e', In e' (events s') ->
     (exists e, In e (events s) /\ Events.id e = Events.id e' /\
                Events.ownerUserId e = Events.ownerUserId e' /\
                Events.createdAt e = Events.createdAt e') \/
     (Events.id e' = randomUUID rt /\ Events.ownerUserId e' = uid /\
      ~ In (Events.id e') (map Events.id (events s)))) /\
  (forall t', In t' (tasks s') ->
     (exists t, In t (tasks s) /\ EventTasks.id t = EventTasks.id t' /\
                EventTasks.eventId t = EventTasks.eventId t' /\
                EventTasks.createdAt t = EventTasks.createdAt t') \/
     (EventTasks.id t' = randomUUID rt /\
      ~ In (EventTasks.id t') (map EventTasks.id (tasks s)))) /\
  (forall g', In g' (guests s') ->
     (exists g, In g (guests s) /\ EventGuests.id g = EventGuests.id g' /\
                EventGuests.eventId g = EventGuests.eventId g' /\
                EventGuests.createdAt g = EventGuests.createdAt g') \/
     (EventGuests.id g' = randomUUID rt /\
      ~ In (EventGuests.id g') (map EventGuests.id (guests s)))).
Proof.
  assert (Se : forall l (e' : Events.row), In e' l ->
             exists e, In e l /\ Events.id e = Events.id e' /\
                       Events.ownerUserId e = Events.ownerUserId e' /\
                       Events.createdAt e = Events.createdAt e')
    by (intros l e' H; exists e'; auto).
  assert (St : forall l (t' : EventTasks.row), In t' l ->
             exists t, In t l /\ EventTasks.id t = EventTasks.id t' /\
                       EventTasks.eventId t = EventTasks.eventId t' /\
                       EventTasks.createdAt t = EventTasks.createdAt t')
    by (intros l t' H; exists t'; auto).
  assert (Sg : forall l (g' : EventGuests.row), In g' l ->
             exists g, In g l /\ EventGuests.id g = EventGuests.id g' /\
                       EventGuests.eventId g = EventGuests.eventId g' /\
                       EventGuests.createdAt g = EventGuests.createdAt g')
    by (intros l g' H; exists g'; auto).
  intros W. destruct W; simpl.
  - split; [|split; intros r Hr; left; auto].
    intros r Hr. apply in_app_or in Hr. destruct Hr as [Hr|[<-|[]]]; [left; auto|].
    right. split; [assumption|]. split; [assumption|]. apply not_in_ids. assumption.
  - split; [|split; intros r Hr; left; auto].
    intros r Hr. left. apply in_update in Hr. destruct Hr as (r0 & Hin & [->| ->]); auto.
    exists r0. split; [exact Hin|]. destruct (H1 r0) as (K1 & K2 & K3). auto.
  - split; [|split]; intros r Hr; left; apply filter_In in Hr; destruct Hr as [Hr _];
      auto.
  - split; [intros r Hr; left; auto|split; [|intros r Hr; left; auto]].
    intros r Hr. apply in_app_or in Hr. destruct Hr as [Hr|[<-|[]]]; [left; auto|].
    right. split; [assumption|]. apply not_in_ids. assumption.
  - split; [intros r Hr; left; auto|split; [|intros r Hr; left; auto]].
    intros r Hr. left. apply in_update in Hr. destruct Hr as (r0 & Hin & [->| ->]); auto.
    exists r0. split; [exact Hin|]. destruct (H2 r0) as (K1 & K2 & K3). auto.
  - split; [intros r Hr; left; auto|split; [|intros r Hr; left; auto]].
    intros r Hr. left. apply filter_In in Hr. destruct Hr as [Hr _]. auto.
  - split; [intros r Hr; left; auto|split; [intros r Hr; left; auto|]].
    intros r Hr. apply in_app_or in Hr. destruct Hr as [Hr|[<-|[]]]; [left; auto|].
    right. split; [assumption|]. apply not_in_ids. assumption.
  - split; [intros r Hr; left; auto|split; [intros r Hr; left; auto|]].
    intros r Hr. left. apply in_update in Hr. destruct Hr as (r0 & Hin & [->| ->]); auto.
    exists r0. split; [exact Hin|]. destruct (H2 r0) as (K1 & K2 & K3). auto.
  - split; [intros r Hr; left; auto|split; [intros r Hr; left; auto|]].
    intros r Hr. left. apply filter_In in Hr. destruct Hr as [Hr _]. auto.
Qed.

(** Every row of the store after a call was there before with the same
    id and the same creation time, an event with the same owner, a task
    or a guest with the same [eventId], or it is the one row the call
    created, under the id the runtime generated, an id no row of the
    table had, and, for an event, owned by the user who made the call.
    So no call changes the owner of an event, moves a task or a guest to
    another event, or rewrites a [createdAt]. *)
Theorem rows_keep_their_origin rt call context s :
  (forall e', In e' (events (snd (server rt call context s))) ->
     (exists e, In e (events s) /\ Events.id e = Events.id e' /\
                Events.ownerUserId e = Events.ownerUserId e' /\
                Events.createdAt e = Events.createdAt e') \/
     (Events.id e' = randomUUID rt /\
      actor context = Some (Events.ownerUserId e') /\
      ~ In (Events.id e') (map Events.id (events s)))) /\
  (forall t', In t' (tasks (snd (server rt call context s))) ->
     (exists t, In t (tasks s) /\ EventTasks.id t = EventTasks.id t' /\
                EventTasks.eventId t = EventTasks.eventId t' /\
                EventTasks.createdAt t = EventTasks.createdAt t') \/
     (EventTasks.id t' = randomUUID rt /\
      ~ In (EventTasks.id t') (map EventTasks.id (tasks s)))) /\
  (forall g', In g' (guests (snd (server rt call context s))) ->
     (exists g, In g (guests s) /\ EventGuests.id g = EventGuests.id g' /\
                EventGuests.eventId g = EventGuests.eventId g' /\
                EventGuests.createdAt g = EventGuests.createdAt g') \/
     (EventGuests.id g' = randomUUID rt /\
      ~ In (EventGuests.id g') (map EventGuests.id (guests s)))).
Proof.
  destruct (server_effect rt call context s) as [->|(_ & uid & Ha & W)].
  - split; [|split]; intros r Hr; left; exists r; auto.
  - destruct (Write_origin _ _ _ _ W) as (He & Ht & Hg).
    split; [|split; assumption].
    intros e' Hin. destruct (He e' Hin) as [H|(H1 & H2 & H3)]; [left; exact H|].
    right. split; [exact H1|]. split; [|exact H3]. rewrite H2. exact Ha.
Qed.

Lemma unique_first {A} (id_of : A -> string) l x e :
  NoDup (map id_of l) ->
  first (filter (fun r => id_of r =? x) l) = Some e ->
  forall r, In r l -> id_of r = x -> r = e.
Proof.
  induction l as [|y l IH]; [discriminate|].
  simpl. intros Hd Hf r Hin Hr. inversion Hd as [|z zs Hn Hd']; subst.
  destruct (String.eqb_spec (id_of y) (id_of r)) as [Hy|Hy].
  - simpl in Hf. injection Hf as <-.
    destruct Hin as [->|Hin]; [reflexivity|].
    exfalso. apply Hn. rewrite Hy. apply in_map. exact Hin.
  - destruct Hin as [->|Hin]; [contradiction|].
    apply (IH Hd' Hf r Hin eq_refl).
Qed.

Lemma filter_update_untouched {A} (p q : A -> bool) (f : A -> A) l :
  (forall r, In r l -> q r = true -> p r = false /\ p (f r) = false) ->
  filter p (map (fun r => if q r then f r else r) l) = filter p l.
Proof.
  induction l as [|x l IH]; [reflexivity|].
  intros H. simpl. rewrite IH by (intros r Hr; apply H; right; exact Hr).
  destruct (q x) eqn:Hq; [|reflexivity].
  destruct (H x (or_introl eq_refl) Hq) as [-> ->]. reflexivity.
Qed.

Lemma filter_delete_untouched {A} (p q : A -> bool) l :
  (forall r, In r l -> q r = true -> p r = false) ->
  filter p (filter (fun r => negb (q r)) l) = filter p l.
Proof.
  induction l as [|x l IH]; [reflexivity|].
  intros H. simpl.
  destruct (q x) eqn:Hq; simpl.
  - rewrite (H x (or_introl eq_refl) Hq).
    apply IH. intros r Hr. apply H. right. exact Hr.
  - rewrite IH by (intros r Hr; apply H; right; exact Hr). reflexivity.
Qed.

Lemma filter_insert_untouched {A} (p : A -> bool) l x :
  p x = false -> filter p (l ++ [x]) = filter p l.
Proof.
  intros H. rewrite filter_app. simpl. rewrite H. apply app_nil_r.
Qed.

Lemma owned_by_other s uid other x e :
  findEvent s x = Some e ->
  Events.ownerUserId e = uid ->
  uid <> other ->
  owned_by s other x = false.
Proof.
  intros Hf Ho Hne. unfold owned_by. rewrite Hf, Ho.
  apply String.eqb_neq. exact Hne.
Qed.

Lemma Write_others uid rt s s' other :
  Write uid rt s s' ->
  uid <> other ->
  keys_unique s ->
  filter (fun e => Events.ownerUserId e =? other) (events s')
  = filter (fun e => Events.ownerUserId e =? other) (events s) /\
  filter (fun t => owned_by s other (EventTasks.eventId t)) (tasks s')
  = filter (fun t => owned_by s other (EventTasks.eventId t)) (tasks s) /\
  filter (fun g => owned_by s other (EventGuests.eventId g)) (guests s')
  = filter (fun g => owned_by s other (EventGuests.eventId g)) (guests s).
Proof.
  intros W Hne (Ke & Kt & Kg). destruct W; simpl.
  - split; [|split; reflexivity].
    apply filter_insert_untouched. rewrite H0. apply String.eqb_neq. exact Hne.
  - split; [|split; reflexivity].
    apply filter_update_untouched. intros r Hr Hq. apply String.eqb_eq in Hq.
    rewrite (unique_first Events.id _ _ _ Ke H r Hr Hq).
    destruct (H1 existing) as (_ & -> & _). rewrite H0.
    split; apply String.eqb_neq; exact Hne.
  - split; [|split].
    + apply filter_delete_untouched. intros r Hr Hq. apply String.eqb_eq in Hq.
      rewrite (unique_first Events.id _ _ _ Ke H r Hr Hq). rewrite H0.
      apply String.eqb_neq. exact Hne.
    + apply filter_delete_untouched. intros r Hr Hq. apply String.eqb_eq in Hq.
      rewrite Hq. apply (owned_by_other _ _ _ _ _ H H0 Hne).
    + apply filter_delete_untouched. intros r Hr Hq. apply String.eqb_eq in Hq.
      rewrite Hq. apply (owned_by_other _ _ _ _ _ H H0 Hne).
  - split; [reflexivity|split; [|reflexivity]].
    apply filter_insert_untouched. apply (owned_by_other _ _ _ _ _ H0 H1 Hne).
  - split; [reflexivity|split; [|reflexivity]].
    apply filter_update_untouched. intros r Hr Hq. apply String.eqb_eq in Hq.
    rewrite (unique_first EventTasks.id _ _ _ Kt H r Hr Hq).
    destruct (H2 existing) as (_ & -> & _).
    split; apply (owned_by_other _ _ _ _ _ H0 H1 Hne).
  - split; [reflexivity|split; [|reflexivity]].
    apply filter_delete_untouched. intros r Hr Hq. apply String.eqb_eq in Hq.
    rewrite (unique_first EventTasks.id _ _ _ Kt H r Hr Hq).
    apply (owned_by_other _ _ _ _ _ H0 H1 Hne).
  - split; [reflexivity|split; [reflexivity|]].
    apply filter_insert_untouched. apply (owned_by_other _ _ _ _ _ H0 H1 Hne).
  - split; [reflexivity|split; [reflexivity|]].
    apply filter_update_untouched. intros r Hr Hq. apply String.eqb_eq in Hq.
    rewrite (unique_first EventGuests.id _ _ _ Kg H r Hr Hq).
    destruct (H2 existing) as (_ & -> & _).
    split; apply (owned_by_other _ _ _ _ _ H0 H1 Hne).
  - split; [reflexivity|split; [reflexivity|]].
    apply filter_delete_untouched. intros r Hr Hq. apply String.eqb_eq in Hq.
    rewrite (unique_first EventGuests.id _ _ _ Kg H r Hr Hq).
    apply (owned_by_other _ _ _ _ _ H0 H1 Hne).
Qed.

(** In a store with unique primary keys, a call that is not made by the
    user [other] leaves every row of [other] as it was: the events that
    [other] owns, and the tasks and the guests of those events, are the
    same rows in the same order after the call, whatever the action, its
    input and its outcome. *)
Theorem others_rows_are_untouched rt call context s other :
  actor context <> Some other ->
  keys_unique s ->
  filter (fun e => Events.ownerUserId e =? other)
         (events (snd (server rt call context s)))
  = filter (fun e => Events.ownerUserId e =? other) (events s) /\
  filter (fun t => owned_by s other (EventTasks.eventId t))
         (tasks (snd (server rt call context s)))
  = filter (fun t => owned_by s other (EventTasks.eventId t)) (tasks s) /\
  filter (fun g => owned_by s other (EventGuests.eventId g))
         (guests (snd (server rt call context s)))
  = filter (fun g => owned_by s other (EventGuests.eventId g)) (guests s).
Proof.
  intros Ha Hk.
  destruct (server_effect rt call context s) as [->|(_ & uid & Hu & W)].
  - repeat split.
  - apply (Write_others _ _ _ _ _ W); [|exact Hk].
    intros ->. apply Ha. exact Hu.
Qed.

(** ** One call after another *)

Lemma findEvent_without_event s x : findEvent (without_event x s) x = None.
Proof.
  unfold findEvent, without_event. simpl.
  rewrite (filter_out_in (fun r => Events.id r =? x)). reflexivity.
Qed.

(** Once [deleteEvent] has returned, the event is gone for everybody:
    reading it, deleting it again, updating it and upserting a task or a
    guest under it all throw NOT_FOUND, for every signed-in user, and
    leave the store as the delete left it.  (The call returns for the
    owner of an event that has no task and no guest; the foreign keys
    make it throw for an event that has some.) *)
Theorem deleted_event_is_gone context eventId s s' raw :
  prop "id" raw = Some eventId ->
  deleteEvent raw context s = (Ok tt, s') ->
  forall context' uid',
    actor context' = Some uid' ->
    getEventWithDetails raw context' s' = (Throw NOT_FOUND, s') /\
    deleteEvent raw context' s' = (Throw NOT_FOUND, s') /\
    (forall rt raw' input,
        updateEvent_input raw' = Some input ->
        UpdateEventInput.id input = eventId ->
        updateEvent rt raw' context' s' = (Throw NOT_FOUND, s')) /\
    (forall rt raw' input,
        upsertEventTask_input raw' = Some input ->
        UpsertEventTaskInput.eventId input = eventId ->
        upsertEventTask rt raw' context' s' = (Throw NOT_FOUND, s')) /\
    (forall rt raw' input,
        upsertEventGuest_input raw' = Some input ->
        UpsertEventGuestInput.eventId input = eventId ->
        upsertEventGuest rt raw' context' s' = (Throw NOT_FOUND, s')).
Proof.
  intros Hid Hrun context' uid' Ha'.
  destruct (deleteEvent_returned _ _ _ _ _ Hid Hrun) as [_ ->].
  pose proof (findEvent_without_event s eventId) as Hgone.
  split; [|split; [|split; [|split]]]; intros.
  - eapply getEventWithDetails_missing; eauto.
  - eapply deleteEvent_missing; eauto.
  - eapply updateEvent_missing; eauto.
  - eapply upsertEventTask_missing; eauto.
  - eapply upsertEventGuest_missing; eauto.
Qed.

Lemma filter_none {A} (p : A -> bool) l :
  (forall x, In x l -> p x = false) -> filter p l = [].
Proof.
  induction l as [|y l IH]; [reflexivity|].
  intros H. simpl. rewrite (H y (or_introl eq_refl)).
  apply IH. intros x Hx. apply H. right. exact Hx.
Qed.

Lemma no_children_of_missing_event s x :
  no_orphans s ->
  findEvent s x = None ->
  filter (fun r => EventTasks.eventId r =? x) (tasks s) = [] /\
  filter (fun r => EventGuests.eventId r =? x) (guests s) = [].
Proof.
  intros (Ht & Hg) Hf.
  assert (Hnone : forall e, In e (events s) -> Events.id e <> x).
  { intros e He. apply String.eqb_neq.
    apply (first_filter_none _ _ _ Hf e He). }
  split.
  - apply filter_none. intros t Hin. destruct (Ht t Hin) as (e & He & Hid).
    apply String.eqb_neq. rewrite <- Hid. apply Hnone. exact He.
  - apply filter_none. intros g Hin. destruct (Hg g Hin) as (e & He & Hid).
    apply String.eqb_neq. rewrite <- Hid. apply Hnone. exact He.
Qed.

(** An event that has just been created reads back: in a store without
    orphans, its creator gets from [getEventWithDetails] the very record
    [createEvent] returned, with no tasks and no guests, and every other
    signed-in user gets FORBIDDEN. *)
Theorem created_event_reads_back rt raw input context uid s :
  actor context = Some uid ->
  createEvent_input raw = Some input ->
  findEvent s (randomUUID rt) = None ->
  no_orphans s ->
  exists event s',
    createEvent rt raw context s = (Ok event, s') /\
    getEventWithDetails [("id", Events.id event)] context s'
    = (Ok {| d_event := event; d_tasks := []; d_guests := [] |}, s') /\
    forall context' other,
      actor context' = Some other ->
      other <> uid ->
      getEventWithDetails [("id", Events.id event)] context' s'
      = (Throw FORBIDDEN, s').
Proof.
  intros Ha Hin Hf Hno.
  set (event := createEvent_event (now rt) (randomUUID rt) {| User.id := uid |} input).
  set (s' := with_rows EventsT (events s ++ [event]) s).
  assert (Hfound : findEvent s' (randomUUID rt) = Some event).
  { unfold findEvent, s'. simpl events. apply first_filter_app_new.
    - exact Hf.
    - apply String.eqb_refl. }
  destruct (no_children_of_missing_event _ _ Hno Hf) as [Ht Hg].
  exists event, s'. split; [|split].
  - unfold createEvent, defineAction. rewrite Hin.
    apply (createEvent_handler_run _ _ _ _ _ Ha Hf).
  - change (Events.id event) with (randomUUID rt).
    rewrite (getEventWithDetails_run context uid [("id", randomUUID rt)]
               (randomUUID rt) s' event Ha eq_refl Hfound eq_refl).
    unfold s'. simpl tasks. simpl guests. rewrite Ht, Hg. reflexivity.
  - intros context' other Ha' Hne. change (Events.id event) with (randomUUID rt).
    apply (getEventWithDetails_forbidden context' other (randomUUID rt) s' event
             Ha' Hfound); [|reflexivity].
    simpl. intros Heq. apply Hne. symmetry. exact Heq.
Qed.

Lemma findEvent_tasks_irrelevant s l x :
  findEvent (with_rows EventTasksT l s) x = findEvent s x.
Proof. reflexivity. Qed.

Lemma findEvent_guests_irrelevant s l x :
  findEvent (with_rows EventGuestsT l s) x = findEvent s x.
Proof. reflexivity. Qed.

(** A task or a guest that has just been created is listed: the owner
    who then asks for the details of the event gets the children the
    event had, in their order, with the new row last, and the other list
    as it was. *)
Theorem created_child_is_listed rt context uid eventId s event :
  actor context = Some uid ->
  findEvent s eventId = Some event ->
  Events.ownerUserId event = uid ->
  (forall raw input,
      upsertEventTask_input raw = Some input ->
      UpsertEventTaskInput.eventId input = eventId ->
      given (UpsertEventTaskInput.id input) = None ->
      findTask s (randomUUID rt) = None ->
      exists task s',
        upsertEventTask rt raw context s = (Ok task, s') /\
        getEventWithDetails [("id", eventId)] context s'
        = (Ok {| d_event := event;
                 d_tasks :=
                   filter (fun r => EventTasks.eventId r =? eventId) (tasks s)
                   ++ [task];
                 d_guests :=
                   filter (fun r => EventGuests.eventId r =? eventId) (guests s) |},
           s')) /\
  (forall raw input,
      upsertEventGuest_input raw = Some input ->
      UpsertEventGuestInput.eventId input = eventId ->
      given (UpsertEventGuestInput.id input) = None ->
      findGuest s (randomUUID rt) = None ->
      exists guest s',
        upsertEventGuest rt raw context s = (Ok guest, s') /\
        getEventWithDetails [("id", eventId)] context s'
        = (Ok {| d_event := event;
                 d_tasks :=
                   filter (fun r => EventTasks.eventId r =? eventId) (tasks s);
                 d_guests :=
                   filter (fun r => EventGuests.eventId r =? eventId) (guests s)
                   ++ [guest] |},
           s')).
Proof.
  intros Ha Hf Ho. split.
  - intros raw input Hin He Hg Hn.
    set (task := upsertEventTask_task (now rt) (randomUUID rt) event input).
    set (s' := with_rows EventTasksT (tasks s ++ [task]) s).
    assert (Hf' : findEvent s' eventId = Some event) by exact Hf.
    exists task, s'. split.
    { unfold upsertEventTask, defineAction. rewrite Hin. rewrite <- He in Hf.
      apply (upsertEventTask_handler_create _ _ _ _ _ _ Ha Hf Ho Hg Hn). }
    rewrite (getEventWithDetails_run context uid [("id", eventId)] eventId s' event
               Ha eq_refl Hf' Ho).
    unfold s'. simpl tasks. simpl guests. rewrite filter_app. simpl.
    rewrite (findEvent_id _ _ _ Hf), String.eqb_refl. reflexivity.
  - intros raw input Hin He Hg Hn.
    set (guest := upsertEventGuest_guest (now rt) (randomUUID rt) event input).
    set (s' := with_rows EventGuestsT (guests s ++ [guest]) s).
    assert (Hf' : findEvent s' eventId = Some event) by exact Hf.
    exists guest, s'. split.
    { unfold upsertEventGuest, defineAction. rewrite Hin. rewrite <- He in Hf.
      apply (upsertEventGuest_handler_create _ _ _ _ _ _ Ha Hf Ho Hg Hn). }
    rewrite (getEventWithDetails_run context uid [("id", eventId)] eventId s' event
               Ha eq_refl Hf' Ho).
    unfold s'. simpl tasks. simpl guests. rewrite filter_app. simpl.
    rewrite (findEvent_id _ _ _ Hf), String.eqb_refl. reflexivity.
Qed.

(** An event that has just been created is listed: its creator's list
    of events is the list it was with the new event at the end, one
    longer than before; and nobody else's list has changed. *)
Theorem created_event_is_listed rt raw input context uid s :
  actor context = Some uid ->
  createEvent_input raw = Some input ->
  findEvent s (randomUUID rt) = None ->
  exists event s' before,
    createEvent rt raw context s = (Ok event, s') /\
    listMyEvents None context s = (Ok before, s) /\
    listMyEvents None context s'
    = (Ok {| items := items before ++ [event]; total := S (total before) |}, s') /\
    forall context' other,
      actor context' = Some other ->
      other <> uid ->
      fst (listMyEvents None context' s') = fst (listMyEvents None context' s).
Proof.
  intros Ha Hin Hf.
  set (event := createEvent_event (now rt) (randomUUID rt) {| User.id := uid |} input).
  set (s' := with_rows EventsT (events s ++ [event]) s).
  assert (Hl : forall context0 uid0 s0, actor context0 = Some uid0 ->
             listMyEvents None context0 s0
             = (Ok {| items := filter (selected uid0 None) (events s0);
                      total := List.length (filter (selected uid0 None) (events s0)) |},
                s0)).
  { intros context0 uid0 s0 Ha0. unfold listMyEvents. simpl.
    apply (listMyEvents_handler_run context0 uid0 None None s0 Ha0 eq_refl).
    discriminate. }
  exists event, s'. eexists. split; [|split; [|split]].
  - unfold createEvent, defineAction. rewrite Hin.
    apply (createEvent_handler_run _ _ _ _ _ Ha Hf).
  - apply (Hl _ _ _ Ha).
  - assert (Hsel : selected uid None event = true).
    { unfold selected. simpl. rewrite String.eqb_refl. reflexivity. }
    rewrite (Hl _ _ _ Ha). unfold s'. simpl events.
    rewrite filter_app. simpl. rewrite Hsel, length_app. simpl.
    rewrite Nat.add_1_r. reflexivity.
  - intros context' other Ha' Hne.
    assert (Hsel : selected other None event = false).
    { unfold selected. simpl. apply not_eq_sym in Hne.
      apply String.eqb_neq in Hne. rewrite Hne. reflexivity. }
    rewrite !(Hl _ _ _ Ha'). unfold s'. simpl.
    rewrite filter_app. simpl. rewrite Hsel, app_nil_r. reflexivity.
Qed.

End Actions.


(** ** The actions run on the small store *)

(** The ownership theorem, with bob acting on alice's party. *)
Lemma only_the_owner_may_access_witness :
  updateEvent sample_is_datetime sample_is_url sample_Date_parse false
    (clock 200%Z "u1") [("id", "e1"); ("title", "Mine now")] bob sample = (Throw FORBIDDEN, sample) /\
  deleteEvent [("id", "e1")] bob sample = (Throw FORBIDDEN, sample) /\
  getEventWithDetails [("id", "e1")] bob sample = (Throw FORBIDDEN, sample) /\
  upsertEventTask sample_is_datetime sample_Date_parse false (clock 200%Z "u1")
    [("eventId", "e1"); ("title", "Sneak in")] bob sample = (Throw FORBIDDEN, sample) /\
  deleteEventTask [("id", "t1")] bob sample = (Throw FORBIDDEN, sample) /\
  upsertEventGuest sample_is_datetime sample_is_email sample_Date_parse false
    (clock 200%Z "u1") [("eventId", "e1"); ("name", "Bob")] bob sample = (Throw FORBIDDEN, sample) /\
  deleteEventGuest [("id", "g1")] bob sample = (Throw FORBIDDEN, sample).
Proof.
  destruct (only_the_owner_may_access sample_is_datetime sample_is_url
              sample_is_email sample_Date_parse false
              bob "bob" "e1" sample party)
    as (H1 & H2 & H3 & H4 & H5 & H6 & H7);
    [reflexivity | reflexivity | discriminate | ].
  split; [eapply H1; reflexivity|].
  split; [apply H2; reflexivity|].
  split; [apply H3; reflexivity|].
  split; [eapply H4; reflexivity|].
  split; [eapply H5; reflexivity|].
  split; [eapply H6; reflexivity|].
  eapply H7; reflexivity.
Defined.


(** Alice deletes her launch, which has no task and no guest, and only
    the launch goes; her party, which has both, stays with them. *)
Lemma deleteEvent_by_the_owner_witness :
  deleteEvent [("id", "e2")] alice sample
  = (Ok tt, {| events := [party]; tasks := [cake]; guests := [ana] |}) /\
  deleteEvent [("id", "e1")] alice sample = (Throw INTERNAL_SERVER_ERROR, sample).
Proof.
  split.
  - destruct (deleteEvent_by_the_owner alice "alice" "e2" sample launch
                [("id", "e2")] eq_refl eq_refl eq_refl eq_refl) as (_ & H & _).
    rewrite (H eq_refl). reflexivity.
  - destruct (deleteEvent_by_the_owner alice "alice" "e1" sample party
                [("id", "e1")] eq_refl eq_refl eq_refl eq_refl) as (H & _).
    apply H. reflexivity.
Defined.

(** An update that names the event and nothing to change is refused
    even for a visitor who is not signed in. *)
Lemma updateEvent_empty_is_rejected_witness :
  updateEvent sample_is_datetime sample_is_url sample_Date_parse false
    (clock 200%Z "u1") [("id", "e1")] anonymous sample = (Throw BAD_REQUEST, sample).
Proof.
  exact (proj2 (updateEvent_empty_is_rejected sample_is_datetime sample_is_url
                  sample_Date_parse false (clock 200%Z "u1") [("id", "e1")] anonymous
                  eq_refl eq_refl eq_refl eq_refl eq_refl eq_refl eq_refl eq_refl
                  eq_refl) sample).
Defined.

(** Alice deletes the cake task; asking again finds nothing. *)
Lemma delete_child_contract_witness :
  deleteEventTask [("id", "t1")] alice sample
  = (Ok tt, {| events := [party; launch]; tasks := []; guests := [ana] |}) /\
  deleteEventTask [("id", "t1")] alice
    {| events := [party; launch]; tasks := []; guests := [ana] |}
  = (Throw NOT_FOUND, {| events := [party; launch]; tasks := []; guests := [ana] |}) /\
  deleteEventGuest [("id", "nobody")] alice sample = (Throw NOT_FOUND, sample).
Proof.
  destruct (delete_child_contract alice "alice" [("id", "t1")] "t1"
              sample eq_refl eq_refl) as (_ & H2 & H3 & _).
  destruct (delete_child_contract alice "alice" [("id", "nobody")]
              "nobody" sample eq_refl eq_refl) as (_ & _ & _ & H4 & _).
  split; [rewrite (H2 cake eq_refl); reflexivity|].
  split; [apply H3; rewrite (H2 cake eq_refl); reflexivity|].
  apply H4. reflexivity.
Defined.

(** Alice creates the event of the spec's scenario. *)
Lemma createEvent_returns_the_new_event_witness :
  exists event s',
    createEvent sample_is_datetime sample_is_url sample_Date_parse (clock 500%Z "e9")
      [("title", "Launch")] alice sample = (Ok event, s') /\
    Events.ownerUserId event = "alice" /\
    Events.status event = Some "planning" /\
    Events.createdAt event = 500%Z /\
    Events.updatedAt event = 500%Z /\
    events s' = [party; launch; event].
Proof.
  destruct (createEvent_returns_the_new_event sample_is_datetime sample_is_url
              sample_Date_parse (clock 500%Z "e9") [("title", "Launch")] _
              alice "alice" sample eq_refl eq_refl eq_refl eq_refl)
    as (event & s' & Hrun & Hs' & _ & Hev & _).
  exists event, s'. split; [exact Hrun|].
  rewrite Hs', Hev. repeat split.
Defined.

(** Alice confirms the party: the status changes, the rest stays. *)
Lemma updateEvent_changes_supplied_fields_witness :
  exists event s',
    updateEvent sample_is_datetime sample_is_url sample_Date_parse true
      (clock 600%Z "u1") [("id", "e1"); ("status", "confirmed")]
      alice sample = (Ok event, s') /\
    Events.status event = Some "confirmed" /\
    Events.title event = "Birthday Party" /\
    Events.description event = Some "At home" /\
    Events.createdAt event = 100%Z /\
    Events.updatedAt event = 600%Z /\
    findEvent s' "e1" = Some event.
Proof.
  destruct (updateEvent_changes_supplied_fields sample_is_datetime sample_is_url
              sample_Date_parse true (clock 600%Z "u1")
              [("id", "e1"); ("status", "confirmed")] _
              alice "alice" sample party
              eq_refl eq_refl eq_refl eq_refl eq_refl)
    as (event & s' & Hrun & _ & Hst & Hev & _).
  exists event, s'. split; [exact Hrun|].
  split; [rewrite Hev; reflexivity|]. split; [rewrite Hev; reflexivity|].
  split; [rewrite Hev; reflexivity|]. split; [rewrite Hev; reflexivity|].
  split; [rewrite Hev; reflexivity|]. exact Hst.
Defined.

(** Alice adds a task and a guest to the party, and may not pull the
    cake task or ana over to the launch. *)
Lemma upsert_creates_or_refuses_to_move_witness :
  (exists task,
      upsertEventTask sample_is_datetime sample_Date_parse false (clock 700%Z "n1")
        [("eventId", "e1"); ("title", "Blow up balloons")] alice sample
      = (Ok task,
         {| events := [party; launch]; tasks := [cake; task]; guests := [ana] |}) /\
      EventTasks.id task = "n1") /\
  upsertEventTask sample_is_datetime sample_Date_parse false (clock 700%Z "n1")
    [("id", "t1"); ("eventId", "e2"); ("title", "Order the cake")] alice sample
  = (Throw FORBIDDEN, sample) /\
  (exists guest,
      upsertEventGuest sample_is_datetime sample_is_email sample_Date_parse false
        (clock 700%Z "n1") [("eventId", "e1"); ("name", "Ben")] alice sample
      = (Ok guest,
         {| events := [party; launch]; tasks := [cake]; guests := [ana; guest] |}) /\
      EventGuests.id guest = "n1") /\
  upsertEventGuest sample_is_datetime sample_is_email sample_Date_parse false
    (clock 700%Z "n1") [("id", "g1"); ("eventId", "e2"); ("name", "Ana")] alice sample
  = (Throw FORBIDDEN, sample).
Proof.
  destruct (upsert_creates_or_refuses_to_move sample_is_datetime sample_is_email
              sample_Date_parse false (clock 700%Z "n1") alice "alice"
              sample eq_refl) as (H1 & H2 & H3 & H4).
  split.
  { destruct (H1 [("eventId", "e1"); ("title", "Blow up balloons")] _ party
                eq_refl eq_refl eq_refl eq_refl eq_refl) as (task & Hrun & Hid & _).
    exists task. split; [exact Hrun|exact Hid]. }
  split.
  { apply (H2 [("id", "t1"); ("eventId", "e2"); ("title", "Order the cake")] _
              launch "t1" cake eq_refl eq_refl eq_refl eq_refl);
      [discriminate|reflexivity|discriminate]. }
  split.
  { destruct (H3 [("eventId", "e1"); ("name", "Ben")] _ party
                eq_refl eq_refl eq_refl eq_refl eq_refl) as (guest & Hrun & Hid & _).
    exists guest. split; [exact Hrun|exact Hid]. }
  apply (H4 [("id", "g1"); ("eventId", "e2"); ("name", "Ana")] _
            launch "g1" ana eq_refl eq_refl eq_refl eq_refl);
    [discriminate|reflexivity|discriminate].
Defined.

(** Alice renames the cake task and the guest ana and sends nothing
    else: the records that come back have lost every optional field. *)
Lemma upsert_update_returns_the_input_witness :
  (exists s',
      upsertEventTask sample_is_datetime sample_Date_parse true (clock 800%Z "n2")
        [("id", "t1"); ("eventId", "e1"); ("title", "Collect the cake")] alice sample
      = (Ok {|
           EventTasks.id := "t1";
           EventTasks.eventId := "e1";
           EventTasks.userId := None;
           EventTasks.title := "Collect the cake";
           EventTasks.description := None;
           EventTasks.dueDate := None;
           EventTasks.status := Some "todo";
           EventTasks.priority := None;
           EventTasks.createdAt := 120%Z;
           EventTasks.updatedAt := 800%Z
         |}, s')) /\
  (exists s',
      upsertEventGuest sample_is_datetime sample_is_email sample_Date_parse true
        (clock 800%Z "n2") [("id", "g1"); ("eventId", "e1"); ("name", "Ana Maria")]
        alice sample
      = (Ok {|
           EventGuests.id := "g1";
           EventGuests.eventId := "e1";
           EventGuests.name := "Ana Maria";
           EventGuests.email := None;
           EventGuests.phone := None;
           EventGuests.rsvpStatus := None;
           EventGuests.notes := None;
           EventGuests.invitedAt := None;
           EventGuests.respondedAt := None;
           EventGuests.createdAt := 140%Z
         |}, s')).
Proof.
  destruct (upsert_update_returns_the_input sample_is_datetime sample_is_email
              sample_Date_parse true (clock 800%Z "n2") alice "alice"
              sample eq_refl eq_refl) as (H1 & H2).
  split.
  - destruct (H1 [("id", "t1"); ("eventId", "e1"); ("title", "Collect the cake")] _
                party "t1" cake eq_refl eq_refl eq_refl eq_refl)
      as (task & s' & Hrun & Htask & _);
      [discriminate|reflexivity|reflexivity|].
    exists s'. rewrite Hrun, Htask. reflexivity.
  - destruct (H2 [("id", "g1"); ("eventId", "e1"); ("name", "Ana Maria")] _
                party "g1" ana eq_refl eq_refl eq_refl eq_refl)
      as (guest & s' & Hrun & Hguest & _);
      [discriminate|reflexivity|reflexivity|].
    exists s'. rewrite Hrun, Hguest. reflexivity.
Defined.

(** The rows that the same two calls leave in the store: renamed, and
    with every optional field that the calls did not send still there. *)
Lemma upsert_update_stores_only_what_is_sent_witness :
  (exists task s',
      upsertEventTask sample_is_datetime sample_Date_parse true (clock 800%Z "n2")
        [("id", "t1"); ("eventId", "e1"); ("title", "Collect the cake")] alice sample
      = (Ok task, s') /\
      findTask s' "t1" = Some {|
        EventTasks.id := "t1";
        EventTasks.eventId := "e1";
        EventTasks.userId := Some "alice";
        EventTasks.title := "Collect the cake";
        EventTasks.description := Some "Chocolate";
        EventTasks.dueDate := Some 900%Z;
        EventTasks.status := Some "todo";
        EventTasks.priority := Some "high";
        EventTasks.createdAt := 120%Z;
        EventTasks.updatedAt := 800%Z
      |}) /\
  (exists guest s',
      upsertEventGuest sample_is_datetime sample_is_email sample_Date_parse true
        (clock 800%Z "n2") [("id", "g1"); ("eventId", "e1"); ("name", "Ana Maria")]
        alice sample
      = (Ok guest, s') /\
      findGuest s' "g1" = Some {|
        EventGuests.id := "g1";
        EventGuests.eventId := "e1";
        EventGuests.name := "Ana Maria";
        EventGuests.email := Some "ana@example.org";
        EventGuests.phone := None;
        EventGuests.rsvpStatus := Some "invited";
        EventGuests.notes := Some "Vegetarian";
        EventGuests.invitedAt := None;
        EventGuests.respondedAt := None;
        EventGuests.createdAt := 140%Z
      |}).
Proof.
  destruct (upsert_update_stores_only_what_is_sent sample_is_datetime sample_is_email
              sample_Date_parse true (clock 800%Z "n2") alice "alice"
              sample eq_refl eq_refl eq_refl) as (H1 & H2).
  split.
  - destruct (H1 [("id", "t1"); ("eventId", "e1"); ("title", "Collect the cake")] _
                party "t1" cake eq_refl eq_refl eq_refl eq_refl)
      as (task & s' & Hrun & Hst);
      [discriminate|reflexivity|reflexivity|].
    exists task, s'. split; [exact Hrun|]. rewrite Hst. reflexivity.
  - destruct (H2 [("id", "g1"); ("eventId", "e1"); ("name", "Ana Maria")] _
                party "g1" ana eq_refl eq_refl eq_refl eq_refl)
      as (guest & s' & Hrun & Hst);
      [discriminate|reflexivity|reflexivity|].
    exists guest, s'. split; [exact Hrun|]. rewrite Hst. reflexivity.
Defined.

(** C10 on the code.  The cake task is stored with a description, a due
    date, a priority and an assignee; alice renames it and sends nothing
    else.  The handler hands [set] an object in which those four keys
    hold [undefined], the query builder skips such keys, and so the
    record that comes back shows the four fields empty while the row in
    the store still holds them: they are preserved, not overwritten.
    The same happens to a guest's email and notes. *)
Example upsert_update_keeps_omitted_fields_stored :
  (exists task s' stored,
      upsertEventTask sample_is_datetime sample_Date_parse true (clock 800%Z "n2")
        [("id", "t1"); ("eventId", "e1"); ("title", "Collect the cake")] alice sample
      = (Ok task, s') /\
      findTask s' "t1" = Some stored /\
      EventTasks.description task = None /\
      EventTasks.description stored = Some "Chocolate" /\
      EventTasks.dueDate task = None /\
      EventTasks.dueDate stored = Some 900%Z /\
      EventTasks.priority task = None /\
      EventTasks.priority stored = Some "high" /\
      EventTasks.userId task = None /\
      EventTasks.userId stored = Some "alice" /\
      stored <> task) /\
  (exists guest s' stored,
      upsertEventGuest sample_is_datetime sample_is_email sample_Date_parse true
        (clock 800%Z "n2") [("id", "g1"); ("eventId", "e1"); ("name", "Ana Maria")]
        alice sample
      = (Ok guest, s') /\
      findGuest s' "g1" = Some stored /\
      EventGuests.email guest = None /\
      EventGuests.email stored = Some "ana@example.org" /\
      EventGuests.rsvpStatus guest = None /\
      EventGuests.rsvpStatus stored = Some "invited" /\
      EventGuests.notes guest = None /\
      EventGuests.notes stored = Some "Vegetarian" /\
      stored <> guest).
Proof.
  split.
  - eexists. eexists. eexists. split; [vm_compute; reflexivity|].
    split; [vm_compute; reflexivity|]. repeat split. discriminate.
  - eexists. eexists. eexists. split; [vm_compute; reflexivity|].
    split; [vm_compute; reflexivity|]. repeat split. discriminate.
Qed.

(** The scenario of the spec with the second call made complete: Ana is
    invited to the party, then marked as going under the id she got. *)
Lemma upsertEventGuest_rsvp_then_going_witness :
  exists guest s1 guest' s2,
    upsertEventGuest sample_is_datetime sample_is_email sample_Date_parse true
      (clock 900%Z "g2")
      [("eventId", "e2"); ("name", "Ana"); ("rsvpStatus", "invited")] alice sample
    = (Ok guest, s1) /\
    upsertEventGuest sample_is_datetime sample_is_email sample_Date_parse true
      (clock 950%Z "g3")
      [("id", "g2"); ("eventId", "e2"); ("name", "Ana"); ("rsvpStatus", "going")]
      alice s1
    = (Ok guest', s2) /\
    EventGuests.rsvpStatus guest = Some "invited" /\
    EventGuests.rsvpStatus guest' = Some "going" /\
    EventGuests.name guest' = EventGuests.name guest.
Proof.
  destruct (upsertEventGuest_rsvp_then_going sample_is_datetime sample_is_email
              sample_Date_parse true (clock 900%Z "g2") (clock 950%Z "g3")
              alice "alice" sample
              [("eventId", "e2"); ("name", "Ana"); ("rsvpStatus", "invited")]
              [("id", "g2"); ("eventId", "e2"); ("name", "Ana"); ("rsvpStatus", "going")]
              _
              {| UpsertEventGuestInput.id := Some "g2";
                 UpsertEventGuestInput.eventId := "e2";
                 UpsertEventGuestInput.name := "Ana";
                 UpsertEventGuestInput.email := None;
                 UpsertEventGuestInput.phone := None;
                 UpsertEventGuestInput.rsvpStatus := Some "going";
                 UpsertEventGuestInput.notes := None;
                 UpsertEventGuestInput.invitedAt := None;
                 UpsertEventGuestInput.respondedAt := None |}
              launch
              eq_refl eq_refl eq_refl eq_refl eq_refl eq_refl eq_refl)
    as (guest & s1 & guest' & s2 & stored & R1 & I1 & _ & R2 & _ & G2 & _ & Hname & _);
    [discriminate|reflexivity|reflexivity|reflexivity|reflexivity|].
  exists guest, s1, guest', s2.
  split; [exact R1|]. split; [exact R2|]. split; [exact I1|]. split; [exact G2|].
  apply Hname. reflexivity.
Defined.

(** C9, as the spec words it, fails: the second call of the scenario
    carries the guest's id and the new rsvpStatus and nothing else, and
    the schema of [upsertEventGuest] asks for [eventId] and [name], so
    the call is refused and yields no guest at all. *)
Lemma upsertEventGuest_id_and_rsvp_alone_is_refused :
  upsertEventGuest sample_is_datetime sample_is_email sample_Date_parse true
    (clock 900%Z "g2")
    [("eventId", "e2"); ("name", "Ana"); ("rsvpStatus", "invited")] alice sample
  = (Ok ana_invited, sample_invited) /\
  upsertEventGuest sample_is_datetime sample_is_email sample_Date_parse true
    (clock 950%Z "g3") [("id", "g2"); ("rsvpStatus", "going")] alice sample_invited
  = (Throw BAD_REQUEST, sample_invited) /\
  ~ (exists guest' s2,
        upsertEventGuest sample_is_datetime sample_is_email sample_Date_parse true
          (clock 950%Z "g3") [("id", "g2"); ("rsvpStatus", "going")] alice
          sample_invited
        = (Ok guest', s2) /\
        EventGuests.rsvpStatus guest' = Some "going" /\
        EventGuests.name guest' = EventGuests.name ana_invited).
Proof.
  split; [|split].
  - vm_compute. reflexivity.
  - vm_compute. reflexivity.
  - intros (guest' & s2 & Hrun & _). vm_compute in Hrun. discriminate.
Qed.

(** And a complete second call that sends another name changes the
    name, the update writing whatever the input holds. *)
Example upsertEventGuest_second_name_replaces_first :
  exists guest' s2,
    upsertEventGuest sample_is_datetime sample_is_email sample_Date_parse true
      (clock 950%Z "g3")
      [("id", "g2"); ("eventId", "e2"); ("name", "Anna B."); ("rsvpStatus", "going")]
      alice sample_invited
    = (Ok guest', s2) /\
    EventGuests.rsvpStatus guest' = Some "going" /\
    EventGuests.name guest' = "Anna B." /\
    EventGuests.name guest' <> EventGuests.name ana_invited.
Proof.
  eexists. eexists. split; [vm_compute; reflexivity|].
  split; [reflexivity|]. split; [reflexivity|]. discriminate.
Qed.

(** C4 on the code.  The cake task is stored as "done"; alice renames it
    and sends no status.  The schema has already put "todo" where the
    status was missing, so [input.status ?? existing.status] never reaches
    the stored status: the task comes back, and is stored, as "todo",
    whichever way [set] treats [undefined]. *)
Example upsertEventTask_without_status_resets_it (set_skips_undefined : bool) :
  findTask sample "t1" = Some cake /\
  EventTasks.status cake = Some "done" /\
  prop "status" [("id", "t1"); ("eventId", "e1"); ("title", "Collect the cake")]
  = None /\
  exists task s' stored,
    upsertEventTask sample_is_datetime sample_Date_parse set_skips_undefined
      (clock 800%Z "n2")
      [("id", "t1"); ("eventId", "e1"); ("title", "Collect the cake")] alice sample
    = (Ok task, s') /\
    EventTasks.status task = Some "todo" /\
    findTask s' "t1" = Some stored /\
    EventTasks.status stored = Some "todo".
Proof.
  repeat split.
  destruct set_skips_undefined;
    (eexists; eexists; eexists; split; [vm_compute; reflexivity|]; repeat split).
Qed.

(** ** More runs on the small store *)

Lemma sample_keys_unique : keys_unique sample.
Proof.
  unfold keys_unique, sample. simpl.
  repeat split; repeat constructor; simpl; intuition discriminate.
Qed.

Lemma sample_no_orphans : no_orphans sample.
Proof.
  split; intros r [<-|[]]; exists party; split; [left| |left|]; reflexivity.
Qed.

Lemma sample_rows_valid : rows_valid sample.
Proof.
  assert (Hen : forall values x, In x values -> enumerated values (Some x))
    by (intros values x Hx y Hy; injection Hy as <-; exact Hx).
  split; [|split].
  - constructor; [|constructor; [|constructor]].
    + split; [discriminate|]. exists "planning". split; [reflexivity|]. simpl. auto.
    + split; [discriminate|]. exists "confirmed". split; [reflexivity|]. simpl. auto.
  - constructor; [|constructor]. split; [discriminate|split].
    + exists "done". split; [reflexivity|]. simpl. auto.
    + apply Hen. simpl. auto.
  - constructor; [|constructor]. split; [discriminate|].
    apply Hen. simpl. auto.
Qed.

(** An empty input is refused before the session is looked at; a good
    one from a visitor is refused for want of a user. *)
Lemma validation_then_authentication_witness :
  server sample_is_datetime sample_is_url sample_is_email sample_Date_parse false
    (clock 10%Z "u1") (CreateEvent []) anonymous sample
  = (Some BAD_REQUEST, sample) /\
  server sample_is_datetime sample_is_url sample_is_email sample_Date_parse false
    (clock 10%Z "u1") (DeleteEvent [("id", "e1")]) anonymous sample
  = (Some UNAUTHORIZED, sample).
Proof.
  split.
  - apply (proj1 (validation_then_authentication sample_is_datetime sample_is_url
                    sample_is_email sample_Date_parse false (clock 10%Z "u1")
                    (CreateEvent []) anonymous sample)).
    reflexivity.
  - apply (proj2 (validation_then_authentication sample_is_datetime sample_is_url
                    sample_is_email sample_Date_parse false (clock 10%Z "u1")
                    (DeleteEvent [("id", "e1")]) anonymous sample));
      reflexivity.
Defined.

Lemma required_properties_witness :
  createEvent sample_is_datetime sample_is_url sample_Date_parse (clock 10%Z "u1")
    [("title", ""); ("description", "No title")] alice sample
  = (Throw BAD_REQUEST, sample) /\
  deleteEventTask [("title", ""); ("description", "No title")] alice sample
  = (Throw BAD_REQUEST, sample) /\
  upsertEventGuest sample_is_datetime sample_is_email sample_Date_parse false
    (clock 10%Z "u1") [("title", ""); ("description", "No title")] alice sample
  = (Throw BAD_REQUEST, sample).
Proof.
  destruct (required_properties sample_is_datetime sample_is_url sample_is_email
              sample_Date_parse false (clock 10%Z "u1") alice sample
              [("title", ""); ("description", "No title")])
    as (H1 & H2 & _ & H4).
  split; [apply H1; right; reflexivity|].
  split; [apply (H2 eq_refl)|].
  apply H4. left. reflexivity.
Defined.

Lemma enumerations_are_closed_witness :
  createEvent sample_is_datetime sample_is_url sample_Date_parse (clock 10%Z "u1")
    [("title", "Gala"); ("status", "archived")] alice sample
  = (Throw BAD_REQUEST, sample) /\
  listMyEvents (Some [("title", "Gala"); ("status", "archived")]) alice sample
  = (Throw BAD_REQUEST, sample).
Proof.
  destruct (enumerations_are_closed sample_is_datetime sample_is_url sample_is_email
              sample_Date_parse false (clock 10%Z "u1") alice sample
              [("title", "Gala"); ("status", "archived")] "archived")
    as (H1 & _).
  destruct H1 as (K1 & _ & K3); [reflexivity|simpl; intuition discriminate|].
  split; [exact K1|exact K3].
Defined.

Lemma missing_event_is_not_found_witness :
  getEventWithDetails [("id", "e404")] alice sample = (Throw NOT_FOUND, sample) /\
  upsertEventTask sample_is_datetime sample_Date_parse false (clock 10%Z "u1")
    [("eventId", "e404"); ("title", "Lost")] alice sample
  = (Throw NOT_FOUND, sample).
Proof.
  destruct (missing_event_is_not_found sample_is_datetime sample_is_url
              sample_is_email sample_Date_parse false alice "alice" "e404" sample
              eq_refl eq_refl) as (_ & _ & H3 & H4 & _).
  split; [apply H3; reflexivity|]. eapply H4; reflexivity.
Defined.

Lemma upsert_unknown_id_is_not_found_witness :
  upsertEventTask sample_is_datetime sample_Date_parse false (clock 10%Z "u1")
    [("id", "t404"); ("eventId", "e1"); ("title", "Lost")] alice sample
  = (Throw NOT_FOUND, sample) /\
  upsertEventGuest sample_is_datetime sample_is_email sample_Date_parse false
    (clock 10%Z "u1") [("id", "g404"); ("eventId", "e1"); ("name", "Nobody")]
    alice sample
  = (Throw NOT_FOUND, sample).
Proof.
  destruct (upsert_unknown_id_is_not_found sample_is_datetime sample_is_email
              sample_Date_parse false (clock 10%Z "u1") alice "alice" sample
              eq_refl) as (H1 & H2).
  split.
  - apply (H1 [("id", "t404"); ("eventId", "e1"); ("title", "Lost")] _ party "t404"
              eq_refl eq_refl eq_refl eq_refl); [discriminate|reflexivity].
  - apply (H2 [("id", "g404"); ("eventId", "e1"); ("name", "Nobody")] _ party "g404"
              eq_refl eq_refl eq_refl eq_refl); [discriminate|reflexivity].
Defined.

Lemma getEventWithDetails_returns_the_children_witness :
  getEventWithDetails [("id", "e1")] alice sample
  = (Ok {| d_event := party; d_tasks := [cake]; d_guests := [ana] |}, sample) /\
  getEventWithDetails [("id", "e2")] alice sample
  = (Ok {| d_event := launch; d_tasks := []; d_guests := [] |}, sample).
Proof.
  split.
  - destruct (getEventWithDetails_returns_the_children alice "alice" [("id", "e1")]
                "e1" sample party eq_refl eq_refl eq_refl eq_refl)
      as ([e ts gs] & Hrun & He & Ht & Hg & _).
    simpl in He, Ht, Hg. rewrite Hrun, He, Ht, Hg. reflexivity.
  - destruct (getEventWithDetails_returns_the_children alice "alice" [("id", "e2")]
                "e2" sample launch eq_refl eq_refl eq_refl eq_refl)
      as ([e ts gs] & Hrun & He & Ht & Hg & _).
    simpl in He, Ht, Hg. rewrite Hrun, He, Ht, Hg. reflexivity.
Defined.

Lemma listMyEvents_lists_own_events_witness :
  listMyEvents None alice sample
  = (Ok {| items := [party; launch]; total := 2 |}, sample) /\
  listMyEvents (Some [("status", "confirmed")]) alice sample
  = (Ok {| items := [launch]; total := 1 |}, sample) /\
  listMyEvents None bob sample = (Ok {| items := []; total := 0 |}, sample).
Proof.
  split; [|split].
  - destruct (listMyEvents_lists_own_events sample_is_datetime sample_is_url
                sample_is_email alice "alice" None sample eq_refl eq_refl)
      as ([l n] & Hrun & Hi & Ht & _).
    simpl in Hi, Ht. rewrite Hrun, Ht, Hi. reflexivity.
  - destruct (listMyEvents_lists_own_events sample_is_datetime sample_is_url
                sample_is_email alice "alice" (Some [("status", "confirmed")]) sample
                eq_refl eq_refl)
      as ([l n] & Hrun & Hi & Ht & _).
    simpl in Hi, Ht. rewrite Hrun, Ht, Hi. reflexivity.
  - destruct (listMyEvents_lists_own_events sample_is_datetime sample_is_url
                sample_is_email bob "bob" None sample eq_refl eq_refl)
      as ([l n] & Hrun & Hi & Ht & _).
    simpl in Hi, Ht. rewrite Hrun, Ht, Hi. reflexivity.
Defined.

(** Bob tries to delete alice's party: FORBIDDEN, and the store he
    leaves is the sample. *)
Lemma a_throw_writes_nothing_witness :
  snd (server sample_is_datetime sample_is_url sample_is_email sample_Date_parse
         false (clock 10%Z "u1") (DeleteEvent [("id", "e1")]) bob sample)
  = sample.
Proof.
  apply (a_throw_writes_nothing sample_is_datetime sample_is_url sample_is_email
           sample_Date_parse false (clock 10%Z "u1") (DeleteEvent [("id", "e1")]) bob
           sample FORBIDDEN).
  reflexivity.
Defined.

(** The three requests served on the small store keep it in order. *)
Lemma serve_keeps_keys_unique_witness :
  keys_unique
    (serve sample_is_datetime sample_is_url sample_is_email sample_Date_parse false
       sample_requests sample).
Proof.
  apply (proj1 (serve_keeps_keys_unique sample_is_datetime sample_is_url
                  sample_is_email sample_Date_parse false sample_requests) sample).
  exact sample_keys_unique.
Defined.

Lemma serve_keeps_no_orphans_witness :
  no_orphans
    (serve sample_is_datetime sample_is_url sample_is_email sample_Date_parse false
       sample_requests sample).
Proof.
  apply (proj1 (serve_keeps_no_orphans sample_is_datetime sample_is_url
                  sample_is_email sample_Date_parse false sample_requests) sample).
  exact sample_no_orphans.
Defined.

Lemma serve_keeps_rows_valid_witness :
  rows_valid
    (serve sample_is_datetime sample_is_url sample_is_email sample_Date_parse false
       sample_requests sample).
Proof.
  apply (proj1 (serve_keeps_rows_valid sample_is_datetime sample_is_url
                  sample_is_email sample_Date_parse false sample_requests) sample).
  exact sample_rows_valid.
Defined.

(** Alice renames her party: every event of the store is still hers. *)
Lemma rows_keep_their_origin_witness :
  Forall (fun e' => Events.ownerUserId e' = "alice")
    (events
       (snd (server sample_is_datetime sample_is_url sample_is_email
               sample_Date_parse false (clock 30%Z "u3")
               (UpdateEvent [("id", "e1"); ("title", "Surprise Party")]) alice
               sample))).
Proof.
  apply Forall_forall. intros e' Hin.
  destruct (proj1 (rows_keep_their_origin sample_is_datetime sample_is_url
                     sample_is_email sample_Date_parse false (clock 30%Z "u3")
                     (UpdateEvent [("id", "e1"); ("title", "Surprise Party")]) alice
                     sample) e' Hin)
    as [(e & He & _ & Ho & _)|(_ & Ha & _)].
  - rewrite <- Ho. destruct He as [<-|[<-|[]]]; reflexivity.
  - injection Ha as <-. reflexivity.
Defined.

(** Bob creates an event of his own and alice's rows are what they
    were. *)
Lemma others_rows_are_untouched_witness :
  filter (fun e => Events.ownerUserId e =? "alice")
    (events
       (snd (server sample_is_datetime sample_is_url sample_is_email
               sample_Date_parse false (clock 30%Z "e4")
               (CreateEvent [("title", "Bob's barbecue")]) bob sample)))
  = [party; launch].
Proof.
  destruct (others_rows_are_untouched sample_is_datetime sample_is_url
              sample_is_email sample_Date_parse false (clock 30%Z "e4")
              (CreateEvent [("title", "Bob's barbecue")]) bob sample "alice")
    as (He & _).
  - discriminate.
  - exact sample_keys_unique.
  - rewrite He. reflexivity.
Defined.

Lemma deleted_event_is_gone_witness :
  deleteEvent [("id", "e2")] alice sample
  = (Ok tt, {| events := [party]; tasks := [cake]; guests := [ana] |}) /\
  getEventWithDetails [("id", "e2")] alice
    {| events := [party]; tasks := [cake]; guests := [ana] |}
  = (Throw NOT_FOUND, {| events := [party]; tasks := [cake]; guests := [ana] |}) /\
  deleteEvent [("id", "e2")] bob
    {| events := [party]; tasks := [cake]; guests := [ana] |}
  = (Throw NOT_FOUND, {| events := [party]; tasks := [cake]; guests := [ana] |}).
Proof.
  assert (Hrun : deleteEvent [("id", "e2")] alice sample
                 = (Ok tt, {| events := [party]; tasks := [cake]; guests := [ana] |}))
    by reflexivity.
  split; [exact Hrun|].
  destruct (deleted_event_is_gone sample_is_datetime sample_is_url sample_is_email
              sample_Date_parse true alice "e2" sample _ [("id", "e2")]
              eq_refl Hrun alice "alice" eq_refl) as (H1 & _).
  destruct (deleted_event_is_gone sample_is_datetime sample_is_url sample_is_email
              sample_Date_parse true alice "e2" sample _ [("id", "e2")]
              eq_refl Hrun bob "bob" eq_refl) as (_ & H2 & _).
  split; [exact H1|exact H2].
Defined.

Lemma created_event_reads_back_witness :
  exists event s',
    createEvent sample_is_datetime sample_is_url sample_Date_parse (clock 40%Z "e9")
      [("title", "Launch")] alice sample = (Ok event, s') /\
    getEventWithDetails [("id", Events.id event)] alice s'
    = (Ok {| d_event := event; d_tasks := []; d_guests := [] |}, s') /\
    getEventWithDetails [("id", Events.id event)] bob s' = (Throw FORBIDDEN, s').
Proof.
  destruct (created_event_reads_back sample_is_datetime sample_is_url
              sample_Date_parse (clock 40%Z "e9") [("title", "Launch")] _
              alice "alice" sample eq_refl eq_refl eq_refl sample_no_orphans)
    as (event & s' & Hrun & Hread & Hother).
  exists event, s'. split; [exact Hrun|]. split; [exact Hread|].
  apply (Hother bob "bob" eq_refl). discriminate.
Defined.

Lemma created_child_is_listed_witness :
  exists task s',
    upsertEventTask sample_is_datetime sample_Date_parse false (clock 50%Z "t9")
      [("eventId", "e1"); ("title", "Blow up balloons")] alice sample
    = (Ok task, s') /\
    getEventWithDetails [("id", "e1")] alice s'
    = (Ok {| d_event := party; d_tasks := [cake; task]; d_guests := [ana] |}, s').
Proof.
  destruct (created_child_is_listed sample_is_datetime sample_is_email
              sample_Date_parse false (clock 50%Z "t9") alice "alice" "e1" sample
              party eq_refl eq_refl eq_refl) as (H1 & _).
  destruct (H1 [("eventId", "e1"); ("title", "Blow up balloons")] _
              eq_refl eq_refl eq_refl eq_refl) as (task & s' & Hrun & Hread).
  exists task, s'. split; [exact Hrun|exact Hread].
Defined.

Lemma created_event_is_listed_witness :
  exists event s',
    createEvent sample_is_datetime sample_is_url sample_Date_parse (clock 40%Z "e9")
      [("title", "Launch")] alice sample = (Ok event, s') /\
    listMyEvents None alice s'
    = (Ok {| items := [party; launch; event]; total := 3 |}, s') /\
    fst (listMyEvents None bob s') = fst (listMyEvents None bob sample).
Proof.
  destruct (created_event_is_listed sample_is_datetime sample_is_url
              sample_Date_parse (clock 40%Z "e9") [("title", "Launch")] _
              alice "alice" sample eq_refl eq_refl eq_refl)
    as (event & s' & before & Hrun & Hbefore & Hafter & Hother).
  exists event, s'. split; [exact Hrun|]. split.
  - rewrite Hafter. vm_compute in Hbefore. injection Hbefore as <-. reflexivity.
  - apply (Hother bob "bob" eq_refl). discriminate.
Defined.
